(** * Audio-library transcoding pipeline: cover handling and cue splitting

    A shallow embedding of three scripts of the repository

    - [coverfix.py]  (cover refresh cycle, entry point),
    - [covercp.py]   (cover extraction and embedding, entry point),
    - [opusconv.py]  (bitrate classes, cue resolution, splitter, walker,
                      entry point),

    followed by the properties the specification states about them and
    by further properties of the code.

    Conventions.  Python [str] values are [string]s, their text in
    UTF-8; case mapping is that of the ASCII range, white space is that
    of [str.isspace].  Python [bytes] are
    [list byte].  A dictionary is a [gmap] where only lookups matter and an
    association list where iteration order matters.  Code under
    [try: ... except Exception] runs in the [result] monad below and the
    handler is the final [match].  Calls that leave the process (the
    transcoder, the cue parser, the cover helpers) are fields of a class
    of collaborators, and each call is recorded in a trace.  The walker
    is read over collaborators that return ([Opusconv]); the splitter is
    read a second time over an outside each of whose calls can raise
    ([Cuesplit]). *)

From Stdlib Require Import ZArith NArith Ascii String List.
From Stdlib Require Import Strings.Byte.
From stdpp Require Import base option list strings gmap pretty sorting.

Set Default Proof Using "Type".
Local Open Scope stdpp_scope.

Global Instance byte_eq_dec : EqDecision byte.
Proof.
  intros x y. destruct (Byte.eqb x y) eqn:E.
  - left. by apply Byte.byte_dec_bl.
  - right. intros ->. by rewrite Byte.byte_dec_lb in E.
Defined.

(* ===================================================================== *)
(** * Python primitives used by the scripts                               *)
(* ===================================================================== *)

Module Py.

(** ** Exceptions: [Ok v] or [Raise msg] *)

Inductive result (A : Type) : Type :=
| Ok (v : A)
| Raise (msg : string).
Arguments Ok {A} v.
Arguments Raise {A} msg.

Definition bind {A B} (m : result A) (k : A → result B) : result B :=
  match m with
  | Ok v => k v
  | Raise e => Raise e
  end.

(** ** [str] methods *)

(** [c.lower()] for one character. *)
Definition lower_char (c : ascii) : ascii :=
  let n := nat_of_ascii c in
  if (65 <=? n)%nat && (n <=? 90)%nat then ascii_of_nat (n + 32) else c.

(** [s.lower()] *)
Fixpoint lower (s : string) : string :=
  match s with
  | EmptyString => EmptyString
  | String c s' => String (lower_char c) (lower s')
  end.

(** [s.startswith(p)] *)
Fixpoint startswith (s p : string) : bool :=
  match p, s with
  | EmptyString, _ => true
  | String a p', String b s' => if decide (a = b) then startswith s' p' else false
  | String _ _, EmptyString => false
  end.

(** [s.endswith(p)] *)
Definition endswith (s p : string) : bool :=
  startswith (String.rev s) (String.rev p).

(** [c.isspace()] for a character of the ASCII range *)
Definition isspace (c : ascii) : bool :=
  let n := nat_of_ascii c in
  ((9 <=? n)%nat && (n <=? 13)%nat) || ((28 <=? n)%nat && (n <=? 32)%nat).

(** The white space of [str] beyond the ASCII range, as UTF-8 encodes
    it: in two bytes U+0085 and U+00A0, in three bytes U+1680, U+2000
    to U+200A, U+2028, U+2029, U+202F, U+205F and U+3000. *)
Definition isspace2 (a b : ascii) : bool :=
  let x := nat_of_ascii a in
  let y := nat_of_ascii b in
  (x =? 194)%nat && ((y =? 133)%nat || (y =? 160)%nat).

Definition isspace3 (a b c : ascii) : bool :=
  let x := nat_of_ascii a in
  let y := nat_of_ascii b in
  let z := nat_of_ascii c in
  ((x =? 225)%nat && (y =? 154)%nat && (z =? 128)%nat)
  || ((x =? 226)%nat && (y =? 128)%nat
      && (((128 <=? z)%nat && (z <=? 138)%nat)
          || (z =? 168)%nat || (z =? 169)%nat || (z =? 175)%nat))
  || ((x =? 226)%nat && (y =? 129)%nat && (z =? 159)%nat)
  || ((x =? 227)%nat && (y =? 128)%nat && (z =? 128)%nat).

(** Does [s] begin with a character of the class given by its one-,
    two- and three-byte members? *)
Definition starts_by (one : ascii → bool) (two : ascii → ascii → bool)
    (three : ascii → ascii → ascii → bool) (s : string) : bool :=
  match s with
  | String a (String b (String c _)) => one a || two a b || three a b c
  | String a (String b EmptyString) => one a || two a b
  | String a EmptyString => one a
  | EmptyString => false
  end.

(** [s] without the leading characters of the class. *)
Fixpoint lstrip_by (one : ascii → bool) (two : ascii → ascii → bool)
    (three : ascii → ascii → ascii → bool) (s : string) : string :=
  match s with
  | EmptyString => EmptyString
  | String a s1 =>
      if one a then lstrip_by one two three s1
      else
        match s1 with
        | EmptyString => s
        | String b s2 =>
            if two a b then lstrip_by one two three s2
            else
              match s2 with
              | EmptyString => s
              | String c s3 =>
                  if three a b c then lstrip_by one two three s3 else s
              end
        end
  end.

(** [s.lstrip()] *)
Definition lstrip (s : string) : string := lstrip_by isspace isspace2 isspace3 s.

(** [s.rstrip()]: the same from the end, each character read
    backwards. *)
Definition rstrip (s : string) : string :=
  String.rev
    (lstrip_by isspace (λ a b, isspace2 b a) (λ a b c, isspace3 c b a) (String.rev s)).

(** [s.strip()] *)
Definition strip (s : string) : string := rstrip (lstrip s).

(** Does [s] begin, does it end with white space? *)
Definition starts_space (s : string) : bool := starts_by isspace isspace2 isspace3 s.
Definition ends_space (s : string) : bool :=
  starts_by isspace (λ a b, isspace2 b a) (λ a b c, isspace3 c b a) (String.rev s).

(** A text made of characters of the class and nothing else. *)
Inductive blank_by (one : ascii → bool) (two : ascii → ascii → bool)
    (three : ascii → ascii → ascii → bool) : string → Prop :=
| blank_nil : blank_by one two three EmptyString
| blank_one a s :
    one a = true → blank_by one two three s → blank_by one two three (String a s)
| blank_two a b s :
    two a b = true → blank_by one two three s →
    blank_by one two three (String a (String b s))
| blank_three a b c s :
    three a b c = true → blank_by one two three s →
    blank_by one two three (String a (String b (String c s))).

(** A text made of white space. *)
Definition blank (s : string) : Prop := blank_by isspace isspace2 isspace3 s.

(** [s.rfind('.')], with [None] for Python's [-1]. *)
Fixpoint rfind_dot (s : string) : option nat :=
  match s with
  | EmptyString => None
  | String c s' =>
      match rfind_dot s' with
      | Some i => Some (S i)
      | None => if decide (c = "."%char) then Some 0%nat else None
      end
  end.

(** [s[:n]] and [s[n:]] *)
Fixpoint take (n : nat) (s : string) : string :=
  match n, s with
  | S n', String c s' => String c (take n' s')
  | _, _ => EmptyString
  end.

Fixpoint drop (n : nat) (s : string) : string :=
  match n, s with
  | S n', String _ s' => drop n' s'
  | _, _ => s
  end.

(** [s.split('/')] *)
Fixpoint split_slash_go (cur : string) (s : string) : list string :=
  match s with
  | EmptyString => [String.rev cur]
  | String c s' =>
      if decide (c = "/"%char)
      then String.rev cur :: split_slash_go EmptyString s'
      else split_slash_go (String c cur) s'
  end.
Definition split_slash (s : string) : list string :=
  split_slash_go EmptyString s.

(** [re.sub(r'[...]', repl, s)] for a character class given as a
    predicate and a one-character replacement. *)
Fixpoint sub_class (cls : ascii → bool) (repl : ascii) (s : string) : string :=
  match s with
  | EmptyString => EmptyString
  | String c s' => String (if cls c then repl else c) (sub_class cls repl s')
  end.

(** [sep.join(l)] *)
Fixpoint join (sep : string) (l : list string) : string :=
  match l with
  | [] => ""
  | [x] => x
  | x :: l' => x +:+ sep +:+ join sep l'
  end.

End Py.

Global Instance result_ret : MRet Py.result := @Py.Ok.
Global Instance result_bind : MBind Py.result := λ A B k m, Py.bind m k.
Global Instance result_fmap : FMap Py.result := λ A B f m, Py.bind m (λ v, Py.Ok (f v)).

(* ===================================================================== *)
(** * [pathlib.PurePosixPath]                                             *)
(* ===================================================================== *)

(** A path is its anchor (is there a root?) and its components, the way
    pathlib keeps them after parsing: empty and ["."] components are
    dropped, [".."] is kept. *)
Record Path : Type := mkPath { root : bool; parts : list string }.

Global Instance Path_eq_dec : EqDecision Path.
Proof. solve_decision. Defined.

Module PathOps.

(** [Path(s)] *)
Definition of_str (s : string) : Path :=
  {| root := Py.startswith s "/";
     parts := filter (λ c, c ≠ "" ∧ c ≠ ".") (Py.split_slash s) |}.

(** [str(p)] *)
Definition to_str (p : Path) : string :=
  match root p, parts p with
  | false, [] => "."
  | false, l => Py.join "/" l
  | true, l => "/" +:+ Py.join "/" l
  end.

(** [p / q] *)
Definition join (p q : Path) : Path :=
  if root q then q else {| root := root p; parts := parts p ++ parts q |}.

(** [p / s] for a string [s] *)
Definition joins (p : Path) (s : string) : Path := join p (of_str s).

(** [p.name] *)
Definition name (p : Path) : string := List.last (parts p) "".

(** [p.parent] *)
Definition parent (p : Path) : Path :=
  {| root := root p; parts := removelast (parts p) |}.

(** [p.suffix]: from the last dot of the name, unless that dot is the
    first or the last character. *)
Definition suffix (p : Path) : string :=
  let n := name p in
  match Py.rfind_dot n with
  | Some i =>
      if (0 <? i)%nat && (i <? String.length n - 1)%nat then Py.drop i n else ""
  | None => ""
  end.

(** [p.stem] *)
Definition stem (p : Path) : string :=
  let n := name p in
  match Py.rfind_dot n with
  | Some i =>
      if (0 <? i)%nat && (i <? String.length n - 1)%nat then Py.take i n else n
  | None => n
  end.

(** [p.with_suffix(s)]; pathlib raises on an empty name. *)
Definition with_suffix (p : Path) (s : string) : Py.result Path :=
  if decide (name p = "") then Py.Raise "ValueError: has an empty name"
  else Py.Ok {| root := root p; parts := removelast (parts p) ++ [stem p +:+ s] |}.

(** [p.relative_to(base)]; pathlib raises when [base] is no prefix. *)
Fixpoint strip_prefix (b l : list string) : option (list string) :=
  match b, l with
  | [], _ => Some l
  | x :: b', y :: l' => if decide (x = y) then strip_prefix b' l' else None
  | _ :: _, [] => None
  end.

Definition relative_to (p base : Path) : Py.result Path :=
  if decide (root p = root base) then
    match strip_prefix (parts base) (parts p) with
    | Some l => Py.Ok {| root := false; parts := l |}
    | None => Py.Raise "ValueError: not in the subpath"
    end
  else Py.Raise "ValueError: not in the subpath".

(** Is [q] at or below [p]? *)
Definition is_under (p q : Path) : bool :=
  bool_decide (root p = root q) && bool_decide (is_Some (strip_prefix (parts p) (parts q))).

End PathOps.

Notation "p // s" := (PathOps.joins p s) (at level 40, left associativity).


(* ===================================================================== *)
(** * The libraries under the cover scripts: base64 and mutagen           *)
(* ===================================================================== *)

Module Mutagen.

(** [mutagen.flac.Picture]: a picture block. [Picture()] is
    [empty_picture]. *)
Record Picture : Type := mkPicture {
  type : N;
  mime : string;
  desc : string;
  width : N;
  height : N;
  depth : N;
  colors : N;
  data : list byte;
}.

Definition empty_picture : Picture :=
  {| type := 0; mime := ""; desc := ""; width := 0; height := 0;
     depth := 0; colors := 0; data := [] |}.

Definition set_type (v : N) (p : Picture) : Picture :=
  {| type := v; mime := mime p; desc := desc p; width := width p;
     height := height p; depth := depth p; colors := colors p; data := data p |}.
Definition set_desc (v : string) (p : Picture) : Picture :=
  {| type := type p; mime := mime p; desc := v; width := width p;
     height := height p; depth := depth p; colors := colors p; data := data p |}.
Definition set_mime (v : string) (p : Picture) : Picture :=
  {| type := type p; mime := v; desc := desc p; width := width p;
     height := height p; depth := depth p; colors := colors p; data := data p |}.
Definition set_data (v : list byte) (p : Picture) : Picture :=
  {| type := type p; mime := mime p; desc := desc p; width := width p;
     height := height p; depth := depth p; colors := colors p; data := v |}.

(** What the scripts call in [base64] and on [Picture]: decoding and
    parsing can raise, encoding and writing cannot. *)
Class Codec : Type := {
  b64decode : string → Py.result (list byte);
  b64encode : list byte → string;
  Picture_load : list byte → Py.result Picture;
  Picture_write : Picture → list byte;
}.

(** A Vorbis comment: field name to its list of values.  mutagen matches
    field names without regard to case; the keys here are the lowercase
    names.  A field with no value is no field. *)
Abbreviation VComment := (gmap string (list string)).

Definition vc_setitem (key : string) (values : list string) (t : VComment) : VComment :=
  match values with
  | [] => delete key t
  | _ => <[key := values]> t
  end.

(** The Opus files on disk, by path; a path that is no readable Opus
    file has no entry. *)
Abbreviation Disk := (gmap string (gmap string (list string))).

(** An opened [OggOpus] object. *)
Record OggOpusFile : Type := mkOggOpus { filename : string; tags : VComment }.

Definition OggOpus (disk : Disk) (filepath : string) : Py.result OggOpusFile :=
  match disk !! filepath with
  | Some t => Py.Ok {| filename := filepath; tags := t |}
  | None => Py.Raise ("unable to read " +:+ filepath)
  end.

(** [audio.save()]; writing is taken to succeed. *)
Definition save (audio : OggOpusFile) (disk : Disk) : Disk :=
  <[filename audio := tags audio]> disk.

(** [del audio.tags[key]] and [audio.tags[key] = values] *)
Definition del_tag (key : string) (audio : OggOpusFile) : OggOpusFile :=
  {| filename := filename audio; tags := delete key (tags audio) |}.
Definition set_tag (key : string) (values : list string) (audio : OggOpusFile) : OggOpusFile :=
  {| filename := filename audio; tags := vc_setitem key values (tags audio) |}.

End Mutagen.

(** ** A concrete codec: RFC 4648 base64 and the FLAC picture block *)

Module Wire.

Definition alphabet : list ascii :=
  list_ascii_of_string
    "ABCDEFGHIJKLMNOPQRSTUVWXYZabcdefghijklmnopqrstuvwxyz0123456789+/".

Definition sextet_char (n : N) : ascii := nth (N.to_nat n) alphabet "="%char.

Fixpoint index_of (c : ascii) (l : list ascii) : option N :=
  match l with
  | [] => None
  | x :: l' => if decide (x = c) then Some 0%N else N.succ <$> index_of c l'
  end.

Definition char_sextet (c : ascii) : option N := index_of c alphabet.

Definition sextets (n : N) (k : nat) : list ascii :=
  take k [sextet_char (n / 262144)%N; sextet_char ((n / 4096) mod 64)%N;
          sextet_char ((n / 64) mod 64)%N; sextet_char (n mod 64)%N].

Fixpoint b64encode_chars (l : list byte) : list ascii :=
  match l with
  | [] => []
  | [a] => sextets (Byte.to_N a * 65536)%N 2 ++ ["="; "="]%char
  | [a; b] => sextets (Byte.to_N a * 65536 + Byte.to_N b * 256)%N 3 ++ ["="%char]
  | a :: b :: c :: rest =>
      sextets (Byte.to_N a * 65536 + Byte.to_N b * 256 + Byte.to_N c)%N 4
        ++ b64encode_chars rest
  end.

Definition b64encode (l : list byte) : string :=
  string_of_list_ascii (b64encode_chars l).

Definition octet (n : N) : byte :=
  default x00 (Byte.of_N (n mod 256)%N).

Fixpoint b64decode_quads (l : list N) : Py.result (list byte) :=
  match l with
  | [] => Py.Ok []
  | [_] => Py.Raise "Incorrect padding"
  | [a; b] => Py.Ok [octet ((a * 64 + b) / 16)%N]
  | [a; b; c] =>
      let n := (a * 4096 + b * 64 + c)%N in
      Py.Ok [octet (n / 1024)%N; octet (n / 4)%N]
  | a :: b :: c :: d :: rest =>
      let n := (a * 262144 + b * 4096 + c * 64 + d)%N in
      match b64decode_quads rest with
      | Py.Ok bs => Py.Ok (octet (n / 65536)%N :: octet (n / 256)%N :: octet n :: bs)
      | Py.Raise e => Py.Raise e
      end
  end.

(** Characters outside the alphabet are discarded, as [base64.b64decode]
    does by default; the length with padding must be a multiple of 4. *)
Definition b64decode (s : string) : Py.result (list byte) :=
  let cs := list_ascii_of_string s in
  let body := omap char_sextet cs in
  let pad := length (filter (λ c, c = "="%char) cs) in
  if decide ((length body + pad) mod 4 = 0)%nat
  then b64decode_quads body
  else Py.Raise "Incorrect padding".

(** [struct.pack('>I', n)] and [struct.unpack('>I', ...)] *)
Definition pack_u32 (n : N) : list byte :=
  [octet (n / 16777216)%N; octet (n / 65536)%N; octet (n / 256)%N; octet n].

Definition unpack_u32 (l : list byte) : Py.result (N * list byte) :=
  match l with
  | a :: b :: c :: d :: rest =>
      Py.Ok (Byte.to_N a * 16777216 + Byte.to_N b * 65536
             + Byte.to_N c * 256 + Byte.to_N d, rest)%N
  | _ => Py.Raise "unpack requires a buffer of 4 bytes"
  end.

Definition bytes_of_str (s : string) : list byte := list_byte_of_string s.
Definition str_of_bytes (l : list byte) : string := string_of_list_byte l.

(** [Picture.write]: type, MIME, description, width, height, depth,
    colours, data; every integer on 4 bytes, every string and the data
    behind their length. *)
Definition Picture_write (p : Mutagen.Picture) : list byte :=
  let mime := bytes_of_str (Mutagen.mime p) in
  let desc := bytes_of_str (Mutagen.desc p) in
  pack_u32 (Mutagen.type p) ++ pack_u32 (N.of_nat (length mime)) ++ mime
    ++ pack_u32 (N.of_nat (length desc)) ++ desc
    ++ pack_u32 (Mutagen.width p) ++ pack_u32 (Mutagen.height p)
    ++ pack_u32 (Mutagen.depth p) ++ pack_u32 (Mutagen.colors p)
    ++ pack_u32 (N.of_nat (length (Mutagen.data p))) ++ Mutagen.data p.

(** [Picture.load] *)
Definition Picture_load (raw : list byte) : Py.result Mutagen.Picture :=
  '(type, r) ← unpack_u32 raw;
  '(len, r) ← unpack_u32 r;
  let mime := str_of_bytes (take (N.to_nat len) r) in
  let r := drop (N.to_nat len) r in
  '(len, r) ← unpack_u32 r;
  let desc := str_of_bytes (take (N.to_nat len) r) in
  let r := drop (N.to_nat len) r in
  '(width, r) ← unpack_u32 r;
  '(height, r) ← unpack_u32 r;
  '(depth, r) ← unpack_u32 r;
  '(colors, r) ← unpack_u32 r;
  '(len, r) ← unpack_u32 r;
  Py.Ok {| Mutagen.type := type; Mutagen.mime := mime; Mutagen.desc := desc;
           Mutagen.width := width; Mutagen.height := height;
           Mutagen.depth := depth; Mutagen.colors := colors;
           Mutagen.data := take (N.to_nat len) r |}.

Definition codec : Mutagen.Codec :=
  {| Mutagen.b64decode := b64decode; Mutagen.b64encode := b64encode;
     Mutagen.Picture_load := Picture_load; Mutagen.Picture_write := Picture_write |}.

End Wire.

(* ===================================================================== *)
(** * coverfix.py                                                         *)
(* ===================================================================== *)

Module Coverfix.
Import Mutagen.

Section WithCodec.
Context {codec : Codec}.

(** The body of [for b64_data in b64_pictures], with the two
    variables the loop updates. *)
Fixpoint refresh_loop (b64_pictures : list string)
    (new_pictures : list string) (modified : bool)
    : Py.result (list string * bool) :=
  match b64_pictures with
  | [] => Py.Ok (new_pictures, modified)
  | b64_data :: rest =>
      raw_data ← b64decode b64_data;
      pic ← Picture_load raw_data;
      (* Force type 3 (Front Cover) *)
      let '(pic, modified) :=
        if decide (type pic ≠ 3%N)
        then (set_desc "Front Cover" (set_type 3 pic), true)
        else (pic, modified) in
      let new_b64 := b64encode (Picture_write pic) in
      refresh_loop rest (new_pictures ++ [new_b64]) modified
  end.

(** The [try] block of [refresh_cover]: the status it returns or the
    exception it raises, and the disk it leaves. *)
Definition refresh_cover_try (filepath : string) (disk : Disk)
    : Py.result string * Disk :=
  match OggOpus disk filepath with
  | Py.Raise e => (Py.Raise e, disk)
  | Py.Ok audio =>
      match tags audio !! "metadata_block_picture" with
      | None => (Py.Ok "skip", disk)
      | Some b64_pictures =>
          match refresh_loop b64_pictures [] false with
          | Py.Raise e => (Py.Raise e, disk)
          | Py.Ok (new_pictures, modified) =>
              (* The refresh cycle: delete and re-add *)
              let audio := del_tag "metadata_block_picture" audio in
              let disk := save audio disk in
              let audio := set_tag "metadata_block_picture" new_pictures audio in
              let disk := save audio disk in
              (Py.Ok (if modified then "fixed" else "refreshed"), disk)
          end
      end
  end.

(** [refresh_cover(filepath)] *)
Definition refresh_cover (filepath : string) (disk : Disk) : string * Disk :=
  match refresh_cover_try filepath disk with
  | (Py.Ok status, disk') => (status, disk')
  | (Py.Raise e, disk') => ("error: " +:+ e, disk')
  end.

(** ** The specification's vocabulary *)

(** A stored value, decoded and parsed. *)
Definition decode_block (v : string) : Py.result Picture :=
  raw ← b64decode v; Picture_load raw.

(** The picture blocks a file stores; [None] when the file, the
    field or a block cannot be read. *)
Definition stored_pictures (disk : Disk) (filepath : string) : option (list Picture) :=
  t ← disk !! filepath;
  vs ← t !! "metadata_block_picture";
  match mapM decode_block vs with
  | Py.Ok ps => Some ps
  | Py.Raise _ => None
  end.

(** A block with its role forced to front cover: what the loop
    makes of one parsed block. *)
Definition corrected (p : Picture) : Picture :=
  if decide (type p ≠ 3%N) then set_desc "Front Cover" (set_type 3 p) else p.

End WithCodec.
End Coverfix.

(* ===================================================================== *)
(** * covercp.py                                                          *)
(* ===================================================================== *)

Module Covercp.
Import Mutagen.

(** What a tag dictionary can hold under a key: an ID3 frame, with a
    [data] attribute when it is an attached picture, or a list of
    values, each an MP4 cover (bytes) or text. *)
Inductive Entry : Type :=
| Cover (b : list byte)
| Text (s : string).

Inductive TagValue : Type :=
| Frame (data : option (list byte))
| Values (l : list Entry).

(** An opened source file: [pictures] is [None] when the object has no
    such attribute; [tags] is [None] without the attribute and
    [Some None] when it is [None].  The tag dictionary keeps its
    iteration order. *)
Record Audio : Type := mkAudio {
  pictures : option (list Picture);
  tags : option (option (list (string * TagValue)));
}.

(** [tags[key]] *)
Fixpoint getitem (t : list (string * TagValue)) (key : string) : Py.result TagValue :=
  match t with
  | [] => Py.Raise ("KeyError: " +:+ key)
  | (k, v) :: t' => if decide (k = key) then Py.Ok v else getitem t' key
  end.

(** [v.data] *)
Definition get_data (v : TagValue) : Py.result (list byte) :=
  match v with
  | Frame (Some d) => Py.Ok d
  | Frame None => Py.Raise "AttributeError: object has no attribute data"
  | Values _ => Py.Raise "AttributeError: list object has no attribute data"
  end.

(** Truth value of [v] *)
Definition truthy (v : TagValue) : bool :=
  match v with
  | Frame _ => true
  | Values l => bool_decide (l ≠ [])
  end.

(** [bytes(v[0])] *)
Definition first_bytes (v : TagValue) : Py.result (list byte) :=
  match v with
  | Values (Cover b :: _) => Py.Ok b
  | Values (Text _ :: _) => Py.Raise "TypeError: string argument without an encoding"
  | Values [] => Py.Raise "IndexError: list index out of range"
  | Frame _ => Py.Raise "TypeError: object is not subscriptable"
  end.

(** [for key in audio.tags.keys()]: [Some r] when the loop body
    returned (or raised) [r], [None] when the loop ran out. *)
Fixpoint apic_loop (t : list (string * TagValue)) (keys : list string)
    : option (Py.result (list byte)) :=
  match keys with
  | [] => None
  | key :: rest =>
      if Py.startswith key "APIC:"
      then Some (v ← getitem t key; get_data v)
      else apic_loop t rest
  end.

(** ** The specification's vocabulary *)

(** The file exposes no picture, and the tags hold no attached-picture
    frame. *)
Definition no_pictures (audio : Audio) : Prop :=
  pictures audio = None ∨ pictures audio = Some [].

Definition no_apic_key (t : list (string * TagValue)) : Prop :=
  ∀ key, key ∈ t.*1 → Py.startswith key "APIC:" = false.

Section WithFile.
(** [mutagen.File]: raises, returns [None] for an unknown format, or
    the opened file. *)
Variable File : string → Py.result (option Audio).

(** The [try] block of [extract_cover]. *)
Definition extract_cover_try (source_path : string) : Py.result (option (list byte)) :=
  audio ← File source_path;
  match audio with
  | None => Py.Ok None
  | Some audio =>
      (* FLAC/Vorbis pictures *)
      match pictures audio with
      | Some (pic :: _) => Py.Ok (Some (data pic))
      | _ =>
          match tags audio with
          | None | Some None => Py.Ok None
          | Some (Some t) =>
              (* ID3 APIC (MP3, AIFF) *)
              match apic_loop t (fst <$> t) with
              | Some r => Some <$> r
              | None =>
                  (* MP4/M4A covr *)
                  if bool_decide ("covr" ∈ fst <$> t) then
                    v ← getitem t "covr";
                    if truthy v then Some <$> first_bytes v else Py.Ok None
                  else Py.Ok None
              end
          end
      end
  end.

(** [extract_cover(source_path)]: the bytes or [None], and the lines
    written to standard error. *)
Definition extract_cover (source_path : string) : option (list byte) * list string :=
  match extract_cover_try source_path with
  | Py.Ok r => (r, [])
  | Py.Raise e => (None, ["Warning: Could not extract cover: " +:+ e])
  end.

End WithFile.

Section WithCodec.
Context {codec : Codec}.

(** [embed_cover(dest_path, image_data)]: success, the disk
    afterwards, and the lines written to standard error. *)
Definition embed_cover (dest_path : string) (image_data : list byte) (disk : Disk)
    : bool * Disk * list string :=
  match OggOpus disk dest_path with
  | Py.Raise e => (false, disk, ["Warning: Could not embed cover: " +:+ e])
  | Py.Ok audio =>
      (* Create Picture block *)
      let pic := empty_picture in
      let pic := set_data image_data pic in
      let pic := set_type 3 pic in
      let pic := set_desc "Front Cover" pic in
      (* Guess MIME type from magic bytes *)
      let pic :=
        if decide (take 3 image_data = [xff; xd8; xff]) then
          set_mime "image/jpeg" pic
        else if decide (take 8 image_data = [x89; x50; x4e; x47; x0d; x0a; x1a; x0a]) then
          set_mime "image/png" pic
        else
          set_mime "image/jpeg" pic in
      (* Encode and embed *)
      let encoded := b64encode (Picture_write pic) in
      let audio := set_tag "metadata_block_picture" [encoded] audio in
      let disk := save audio disk in
      (true, disk, [])
  end.

End WithCodec.
End Covercp.

(* ===================================================================== *)
(** * opusconv.py                                                         *)
(* ===================================================================== *)

Global Instance Path_countable : Countable Path.
Proof.
  apply (inj_countable' (λ p, (root p, parts p)) (λ rp, mkPath rp.1 rp.2)).
  by intros [].
Defined.

(** ** The file system the walker sees *)

(** Regular files and explicitly created directories, in listing order.
    Every ancestor of a file or directory is a directory.  Paths are
    compared as they are written: the model has no symbolic links. *)
Record FS : Type := mkFS { fs_files : list Path; fs_dirs : list Path }.

Module Os.

Fixpoint inits {A} (l : list A) : list (list A) :=
  [] :: match l with
        | [] => []
        | x :: l' => (x ::.) <$> inits l'
        end.

(** [p] and the directories above it, top first. *)
Definition ancestors (p : Path) : list Path :=
  mkPath (root p) <$> inits (parts p).

Definition all_dirs (fs : FS) : list Path :=
  remove_dups (mjoin (ancestors <$> (fs_dirs fs ++ (PathOps.parent <$> fs_files fs)))).

(** [p.is_file()], [p.is_dir()], [p.exists()] *)
Definition is_file (fs : FS) (p : Path) : bool := bool_decide (p ∈ fs_files fs).
Definition is_dir (fs : FS) (p : Path) : bool := bool_decide (p ∈ all_dirs fs).
Definition exists_ (fs : FS) (p : Path) : bool := is_file fs p || is_dir fs p.

(** [os.makedirs(p, exist_ok=True)]: a regular file at [p] is in the
    way of [mkdir], one above [p] is no directory to make [p] in. *)
Definition makedirs (p : Path) (fs : FS) : Py.result FS :=
  if is_dir fs p then Py.Ok fs
  else if is_file fs p then Py.Raise "FileExistsError"
  else if existsb (is_file fs) (ancestors p) then Py.Raise "NotADirectoryError"
  else Py.Ok {| fs_files := fs_files fs; fs_dirs := fs_dirs fs ++ [p] |}.

(** A process writes the file [p]. *)
Definition create_file (p : Path) (fs : FS) : FS :=
  if is_file fs p then fs
  else {| fs_files := fs_files fs ++ [p]; fs_dirs := fs_dirs fs |}.

(** [top.rglob("*.cue")]: everything below [top] whose name matches
    the pattern; the match is case-sensitive. *)
Definition rglob_cue (fs : FS) (top : Path) : list Path :=
  filter (λ p, PathOps.is_under top p ∧ p ≠ top ∧ Py.endswith (PathOps.name p) ".cue")
         (all_dirs fs ++ fs_files fs).

(** [os.walk(top)]: each directory at or below [top] with the names of
    the files in it, as they are when the walk starts. *)
Definition walk (fs : FS) (top : Path) : list (Path * list string) :=
  (λ d, (d, PathOps.name <$> filter (λ f, PathOps.parent f = d) (fs_files fs)))
    <$> filter (λ d, PathOps.is_under top d) (all_dirs fs).

End Os.

(** ** The cue parser's record (the JSON object it prints) *)

(** A JSON number, kept as Python prints it. *)
Inductive Number : Type :=
| Int (z : Z)
| Float (repr : string).

Module Cue.
(** A key that is absent is [None]. *)
Record Track : Type := mkTrack {
  number : option string;
  title : option string;
  artist : option string;
  start : option Number;
  duration : option Number;
}.

Record Data : Type := mkData {
  single_file : option bool;
  tracks : option (list Track);
  files : option (list string);
  album : option string;
  date : option string;
  genre : option string;
  disc : option string;
}.

(** Truth value of the dictionary: an empty one is false. *)
Definition truthy (d : Data) : bool :=
  bool_decide (is_Some (single_file d)) || bool_decide (is_Some (tracks d))
  || bool_decide (is_Some (files d)) || bool_decide (is_Some (album d))
  || bool_decide (is_Some (date d)) || bool_decide (is_Some (genre d))
  || bool_decide (is_Some (disc d)).
End Cue.

(** ** Calls that leave the process *)

(** The arguments [run_opusencode] hands to [opusencode.py]. *)
Record EncodeCall : Type := mkEncodeCall {
  enc_input : Path;
  enc_output : Path;
  enc_bitrate : string;
  enc_start : option Number;
  enc_duration : option Number;
  enc_meta : list (string * string);
}.

Inductive Event : Type :=
| Opusencode (c : EncodeCall)
| Covercp (source dest : Path)
| Coverfix (dest : Path)
| Stdout (line : string).

Class Collaborators : Type := {
  (** return code and standard output of [cueparse.py <cue>] *)
  cueparse_py : Path → Z * string;
  (** [json.loads] on that output; raises on malformed JSON *)
  json_loads : string → Py.result Cue.Data;
  (** return code of [opusencode.py] on a call, given the files there are *)
  opusencode_py : EncodeCall → FS → Z;
  (** [Path.resolve()] *)
  resolve : Path → Path;
}.

(** ** State: the file system, and what was run and printed so far *)

Record World : Type := mkWorld { fs : FS; trace : list Event }.

Definition M (A : Type) : Type := World → Py.result A * World.

Global Instance M_ret : MRet M := λ A v w, (Py.Ok v, w).
Global Instance M_bind : MBind M := λ A B k m w,
  match m w with
  | (Py.Ok v, w') => k v w'
  | (Py.Raise e, w') => (Py.Raise e, w')
  end.

Module St.
Definition gets {A} (f : FS → A) : M A := λ w, (Py.Ok (f (fs w)), w).
Definition emit (e : Event) : M unit :=
  λ w, (Py.Ok (), {| fs := fs w; trace := trace w ++ [e] |}).
Definition lift {A} (r : Py.result A) : M A := λ w, (r, w).
Definition update (f : FS → Py.result FS) : M unit := λ w,
  match f (fs w) with
  | Py.Ok fs' => (Py.Ok (), {| fs := fs'; trace := trace w |})
  | Py.Raise e => (Py.Raise e, w)
  end.
Definition print (line : string) : M unit := emit (Stdout line).

(** [for x in l: body(x)] *)
Fixpoint for_each {A} (l : list A) (body : A → M unit) : M unit :=
  match l with
  | [] => mret ()
  | x :: l' => body x ;; for_each l' body
  end.
End St.

Module Opusconv.

(** --- CONFIGURATION --- *)
Definition DEST_DIR : Path := PathOps.of_str "/home/alice/opus/".

Definition EXT_LOSSLESS : gset string :=
  {[ ".flac"; ".wav"; ".aiff"; ".ape"; ".alac"; ".tak" ]}.
Definition EXT_LOSSY : gset string :=
  {[ ".mp3"; ".m4a"; ".aac"; ".ogg"; ".wma" ]}.

(** [get_bitrate(extension)] *)
Definition get_bitrate (extension : string) : option string :=
  let ext := Py.lower extension in
  if decide (ext ∈ EXT_LOSSLESS) then Some "96k"
  else if decide (ext ∈ EXT_LOSSY) then Some "192k"
  else None.

(** The character class of [sanitize_filename]:
    less-than, greater-than, colon, double quote, slash, backslash,
    bar, question mark, star. *)
Definition illegal_chars : list ascii :=
  ["<"; ">"; ":"; "034"; "/"; "\"; "|"; "?"; "*"]%char.

Definition illegal (c : ascii) : bool := bool_decide (c ∈ illegal_chars).

(** [sanitize_filename(name)] *)
Definition sanitize_filename (name : string) : string :=
  Py.strip (Py.sub_class illegal "_" name).

(** [find_audio_for_cue]: the loop over the extensions. *)
Fixpoint find_audio_loop (fs : FS) (cue_dir : Path) (ref_stem : string)
    (exts : list string) : option Path :=
  match exts with
  | [] => None
  | ext :: rest =>
      let candidate := cue_dir // (ref_stem +:+ ext) in
      if Os.exists_ fs candidate then Some candidate
      else find_audio_loop fs cue_dir ref_stem rest
  end.

Definition cue_extensions : list string :=
  [".flac"; ".ape"; ".wav"; ".tak"; ".mp3"; ".m4a"].

(** [find_audio_for_cue(cue_dir, ref_filename)] *)
Definition find_audio_for_cue (fs : FS) (cue_dir : Path) (ref_filename : string)
    : option Path :=
  let ref_path := cue_dir // ref_filename in
  if Os.exists_ fs ref_path then Some ref_path
  else
    let ref_stem := PathOps.stem (PathOps.of_str ref_filename) in
    find_audio_loop fs cue_dir ref_stem cue_extensions.

Section WithCollaborators.
Context {collab : Collaborators}.

(** [run_cueparse(cue_path)] *)
Definition run_cueparse (cue_path : Path) : option Cue.Data :=
  let '(returncode, stdout) := cueparse_py cue_path in
  if decide (returncode ≠ 0%Z) then None
  else match json_loads stdout with
       | Py.Ok d => Some d
       | Py.Raise _ => None
       end.

(** [cue_data and cue_data.get('single_file')] *)
Definition is_single_file (cue_data : option Cue.Data) : bool :=
  match cue_data with
  | Some d => Cue.truthy d && default false (Cue.single_file d)
  | None => false
  end.

(** [run_opusencode(input_path, output_path, bitrate, start, duration,
    metadata)]: metadata with an empty value is not passed on; on
    return code 0 the output file is there. *)
Definition run_opusencode (input_path output_path : Path) (bitrate : string)
    (start duration : option Number) (metadata : list (string * string)) : M bool :=
  let call := {| enc_input := input_path; enc_output := output_path;
                 enc_bitrate := bitrate; enc_start := start;
                 enc_duration := duration;
                 enc_meta := filter (λ kv, kv.2 ≠ "") metadata |} in
  St.emit (Opusencode call) ;;
  returncode ← St.gets (opusencode_py call);
  if decide (returncode = 0%Z)
  then St.update (λ fs, Py.Ok (Os.create_file output_path fs)) ;; mret true
  else mret false.

(** [run_covercp(source, dest)] and [run_coverfix(dest)]; the callers
    drop the result. *)
Definition run_covercp (source dest : Path) : M unit := St.emit (Covercp source dest).
Definition run_coverfix (dest : Path) : M unit := St.emit (Coverfix dest).

(** [process_cue]: the body of [for track in cue_data['tracks']]. *)
Definition process_track (cue_data : Cue.Data) (source_audio : Path)
    (bitrate : string) (dest_subdir : Path) (total : nat) (track : Cue.Track)
    : M unit :=
  let num := default "00" (Cue.number track) in
  let title := default ("Track " +:+ num) (Cue.title track) in
  let safe_title := sanitize_filename title in
  let out_name := num +:+ " - " +:+ safe_title +:+ ".opus" in
  let out_path := dest_subdir // out_name in
  present ← St.gets (λ fs, Os.exists_ fs out_path);
  if (present : bool) then mret ()
  else
    St.print ("    [" +:+ num +:+ "/" +:+ pretty total +:+ "] " +:+ title) ;;
    let metadata :=
      [("title", title);
       ("artist", default "" (Cue.artist track));
       ("album", default "" (Cue.album cue_data));
       ("track", num +:+ "/" +:+ pretty total);
       ("date", default "" (Cue.date cue_data));
       ("genre", default "" (Cue.genre cue_data));
       ("disc", default "" (Cue.disc cue_data))] in
    let start := default (Int 0) (Cue.start track) in
    let duration := Cue.duration track in
    ok ← run_opusencode source_audio out_path bitrate (Some start) duration metadata;
    if (ok : bool) then
      run_covercp source_audio out_path ;;
      run_coverfix out_path
    else mret ().

(** [process_cue(cue_path, dest_subdir)] *)
Definition process_cue (cue_path dest_subdir : Path) : M bool :=
  match run_cueparse cue_path with
  | None => mret false
  | Some cue_data =>
      if negb (Cue.truthy cue_data) || negb (default false (Cue.single_file cue_data))
      then mret false
      else
        match Cue.tracks cue_data with
        | None | Some [] => mret false
        | Some tracks =>
            (* Find the source audio file *)
            match Cue.files cue_data with
            | None | Some [] => mret false
            | Some (file0 :: _) =>
                source_audio ← St.gets (λ fs,
                  find_audio_for_cue fs (PathOps.parent cue_path) file0);
                match source_audio with
                | None =>
                    St.print "  [Error] Audio file not found for CUE" ;;
                    mret false
                | Some source_audio =>
                    match get_bitrate (PathOps.suffix source_audio) with
                    | None => mret false
                    | Some bitrate =>
                        St.update (Os.makedirs dest_subdir) ;;
                        let total := length tracks in
                        St.for_each tracks
                          (process_track cue_data source_audio bitrate
                             dest_subdir total) ;;
                        mret true
                    end
                end
            end
        end
  end.

(** [convert_directory], first pass: the sources a single-file cue
    refers to. *)
Definition claim_refs (fs : FS) (cue_path : Path) (cue_sources : gset Path)
    : gset Path :=
  let cue_data := run_cueparse cue_path in
  if negb (is_single_file cue_data) then cue_sources
  else
    foldl
      (λ cue_sources ref_file,
         match find_audio_for_cue fs (PathOps.parent cue_path) ref_file with
         | Some audio_path => {[ resolve audio_path ]} ∪ cue_sources
         | None => cue_sources
         end)
      cue_sources
      (default [] (cue_data ≫= Cue.files)).

Definition first_pass (fs : FS) (source_dir : Path) : gset Path :=
  foldl (λ cue_sources cue_path, claim_refs fs cue_path cue_sources)
        ∅ (Os.rglob_cue fs source_dir).

(** Second pass, [# Process CUE files]: the body of the loop over the
    file names of one directory. *)
Definition convert_cue (source_dir root : Path) (filename : string) : M unit :=
  if Py.endswith (Py.lower filename) ".cue" then
    let cue_path := root // filename in
    relative ← St.lift (PathOps.relative_to cue_path (PathOps.parent source_dir));
    let dest_subdir := PathOps.join DEST_DIR (PathOps.parent relative) in
    let cue_data := run_cueparse cue_path in
    if is_single_file cue_data then
      St.print ("[CUE] " +:+ PathOps.to_str relative) ;;
      process_cue cue_path dest_subdir ;;
      mret ()
    else mret ()
  else mret ().

(** Second pass, [# Process standalone audio files]: the body of the
    loop over the file names of one directory. *)
Definition convert_standalone (source_dir root : Path) (cue_sources : gset Path)
    (filename : string) : M unit :=
  let source_path := root // filename in
  match get_bitrate (PathOps.suffix source_path) with
  | None => mret ()
  | Some bitrate =>
      (* Skip if this file is handled by a CUE *)
      if decide (resolve source_path ∈ cue_sources) then mret ()
      else
        relative ← St.lift (PathOps.relative_to source_path (PathOps.parent source_dir));
        opus ← St.lift (PathOps.with_suffix relative ".opus");
        let dest_path := PathOps.join DEST_DIR opus in
        present ← St.gets (λ fs, Os.exists_ fs dest_path);
        if (present : bool) then mret ()
        else
          St.print ("[" +:+ bitrate +:+ "] " +:+ PathOps.to_str relative) ;;
          St.update (Os.makedirs (PathOps.parent dest_path)) ;;
          ok ← run_opusencode source_path dest_path bitrate None None [];
          if (ok : bool) then
            run_covercp source_path dest_path ;;
            run_coverfix dest_path
          else mret ()
  end.

Definition rule : string := "--------------------------------------------------".

(** [convert_directory(source_dir)] *)
Definition convert_directory (source_dir : string) : M unit :=
  let source_dir := resolve (PathOps.of_str source_dir) in
  valid ← St.gets (λ fs, Os.exists_ fs source_dir && Os.is_dir fs source_dir);
  if negb valid then
    St.print ("Error: Invalid directory: " +:+ PathOps.to_str source_dir)
  else
    St.print ("Source: " +:+ PathOps.to_str source_dir) ;;
    St.print ("Target: " +:+ PathOps.to_str DEST_DIR) ;;
    St.print rule ;;
    (* First pass: identify CUE-referenced files *)
    cue_sources ← St.gets (λ fs, first_pass fs source_dir);
    (* Second pass: process files *)
    listing ← St.gets (λ fs, Os.walk fs source_dir);
    St.for_each listing (λ '(root, files),
      St.for_each files (convert_cue source_dir root) ;;
      St.for_each files (convert_standalone source_dir root cue_sources)) ;;
    St.print rule.

(** ** The specification's vocabulary *)

(** The name of a track's output file, its transcode call and its
    progress line, as [process_cue] computes them. *)
Definition out_name (track : Cue.Track) : string :=
  let num := default "00" (Cue.number track) in
  let title := default ("Track " +:+ num) (Cue.title track) in
  num +:+ " - " +:+ sanitize_filename title +:+ ".opus".

Definition track_call (cue_data : Cue.Data) (source_audio : Path)
    (bitrate : string) (dest_subdir : Path) (total : nat) (track : Cue.Track)
    : EncodeCall :=
  let num := default "00" (Cue.number track) in
  let title := default ("Track " +:+ num) (Cue.title track) in
  {| enc_input := source_audio;
     enc_output := dest_subdir // out_name track;
     enc_bitrate := bitrate;
     enc_start := Some (default (Int 0) (Cue.start track));
     enc_duration := Cue.duration track;
     enc_meta :=
       filter (λ kv, kv.2 ≠ "")
         [("title", title);
          ("artist", default "" (Cue.artist track));
          ("album", default "" (Cue.album cue_data));
          ("track", num +:+ "/" +:+ pretty total);
          ("date", default "" (Cue.date cue_data));
          ("genre", default "" (Cue.genre cue_data));
          ("disc", default "" (Cue.disc cue_data))] |}.

Definition track_line (total : nat) (track : Cue.Track) : string :=
  let num := default "00" (Cue.number track) in
  let title := default ("Track " +:+ num) (Cue.title track) in
  "    [" +:+ num +:+ "/" +:+ pretty total +:+ "] " +:+ title.

(** The splitter's preconditions, in the order the specification
    lists them, and the first one a cue does not meet. *)
Inductive Precondition : Type :=
| CueParses | SingleFileLayout | TrackPresent | FilenamePresent
| SourceResolves | KnownBitrateClass.

Definition first_unmet (fs : FS) (cue_path : Path) : option Precondition :=
  match run_cueparse cue_path with
  | None => Some CueParses
  | Some d =>
      if negb (Cue.truthy d) then Some CueParses
      else if negb (default false (Cue.single_file d)) then Some SingleFileLayout
      else if bool_decide (default [] (Cue.tracks d) = []) then Some TrackPresent
      else match default [] (Cue.files d) with
           | [] => Some FilenamePresent
           | ref :: _ =>
               match find_audio_for_cue fs (PathOps.parent cue_path) ref with
               | None => Some SourceResolves
               | Some source =>
                   match get_bitrate (PathOps.suffix source) with
                   | Some _ => None
                   | None => Some KnownBitrateClass
                   end
               end
           end
  end.

(** The destinations of a walk: for each cue that meets the
    preconditions its output directory and one file per track, and
    for each file with a bitrate class that no cue has claimed its
    [.opus] counterpart under the destination root. *)
Definition cue_destinations (fs : FS) (source_dir root : Path) (filename : string)
    : list Path :=
  let cue_path := root // filename in
  if Py.endswith (Py.lower filename) ".cue" then
    match PathOps.relative_to cue_path (PathOps.parent source_dir),
          first_unmet fs cue_path with
    | Py.Ok relative, None =>
        let dest_subdir := PathOps.join DEST_DIR (PathOps.parent relative) in
        dest_subdir ::
          ((λ t, dest_subdir // out_name t)
             <$> default [] (run_cueparse cue_path ≫= Cue.tracks))
    | _, _ => []
    end
  else [].

Definition standalone_destinations (source_dir root : Path)
    (cue_sources : gset Path) (filename : string) : list Path :=
  let source_path := root // filename in
  match get_bitrate (PathOps.suffix source_path) with
  | Some _ =>
      if decide (resolve source_path ∈ cue_sources) then []
      else
        match relative ← PathOps.relative_to source_path (PathOps.parent source_dir);
              PathOps.with_suffix relative ".opus" with
        | Py.Ok opus => [PathOps.join DEST_DIR opus]
        | Py.Raise _ => []
        end
  | None => []
  end.

Definition destinations (fs : FS) (source_dir : string) : list Path :=
  let source_dir := resolve (PathOps.of_str source_dir) in
  let cue_sources := first_pass fs source_dir in
  '(root, files) ← Os.walk fs source_dir;
  (files ≫= cue_destinations fs source_dir root)
    ++ (files ≫= standalone_destinations source_dir root cue_sources).

End WithCollaborators.

(** An event that only prints: neither a transcode nor a cover
    operation. *)
Definition is_print (e : Event) : bool :=
  match e with
  | Stdout _ => true
  | _ => false
  end.

End Opusconv.

(** A computation that writes nothing from [w]: whatever it returns, the
    file system is as before and it has only printed. *)
Definition quiet {A} (m : M A) (w : World) : Prop :=
  ∃ r log, m w = (r, {| fs := fs w; trace := trace w ++ log |})
           ∧ forallb Opusconv.is_print log = true.

(** A computation that spares the existing path [d] from [w]: [d] still
    exists afterwards and no transcode was run with [d] as its output. *)
Definition spares {A} (d : Path) (m : M A) (w : World) : Prop :=
  ∃ r w' log, m w = (r, w')
    ∧ Os.exists_ (fs w') d = true
    ∧ trace w' = trace w ++ log
    ∧ ∀ c, Opusencode c ∈ log → enc_output c ≠ d.

(** A computation all of whose events from [w] satisfy [P]. *)
Definition emits {A} (P : Event → Prop) (m : M A) (w : World) : Prop :=
  ∃ r w' log, m w = (r, w') ∧ trace w' = trace w ++ log ∧ Forall P log.

(** Whole-file transcodes are the calls without a start offset.  None
    of them reads a source in [claimed]. *)
Definition standalone_outside {collab : Collaborators} (claimed : gset Path)
    (e : Event) : Prop :=
  match e with
  | Opusencode c => enc_start c = None → resolve (enc_input c) ∉ claimed
  | _ => True
  end.

(** Unfold one layer of the state monad. *)
Ltac run_step :=
  unfold mbind, mret, M_bind, M_ret, St.gets, St.emit, St.print, St.update,
    St.lift; simpl.

(* ===================================================================== *)
(** * Sample inputs                                                       *)
(* ===================================================================== *)

Module Fixtures.
Import Mutagen.

(** Picture blocks as they are stored, base64 of the FLAC layout. *)

(** role 4 (back cover), image/png, empty description *)
Definition back_cover_b64 : string :=
  "AAAABAAAAAlpbWFnZS9wbmcAAAAAAAAAAAAAAAAAAAAAAAAAAAAAAAiJUE5HDQoaCg==".
(** role 3 (front cover), image/jpeg, description "scan" *)
Definition front_scan_b64 : string :=
  "AAAAAwAAAAppbWFnZS9qcGVnAAAABHNjYW4AAAAAAAAAAAAAAAAAAAAAAAAABP/Y/+A=".

Definition png_magic : list byte := [x89; x50; x4e; x47; x0d; x0a; x1a; x0a].
Definition jpeg_head : list byte := [xff; xd8; xff; xe0].

Definition back_cover : Picture :=
  {| type := 4; mime := "image/png"; desc := ""; width := 0; height := 0;
     depth := 0; colors := 0; data := png_magic |}.
Definition front_scan : Picture :=
  {| type := 3; mime := "image/jpeg"; desc := "scan"; width := 0; height := 0;
     depth := 0; colors := 0; data := jpeg_head |}.

(** An Opus file with a front and a back cover, one with a front cover
    only, one without a picture field. *)
Definition two_covers : VComment :=
  {[ "metadata_block_picture" := [front_scan_b64; back_cover_b64];
     "title" := ["Intro"] ]}.
Definition one_cover : VComment :=
  {[ "metadata_block_picture" := [front_scan_b64]; "title" := ["Intro"] ]}.
Definition no_cover : VComment := {[ "title" := ["Intro"] ]}.

Definition disk : Disk :=
  {[ "two.opus" := two_covers; "one.opus" := one_cover; "none.opus" := no_cover ]}.

(** Source files for the extractor: a FLAC with two pictures, an MP3
    with an attached-picture frame behind a text frame, an M4A with a
    cover atom, an Ogg file without cover, a file that cannot be
    read. *)
Definition flac_audio : Covercp.Audio :=
  {| Covercp.pictures := Some [front_scan; back_cover];
     Covercp.tags := Some (Some [("title", Covercp.Values [Covercp.Text "Intro"])]) |}.
Definition mp3_audio : Covercp.Audio :=
  {| Covercp.pictures := None;
     Covercp.tags := Some (Some [("TIT2", Covercp.Frame None);
                                 ("APIC:cover", Covercp.Frame (Some jpeg_head));
                                 ("APIC:back", Covercp.Frame (Some png_magic))]) |}.
Definition m4a_audio : Covercp.Audio :=
  {| Covercp.pictures := None;
     Covercp.tags := Some (Some [("aART", Covercp.Values [Covercp.Text "Band"]);
                                 ("covr", Covercp.Values [Covercp.Cover png_magic])]) |}.
Definition ogg_audio : Covercp.Audio :=
  {| Covercp.pictures := None;
     Covercp.tags := Some (Some [("title", Covercp.Values [Covercp.Text "Intro"])]) |}.

Definition File (source_path : string) : Py.result (option Covercp.Audio) :=
  if decide (source_path = "a.flac") then Py.Ok (Some flac_audio)
  else if decide (source_path = "a.mp3") then Py.Ok (Some mp3_audio)
  else if decide (source_path = "a.m4a") then Py.Ok (Some m4a_audio)
  else if decide (source_path = "a.ogg") then Py.Ok (Some ogg_audio)
  else if decide (source_path = "a.txt") then Py.Ok None
  else Py.Raise "can't sync to MPEG frame".

(** A two-track single-file cue sheet referring to [album.flac]. *)
Definition album_cue : Cue.Data :=
  {| Cue.single_file := Some true;
     Cue.tracks := Some
       [ {| Cue.number := Some "01"; Cue.title := Some "Intro";
            Cue.artist := None; Cue.start := Some (Int 0);
            Cue.duration := Some (Float "12.5") |};
         {| Cue.number := Some "02"; Cue.title := Some "My Song: Pt. 1/2";
            Cue.artist := Some "Band"; Cue.start := Some (Float "12.5");
            Cue.duration := None |} ];
     Cue.files := Some ["album.flac"];
     Cue.album := Some "Album"; Cue.date := None; Cue.genre := None;
     Cue.disc := None |}.


(** Collaborators for the samples: the cue parser prints the sheet
    registered for a path (here: the path itself stands for the JSON
    text), the transcoder fails on the listed outputs, no symbolic
    links. *)
Definition collaborators (cues : list (string * Cue.Data)) (failing : list Path)
    : Collaborators :=
  {| cueparse_py p :=
       if bool_decide (PathOps.to_str p ∈ cues.*1)
       then (0%Z, PathOps.to_str p) else (1%Z, "");
     json_loads s :=
       match list_find (λ kv, kv.1 = s) cues with
       | Some (_, (_, d)) => Py.Ok d
       | None => Py.Raise "JSONDecodeError"
       end;
     opusencode_py c fs := if bool_decide (enc_output c ∈ failing) then 1%Z else 0%Z;
     resolve p := p |}.

Definition P (s : string) : Path := PathOps.of_str s.

(** [album.CUE] next to [album.flac]. *)
Definition upper_tree : FS :=
  {| fs_files := [P "/music/album/album.CUE"; P "/music/album/album.flac"];
     fs_dirs := [] |}.
Definition upper_world : Collaborators :=
  collaborators [("/music/album/album.CUE", album_cue)] [].

(** [album.cue] next to [album.flac], and a loose [x.mp3]. *)
Definition lower_tree : FS :=
  {| fs_files := [P "/music/album/album.cue"; P "/music/album/album.flac";
                  P "/music/album/x.mp3"];
     fs_dirs := [] |}.
Definition lower_world : Collaborators :=
  collaborators [("/music/album/album.cue", album_cue)] [].

(** The same tree after a complete first run. *)
Definition converted_tree : FS :=
  {| fs_files := [P "/music/album/album.cue"; P "/music/album/album.flac";
                  P "/music/album/x.mp3";
                  P "/home/alice/opus/music/album/01 - Intro.opus";
                  P "/home/alice/opus/music/album/02 - My Song_ Pt. 1_2.opus";
                  P "/home/alice/opus/music/album/x.opus"];
     fs_dirs := [P "/home/alice/opus/music/album"] |}.

(** A cue that refers to [track.wav] where only [track.flac] exists. *)
Definition flac_only_tree : FS :=
  {| fs_files := [P "/music/live/live.cue"; P "/music/live/track.flac"];
     fs_dirs := [] |}.

End Fixtures.

(* ===================================================================== *)
(** * Vocabulary for runs of the walker                                   *)
(* ===================================================================== *)

(** A computation that from [w] gives events and a file system related
    to the file system of [w] by [Q]. *)
Definition logs {A} (Q : FS → list Event → FS → Prop) (m : M A) (w : World) : Prop :=
  ∃ r w' log, m w = (r, w') ∧ trace w' = trace w ++ log ∧ Q (fs w) log (fs w').

(** A run from one file system to another, with the events it leaves:
    lines are printed, directories are made, and every transcode is
    started on an output that does not exist at that moment; one that
    fails leaves the file system as it is and is followed by no cover
    operation, one that returns 0 leaves its output and is followed by
    the cover copy from its input to its output and the cover refresh
    of its output. *)
Inductive run {collab : Collaborators} : FS → list Event → FS → Prop :=
| run_nil fs0 : run fs0 [] fs0
| run_print fs0 line log fs' :
    run fs0 log fs' → run fs0 (Stdout line :: log) fs'
| run_mkdir fs0 p fs1 log fs' :
    Os.makedirs p fs0 = Py.Ok fs1 → run fs1 log fs' → run fs0 log fs'
| run_failed fs0 c log fs' :
    Os.exists_ fs0 (enc_output c) = false →
    opusencode_py c fs0 ≠ 0%Z →
    run fs0 log fs' →
    run fs0 (Opusencode c :: log) fs'
| run_done fs0 c log fs' :
    Os.exists_ fs0 (enc_output c) = false →
    opusencode_py c fs0 = 0%Z →
    run (Os.create_file (enc_output c) fs0) log fs' →
    run fs0 (Opusencode c :: Covercp (enc_input c) (enc_output c)
               :: Coverfix (enc_output c) :: log) fs'.

(** What every transcode call of a walk satisfies: the bitrate is the
    class of the input's extension, the output's suffix is [.opus], no
    metadata value is empty, and a call without start offset (a whole
    file) has no duration and no metadata and writes below the
    destination root. *)
Definition call_ok (e : Event) : Prop :=
  match e with
  | Opusencode c =>
      Opusconv.get_bitrate (PathOps.suffix (enc_input c)) = Some (enc_bitrate c)
      ∧ PathOps.suffix (enc_output c) = ".opus"
      ∧ Forall (λ kv, kv.2 ≠ EmptyString) (enc_meta c)
      ∧ (enc_start c = None →
         enc_duration c = None ∧ enc_meta c = []
         ∧ PathOps.is_under Opusconv.DEST_DIR (enc_output c) = true)
  | _ => True
  end.



(** A source is handled for a destination when the destination exists
    or a transcode from the source to it has been run. *)
Definition handled (source d : Path) (w : World) : Prop :=
  Os.exists_ (fs w) d = true
  ∨ ∃ c, Opusencode c ∈ trace w ∧ enc_input c = source ∧ enc_output c = d.

(* ===================================================================== *)
(** * The scripts' entry points                                           *)
(* ===================================================================== *)

(** A line a script writes, with the stream it goes to. *)
Inductive Stream : Type := ToStdout | ToStderr.

Module CovercpScript.
Import Mutagen Covercp.

(** The block [embed_cover] builds for image bytes it takes to be of
    the given MIME type. *)
Definition front_cover (mime_type : string) (image_data : list byte) : Picture :=
  {| type := 3; mime := mime_type; desc := "Front Cover"; width := 0; height := 0;
     depth := 0; colors := 0; data := image_data |}.

(** [# Guess MIME type from magic bytes] *)
Definition guess_mime (image_data : list byte) : string :=
  if decide (take 3 image_data = [xff; xd8; xff]) then "image/jpeg"
  else if decide (take 8 image_data = [x89; x50; x4e; x47; x0d; x0a; x1a; x0a])
  then "image/png"
  else "image/jpeg".

Section WithLibraries.
Context {codec : Codec}.
Variable File : string → Py.result (option Audio).

(** [main()] with [sys.argv = prog :: args]: the exit status, the
    lines written and the disk afterwards. *)
Definition main (prog : string) (args : list string) (disk : Disk)
    : Z * list (Stream * string) * Disk :=
  match args with
  | [source; dest] =>
      let '(cover_data, warnings) := extract_cover File source in
      let warnings := (ToStderr,.) <$> warnings in
      match cover_data with
      | None =>
          (* Not an error, just no cover *)
          (0%Z, warnings ++ [(ToStderr, "No cover found in: " +:+ source)], disk)
      | Some cover_data =>
          let '(ok, disk, warnings') := embed_cover dest cover_data disk in
          let warnings := warnings ++ ((ToStderr,.) <$> warnings') in
          if (ok : bool) then
            (0%Z,
             warnings ++ [(ToStdout, "Cover copied: " +:+ source +:+ " -> " +:+ dest)],
             disk)
          else (1%Z, warnings, disk)
      end
  | _ => (1%Z, [(ToStderr, "Usage: " +:+ prog +:+ " <source> <dest.opus>")], disk)
  end.

End WithLibraries.
End CovercpScript.

Module CoverfixScript.
Import Mutagen Coverfix.

(** [os.path.join(a, b)] on POSIX. *)
Definition path_join (a b : string) : string :=
  if Py.startswith b "/" then b
  else if bool_decide (a = "") || Py.endswith a "/" then a +:+ b
  else a +:+ "/" +:+ b.

(** The order [sorted] puts strings in. *)
Definition str_le (s1 s2 : string) : Prop := String.leb s1 s2 = true.

Global Instance str_le_dec s1 s2 : Decision (str_le s1 s2).
Proof. unfold str_le. apply _. Defined.

(** The line [main] prints for a file and its status. *)
Definition report (filepath status : string) : string :=
  if decide (status = "skip") then "[Skip] No cover: " +:+ filepath
  else if decide (status = "fixed") then
    "[Fixed] Type corrected & refreshed: " +:+ filepath
  else if decide (status = "refreshed") then "[OK] Refreshed: " +:+ filepath
  else "[Error] " +:+ filepath +:+ ": " +:+ status.

Section WithSystem.
Context {codec : Codec}.
(** [os.path.isdir], [glob.glob(pattern)] and
    [glob.glob(pattern, recursive=True)] *)
Variable isdir : string → bool.
Variable glob : string → list string.
Variable rglob : string → list string.

(** [for target in targets], what each target adds to [files]. *)
Definition expand (target : string) : list string :=
  if isdir target then
    (* If target is a directory, recurse for .opus files *)
    let search_pattern := path_join (path_join target "**") "*.opus" in
    rglob search_pattern
  else
    (* Otherwise treat as file path or glob pattern *)
    match glob target with
    | [] => [target]
    | expanded => expanded
    end.

(** The files [main] goes through, in its order: duplicates removed,
    sorted. *)
Definition listed (args : list string) : list string :=
  let targets := match args with [] => ["."] | _ => args end in
  merge_sort str_le (remove_dups (targets ≫= expand)).

(** The body of [for filepath in files], with the lines printed so far
    and the disk. *)
Definition visit (acc : list string * Disk) (filepath : string) : list string * Disk :=
  let '(lines, disk) := acc in
  (* Skip directories if they accidentally got into the list via glob *)
  if isdir filepath then (lines, disk)
  else
    let '(status, disk) := refresh_cover filepath disk in
    (lines ++ [report filepath status], disk).

(** [main()] with [sys.argv[1:] = args]: the exit status, the lines
    printed and the disk afterwards. *)
Definition main (args : list string) (disk : Disk) : Z * list string * Disk :=
  match listed args with
  | [] => (0%Z, ["No Opus files found."], disk)
  | files =>
      let '(lines, disk) := foldl visit ([], disk) files in
      (0%Z, lines, disk)
  end.

End WithSystem.
End CoverfixScript.

Module OpusconvScript.
Import Opusconv.

Section WithSystem.
Context {collab : Collaborators}.
(** [glob.glob(pattern)] on the directory tree. *)
Variable glob : FS → string → list string.

(** [glob.glob(arg) or [arg]] for each argument. *)
Definition expand (fs : FS) (args : list string) : list string :=
  arg ← args;
  match glob fs arg with
  | [] => [arg]
  | found => found
  end.

(** [str(Path(path).resolve())] *)
Definition resolved (path : string) : string :=
  PathOps.to_str (resolve (PathOps.of_str path)).

(** The loop that expands globs and deduplicates, with [source_dirs]
    and [seen]. *)
Definition select (acc : list string * gset string) (path : string)
    : list string * gset string :=
  let '(source_dirs, seen) := acc in
  if decide (resolved path ∈ seen) then (source_dirs, seen)
  else (source_dirs ++ [path], {[ resolved path ]} ∪ seen).

Definition source_dirs (fs : FS) (args : list string) : list string :=
  (foldl select ([], ∅) (expand fs args)).1.

Definition double_rule : string := "==================================================".

(** [main()] with [sys.argv = prog :: args]; the result is the exit
    status. *)
Definition main (prog : string) (args : list string) : M Z :=
  match args with
  | [] =>
      St.print ("Usage: " +:+ prog +:+ " <source_dir> [source_dir2 ...]") ;;
      St.print "" ;;
      St.print ("Destination: " +:+ PathOps.to_str DEST_DIR) ;;
      St.print "" ;;
      St.print "Helper scripts required in same directory:" ;;
      St.print "  - opusencode.py  (FFmpeg wrapper)" ;;
      St.print "  - cueparse.py    (CUE parser)" ;;
      St.print "  - covercp.py     (Cover copier)" ;;
      St.print "  - coverfix.py    (Cover refresher)" ;;
      mret 1%Z
  | _ =>
      (* Expand globs and deduplicate *)
      source_dirs ← St.gets (λ fs, source_dirs fs args);
      St.print ("Processing " +:+ pretty (length source_dirs) +:+ " directory(s)...") ;;
      St.print double_rule ;;
      St.for_each source_dirs (λ source_dir,
        convert_directory source_dir ;;
        St.print "") ;;
      St.print double_rule ;;
      St.print "Done." ;;
      mret 0%Z
  end.

End WithSystem.
End OpusconvScript.

(* ===================================================================== *)
(** * The splitter against an outside that can fail                       *)
(* ===================================================================== *)

(** [opusconv.py]'s functions from [run_script] to [process_cue] once
    more, this time with every call that leaves the interpreter able
    to raise: [Path.exists] lets the errors of [stat] through that are
    not about a missing file, [subprocess.run] can fail to start the
    child and, with [text=True], to decode what the child wrote,
    [os.makedirs] and [print] raise the [OSError] of their system
    calls.  None of these is caught in [opusconv.py]. *)
Module Cuesplit.

(** What a child process leaves when it ends: its exit status and the
    bytes it wrote to its two pipes. *)
Record Exit : Type := mkExit {
  exit_code : Z;
  exit_out : string;
  exit_err : string;
}.

(** [subprocess.CompletedProcess], the pipes decoded. *)
Record Completed : Type := mkCompleted {
  returncode : Z;
  stdout : string;
  stderr : string;
}.

(** The outside of the interpreter.  [S] is its state: the file system
    and whatever else the helper scripts depend on. *)
Class System (S : Type) : Type := {
  (** [p.exists()]: before Python 3.14 pathlib answers [False] where
      [stat] finds nothing and lets every other [OSError] through *)
  path_exists : Path → S → Py.result bool;
  (** [os.makedirs(p, exist_ok=True)], with the state it leaves, also
      when it raises after it has made some of the directories *)
  os_makedirs : Path → S → Py.result unit * S;
  (** [print(line)]: the line goes to standard output, which is no
      part of the state, or the write raises *)
  write_line : string → S → Py.result unit;
  (** [subprocess.run] of [cueparse.py] on a cue sheet: the exception
      of a child that cannot be started, or what the child leaves; the
      parser reads and writes nothing but its pipes *)
  spawn_cueparse : Path → S → Py.result Exit;
  (** the same for [opusencode.py], [covercp.py] and [coverfix.py],
      with the state after the child *)
  spawn_opusencode : EncodeCall → S → Py.result Exit * S;
  spawn_covercp : Path → Path → S → Py.result Exit * S;
  spawn_coverfix : Path → S → Py.result Exit * S;
  (** the bytes of a pipe in the locale's encoding, as [text=True]
      decodes them; raises [UnicodeDecodeError] *)
  decode : string → Py.result string;
  (** [json.loads]; raises [JSONDecodeError] *)
  loads : string → Py.result Cue.Data;
}.

(** The state of the outside, and what was done so far: the helpers
    called, each recorded when [subprocess.run] is called for it, and
    the lines printed. *)
Record Session (S : Type) : Type := mkSession { state : S; log : list Event }.
Arguments mkSession {S} state log.
Arguments state {S} s.
Arguments log {S} s.

Definition Prog (S A : Type) : Type := Session S → Py.result A * Session S.

Global Instance Prog_ret {S} : MRet (Prog S) := λ A v w, (Py.Ok v, w).
Global Instance Prog_bind {S} : MBind (Prog S) := λ A B k m w,
  match m w with
  | (Py.Ok v, w') => k v w'
  | (Py.Raise e, w') => (Py.Raise e, w')
  end.

(** [for x in l: body(x)] *)
Fixpoint for_each {S A} (l : list A) (body : A → Prog S unit) : Prog S unit :=
  match l with
  | [] => mret ()
  | x :: l' => body x ;; for_each l' body
  end.

Section WithSystem.
Context {State : Type} {system : System State}.

Definition ask {A} (f : State → Py.result A) : Prog State A := λ w, (f (state w), w).
Definition emit (e : Event) : Prog State unit :=
  λ w, (Py.Ok (), {| state := state w; log := log w ++ [e] |}).
Definition act {A} (f : State → Py.result A * State) : Prog State A := λ w,
  let '(r, s') := f (state w) in
  (r, {| state := s'; log := log w |}).
Definition print (line : string) : Prog State unit :=
  ask (write_line line) ;; emit (Stdout line).

(** [subprocess.run(cmd, capture_output=True, text=True)] once the
    child has ended: standard output is decoded, then standard
    error. *)
Definition completed (x : Exit) : Py.result Completed :=
  out ← decode (exit_out x);
  err ← decode (exit_err x);
  Py.Ok {| returncode := exit_code x; stdout := out; stderr := err |}.

(** [run_script(name, args)]; [spawn] stands for the helper, as it is
    found next to the script or on the search path, started on its
    arguments. *)
Definition run_script (spawn : State → Py.result Exit * State)
    : Prog State Completed := λ w,
  let '(child, s') := spawn (state w) in
  (child ≫= completed, {| state := s'; log := log w |}).

(** [run_cueparse(cue_path)] *)
Definition run_cueparse (cue_path : Path) : Prog State (option Cue.Data) :=
  result ← run_script (λ s, (spawn_cueparse cue_path s, s));
  if decide (returncode result ≠ 0%Z) then mret None
  else match loads (stdout result) with
       | Py.Ok d => mret (Some d)
       | Py.Raise _ => mret None
       end.

(** [run_opusencode(input_path, output_path, bitrate, start, duration,
    metadata)]: metadata with an empty value is not passed on. *)
Definition run_opusencode (input_path output_path : Path) (bitrate : string)
    (start duration : option Number) (metadata : list (string * string))
    : Prog State bool :=
  let call := {| enc_input := input_path; enc_output := output_path;
                 enc_bitrate := bitrate; enc_start := start;
                 enc_duration := duration;
                 enc_meta := filter (λ kv, kv.2 ≠ "") metadata |} in
  emit (Opusencode call) ;;
  result ← run_script (spawn_opusencode call);
  mret (bool_decide (returncode result = 0%Z)).

(** [run_covercp(source, dest)] *)
Definition run_covercp (source dest : Path) : Prog State bool :=
  emit (Covercp source dest) ;;
  result ← run_script (spawn_covercp source dest);
  mret (bool_decide (returncode result = 0%Z)).

(** [run_coverfix(dest)] *)
Definition run_coverfix (dest : Path) : Prog State bool :=
  emit (Coverfix dest) ;;
  result ← run_script (spawn_coverfix dest);
  mret (bool_decide (returncode result = 0%Z)).

(** [find_audio_for_cue]: the loop over the extensions. *)
Fixpoint find_audio_loop (cue_dir : Path) (ref_stem : string) (exts : list string)
    (s : State) : Py.result (option Path) :=
  match exts with
  | [] => Py.Ok None
  | ext :: rest =>
      let candidate := cue_dir // (ref_stem +:+ ext) in
      present ← path_exists candidate s;
      if (present : bool) then Py.Ok (Some candidate)
      else find_audio_loop cue_dir ref_stem rest s
  end.

(** [find_audio_for_cue(cue_dir, ref_filename)] *)
Definition find_audio_for_cue (cue_dir : Path) (ref_filename : string) (s : State)
    : Py.result (option Path) :=
  let ref_path := cue_dir // ref_filename in
  present ← path_exists ref_path s;
  if (present : bool) then Py.Ok (Some ref_path)
  else
    let ref_stem := PathOps.stem (PathOps.of_str ref_filename) in
    find_audio_loop cue_dir ref_stem Opusconv.cue_extensions s.

(** [process_cue]: the body of [for track in cue_data['tracks']]. *)
Definition process_track (cue_data : Cue.Data) (source_audio : Path)
    (bitrate : string) (dest_subdir : Path) (total : nat) (track : Cue.Track)
    : Prog State unit :=
  let num := default "00" (Cue.number track) in
  let title := default ("Track " +:+ num) (Cue.title track) in
  let safe_title := Opusconv.sanitize_filename title in
  let out_name := num +:+ " - " +:+ safe_title +:+ ".opus" in
  let out_path := dest_subdir // out_name in
  present ← ask (path_exists out_path);
  if (present : bool) then mret ()
  else
    print ("    [" +:+ num +:+ "/" +:+ pretty total +:+ "] " +:+ title) ;;
    let metadata :=
      [("title", title);
       ("artist", default "" (Cue.artist track));
       ("album", default "" (Cue.album cue_data));
       ("track", num +:+ "/" +:+ pretty total);
       ("date", default "" (Cue.date cue_data));
       ("genre", default "" (Cue.genre cue_data));
       ("disc", default "" (Cue.disc cue_data))] in
    let start := default (Int 0) (Cue.start track) in
    let duration := Cue.duration track in
    ok ← run_opusencode source_audio out_path bitrate (Some start) duration metadata;
    if (ok : bool) then
      run_covercp source_audio out_path ;;
      run_coverfix out_path ;;
      mret ()
    else mret ().

(** [process_cue(cue_path, dest_subdir)] *)
Definition process_cue (cue_path dest_subdir : Path) : Prog State bool :=
  cue_data ← run_cueparse cue_path;
  match cue_data with
  | None => mret false
  | Some cue_data =>
      if negb (Cue.truthy cue_data) || negb (default false (Cue.single_file cue_data))
      then mret false
      else
        match Cue.tracks cue_data with
        | None | Some [] => mret false
        | Some tracks =>
            (* Find the source audio file *)
            match Cue.files cue_data with
            | None | Some [] => mret false
            | Some (file0 :: _) =>
                source_audio ← ask (find_audio_for_cue (PathOps.parent cue_path) file0);
                match source_audio with
                | None =>
                    print "  [Error] Audio file not found for CUE" ;;
                    mret false
                | Some source_audio =>
                    match Opusconv.get_bitrate (PathOps.suffix source_audio) with
                    | None => mret false
                    | Some bitrate =>
                        act (os_makedirs dest_subdir) ;;
                        let total := length tracks in
                        for_each tracks
                          (process_track cue_data source_audio bitrate
                             dest_subdir total) ;;
                        mret true
                    end
                end
            end
        end
  end.

(** ** The specification's vocabulary *)

(** What the cue parser gives for a cue sheet in state [s]. *)
Definition cue_sheet (cue_path : Path) (s : State) : Py.result (option Cue.Data) :=
  (run_cueparse cue_path {| state := s; log := [] |}).1.

(** The first of the splitter's preconditions that a cue does not
    meet in state [s]; a check that raises gives no answer. *)
Definition first_unmet (cue_path : Path) (s : State)
    : Py.result (option Opusconv.Precondition) :=
  parsed ← cue_sheet cue_path s;
  match parsed with
  | None => Py.Ok (Some Opusconv.CueParses)
  | Some d =>
      if negb (Cue.truthy d) then Py.Ok (Some Opusconv.CueParses)
      else if negb (default false (Cue.single_file d))
      then Py.Ok (Some Opusconv.SingleFileLayout)
      else if bool_decide (default [] (Cue.tracks d) = [])
      then Py.Ok (Some Opusconv.TrackPresent)
      else match default [] (Cue.files d) with
           | [] => Py.Ok (Some Opusconv.FilenamePresent)
           | ref :: _ =>
               found ← find_audio_for_cue (PathOps.parent cue_path) ref s;
               match found with
               | None => Py.Ok (Some Opusconv.SourceResolves)
               | Some source =>
                   match Opusconv.get_bitrate (PathOps.suffix source) with
                   | Some _ => Py.Ok None
                   | None => Py.Ok (Some Opusconv.KnownBitrateClass)
                   end
               end
           end
  end.

End WithSystem.

(** The paths [find_audio_for_cue]'s loop tries, in its order. *)
Definition candidates_of (cue_dir : Path) (ref_stem : string) (exts : list string)
    : list Path :=
  (λ ext, cue_dir // (ref_stem +:+ ext)) <$> exts.

(** A transcode, as opposed to a cover operation or a printed line. *)
Definition is_transcode (e : Event) : bool :=
  match e with
  | Opusencode _ => true
  | _ => false
  end.

(** The track number padded with zeros to two digits, as the
    specification words the output name. *)
Definition zero_padded (number : string) : string :=
  match number with
  | String d EmptyString => String "0" (String d EmptyString)
  | EmptyString => "00"
  | _ => number
  end.

End Cuesplit.

(** The outside in which every call returns: the collaborators of
    [Opusconv] seen as a system.  Nothing is in the way of a check, a
    line or a child, and what the children write is text. *)
Definition returning {collab : Collaborators} : Cuesplit.System FS :=
  {| Cuesplit.path_exists p fs := Py.Ok (Os.exists_ fs p);
     Cuesplit.os_makedirs p fs :=
       match Os.makedirs p fs with
       | Py.Ok fs' => (Py.Ok (), fs')
       | Py.Raise e => (Py.Raise e, fs)
       end;
     Cuesplit.write_line _ _ := Py.Ok ();
     Cuesplit.spawn_cueparse p _ :=
       Py.Ok {| Cuesplit.exit_code := (cueparse_py p).1;
                Cuesplit.exit_out := (cueparse_py p).2;
                Cuesplit.exit_err := "" |};
     Cuesplit.spawn_opusencode c fs :=
       (Py.Ok {| Cuesplit.exit_code := opusencode_py c fs; Cuesplit.exit_out := "";
                 Cuesplit.exit_err := "" |},
        if decide (opusencode_py c fs = 0%Z) then Os.create_file (enc_output c) fs
        else fs);
     Cuesplit.spawn_covercp _ _ fs :=
       (Py.Ok {| Cuesplit.exit_code := 0; Cuesplit.exit_out := "";
                 Cuesplit.exit_err := "" |}, fs);
     Cuesplit.spawn_coverfix _ fs :=
       (Py.Ok {| Cuesplit.exit_code := 0; Cuesplit.exit_out := "";
                 Cuesplit.exit_err := "" |}, fs);
     Cuesplit.decode := Py.Ok;
     Cuesplit.loads := json_loads |}.

(** A world of [Opusconv] as a session of [Cuesplit]. *)
Definition session_of (w : World) : Cuesplit.Session FS :=
  {| Cuesplit.state := fs w; Cuesplit.log := trace w |}.

Definition lifted {A} (rw : Py.result A * World)
    : Py.result A * Cuesplit.Session FS :=
  (rw.1, session_of rw.2).

(** Unfold one layer of the state monad of [Cuesplit]. *)
Ltac prog_step :=
  unfold Cuesplit.print;
  unfold mbind, mret, Cuesplit.Prog_bind, Cuesplit.Prog_ret, Cuesplit.ask,
    Cuesplit.emit, Cuesplit.act; simpl.

(** A sample outside: a POSIX file system over [FS] under a Python
    before 3.14, UTF-8 as the locale's encoding, helpers given by a
    table. *)
Module Posix.

Definition NAME_MAX : nat := 255.

(** [stat] walks the components from the top: a component longer than
    [NAME_MAX] bytes in an existing directory is [ENAMETOOLONG]; below
    a missing directory or a regular file there is nothing; [..]
    steps back.  A relative path starts at the top of the tree. *)
Fixpoint stat_walk (fs : FS) (anchored : bool) (cur rest : list string)
    : Py.result bool :=
  match rest with
  | [] => Py.Ok (Os.exists_ fs (mkPath anchored cur))
  | c :: rest' =>
      if negb (Os.is_dir fs (mkPath anchored cur)) then Py.Ok false
      else if decide (c = "..") then stat_walk fs anchored (removelast cur) rest'
      else if (NAME_MAX <? String.length c)%nat
      then Py.Raise "OSError: [Errno 36] File name too long"
      else stat_walk fs anchored (cur ++ [c]) rest'
  end.

Definition path_exists (p : Path) (fs : FS) : Py.result bool :=
  stat_walk fs (root p) [] (parts p).

(** Strict UTF-8: no stray or missing continuation byte, no overlong
    form, no surrogate, nothing above U+10FFFF. *)
Definition continuation (b : ascii) : bool :=
  let n := nat_of_ascii b in (128 <=? n)%nat && (n <=? 191)%nat.

Fixpoint utf8_valid (s : string) : bool :=
  match s with
  | EmptyString => true
  | String a s1 =>
      let x := nat_of_ascii a in
      if (x <? 128)%nat then utf8_valid s1
      else
        match s1 with
        | EmptyString => false
        | String b s2 =>
            let y := nat_of_ascii b in
            if (194 <=? x)%nat && (x <=? 223)%nat
            then continuation b && utf8_valid s2
            else
              match s2 with
              | EmptyString => false
              | String c s3 =>
                  if (224 <=? x)%nat && (x <=? 239)%nat
                  then continuation b && continuation c
                       && negb ((x =? 224)%nat && (y <? 160)%nat)
                       && negb ((x =? 237)%nat && (160 <=? y)%nat)
                       && utf8_valid s3
                  else
                    match s3 with
                    | EmptyString => false
                    | String d s4 =>
                        (240 <=? x)%nat && (x <=? 244)%nat
                        && continuation b && continuation c && continuation d
                        && negb ((x =? 240)%nat && (y <? 144)%nat)
                        && negb ((x =? 244)%nat && (144 <=? y)%nat)
                        && utf8_valid s4
                    end
              end
        end
  end.

(** Universal newlines: [\r\n] and [\r] become [\n]. *)
Fixpoint translate_newlines (s : string) : string :=
  match s with
  | EmptyString => EmptyString
  | String a s1 =>
      if decide (a = "013"%char) then
        match s1 with
        | String b s2 =>
            if decide (b = "010"%char) then String "010" (translate_newlines s2)
            else String "010" (translate_newlines s1)
        | EmptyString => String "010" EmptyString
        end
      else String a (translate_newlines s1)
  end.

Definition decode (bytes : string) : Py.result string :=
  if utf8_valid bytes then Py.Ok (translate_newlines bytes)
  else Py.Raise "UnicodeDecodeError: 'utf-8' codec can't decode".

Definition clean_exit (code : Z) : Cuesplit.Exit :=
  {| Cuesplit.exit_code := code; Cuesplit.exit_out := ""; Cuesplit.exit_err := "" |}.

(** The cue parser prints the sheet registered for a path (the path
    itself stands for the JSON text); the transcoder ends as [encoder]
    says and leaves its output when it exits with 0; the cover scripts
    exit with 0. *)
Definition system (cues : list (string * Cue.Data))
    (encoder : EncodeCall → FS → Cuesplit.Exit) : Cuesplit.System FS :=
  {| Cuesplit.path_exists := path_exists;
     Cuesplit.os_makedirs p fs :=
       match Os.makedirs p fs with
       | Py.Ok fs' => (Py.Ok (), fs')
       | Py.Raise e => (Py.Raise e, fs)
       end;
     Cuesplit.write_line _ _ := Py.Ok ();
     Cuesplit.spawn_cueparse p _ :=
       Py.Ok (if bool_decide (PathOps.to_str p ∈ cues.*1)
              then {| Cuesplit.exit_code := 0; Cuesplit.exit_out := PathOps.to_str p;
                      Cuesplit.exit_err := "" |}
              else clean_exit 1);
     Cuesplit.spawn_opusencode c fs :=
       let x := encoder c fs in
       (Py.Ok x,
        if decide (Cuesplit.exit_code x = 0%Z) then Os.create_file (enc_output c) fs
        else fs);
     Cuesplit.spawn_covercp _ _ fs := (Py.Ok (clean_exit 0), fs);
     Cuesplit.spawn_coverfix _ fs := (Py.Ok (clean_exit 0), fs);
     Cuesplit.decode := decode;
     Cuesplit.loads s :=
       match list_find (λ kv, kv.1 = s) cues with
       | Some (_, (_, d)) => Py.Ok d
       | None => Py.Raise "JSONDecodeError"
       end |}.

(** A transcoder that exits with 0, one that exits with 1 after a
    complaint in ASCII, and one that exits with 1 after naming a file
    in Latin-1 (the byte 0xE9). *)
Definition encoder_ok : EncodeCall → FS → Cuesplit.Exit := λ _ _, clean_exit 0.
Definition encoder_fails : EncodeCall → FS → Cuesplit.Exit := λ _ _,
  {| Cuesplit.exit_code := 1; Cuesplit.exit_out := "";
     Cuesplit.exit_err := "Error: ffmpeg failed" |}.



Definition song : Cue.Track :=
  {| Cue.number := Some "02"; Cue.title := Some "My Song: Pt. 1/2";
     Cue.artist := Some "Band"; Cue.start := Some (Float "12.5");
     Cue.duration := None |}.


(** A track whose number the sheet gives in one digit, and one whose
    title is wrapped in a no-break space and an ideographic space. *)
Definition unpadded : Cue.Track :=
  {| Cue.number := Some "3"; Cue.title := Some "x"; Cue.artist := None;
     Cue.start := None; Cue.duration := None |}.
Definition wrapped_title : string :=
  String "194" (String "160" ("Intro" +:+ String "227" (String "128" (String "128" "")))).

End Posix.

(** ** Further sample inputs *)

Module Samples.
Import Mutagen.

(** An Opus file whose second stored value holds no picture block. *)
Definition broken_cover : VComment :=
  {[ "metadata_block_picture" := [Fixtures.front_scan_b64; "!!!"];
     "title" := ["Intro"] ]}.

Definition broken_disk : Disk := {[ "bad.opus" := broken_cover ]}.

End Samples.

(* ===================================================================== *)
(** * Properties                                                          *)
(* ===================================================================== *)

(** The path model and the concrete codec on known values. *)
Example path_examples :
  PathOps.to_str (PathOps.of_str "/music/./album//disc1/") = "/music/album/disc1"
  ∧ PathOps.suffix (PathOps.of_str "a/track.01.FLAC") = ".FLAC"
  ∧ PathOps.stem (PathOps.of_str "a/track.01.FLAC") = "track.01"
  ∧ PathOps.suffix (PathOps.of_str ".hidden") = EmptyString
  ∧ PathOps.stem (PathOps.of_str "name.") = "name."
  ∧ PathOps.of_str "/music" // "sub/x.cue" = PathOps.of_str "/music/sub/x.cue"
  ∧ PathOps.of_str "/music" // "/abs/x.cue" = PathOps.of_str "/abs/x.cue".
Proof. vm_compute. repeat split. Qed.

Example wire_examples :
  Wire.b64encode (Wire.bytes_of_str "Man") = "TWFu"
  ∧ Wire.b64encode (Wire.bytes_of_str "light w") = "bGlnaHQgdw=="
  ∧ Wire.b64decode "bGlnaHQgd28=" = Py.Ok (Wire.bytes_of_str "light wo")
  ∧ Wire.b64decode "bGlnaHQgd28" = Py.Raise "Incorrect padding"
  ∧ Wire.b64encode (Wire.Picture_write Fixtures.back_cover) = Fixtures.back_cover_b64
  ∧ Wire.b64encode (Wire.Picture_write Fixtures.front_scan) = Fixtures.front_scan_b64
  ∧ Coverfix.decode_block (codec := Wire.codec) Fixtures.back_cover_b64
    = Py.Ok Fixtures.back_cover
  ∧ Coverfix.decode_block (codec := Wire.codec) Fixtures.front_scan_b64
    = Py.Ok Fixtures.front_scan.
Proof. vm_compute. repeat split. Qed.

(* ===================================================================== *)
(** * Properties: bitrate classes                                         *)
(* ===================================================================== *)

Section BitrateClass.

Lemma lower_char_idem c : Py.lower_char (Py.lower_char c) = Py.lower_char c.
Proof. by destruct c as [[] [] [] [] [] [] [] []]. Qed.

Lemma lower_idem s : Py.lower (Py.lower s) = Py.lower s.
Proof. induction s as [|c s IH]; simpl; [done|]. by rewrite lower_char_idem, IH. Qed.

(** C10.  Bitrate classification does not depend on the case of the
    extension: an extension and its lowercase form get the same
    class; [".FLAC"] is lossless (96k) and [".Mp3"] lossy (192k). *)
Theorem get_bitrate_case_insensitive :
  (∀ e, Opusconv.get_bitrate e = Opusconv.get_bitrate (Py.lower e))
  ∧ Opusconv.get_bitrate ".FLAC" = Some "96k"
  ∧ Opusconv.get_bitrate ".Mp3" = Some "192k".
Proof.
  split; [|split; vm_compute; reflexivity].
  intros e. unfold Opusconv.get_bitrate. by rewrite lower_idem.
Qed.

End BitrateClass.

(* ===================================================================== *)
(** * Properties: track file names                                        *)
(* ===================================================================== *)

Section TrackNames.

(** Strings as lists of characters. *)
Local Abbreviation chars := list_ascii_of_string.

Lemma chars_app s t : chars (s +:+ t) = chars s ++ chars t.
Proof. induction s as [|c s IH]; simpl; [done|]. by rewrite IH. Qed.

Lemma chars_rev_app s t : chars (String.rev_app s t) = reverse (chars s) ++ chars t.
Proof.
  revert t. induction s as [|c s IH]; intros t; simpl; [done|].
  rewrite IH, reverse_cons. simpl. by rewrite <-app_assoc.
Qed.

Lemma chars_rev s : chars (String.rev s) = reverse (chars s).
Proof. unfold String.rev. rewrite chars_rev_app. simpl. by rewrite app_nil_r. Qed.

Lemma chars_inj s t : chars s = chars t → s = t.
Proof.
  intros E. rewrite <-(string_of_list_ascii_of_string s),
    <-(string_of_list_ascii_of_string t). by rewrite E.
Qed.

Lemma append_String a s t : String a s +:+ t = String a (s +:+ t).
Proof. done. Qed.

Section Class.
Variable one : ascii → bool.
Variable two : ascii → ascii → bool.
Variable three : ascii → ascii → ascii → bool.

Local Abbreviation cut := (Py.lstrip_by one two three).
Local Abbreviation starts := (Py.starts_by one two three).

(** Cutting at the front removes a run of characters of the class
    (cutting that run leaves nothing) and stops where no such
    character begins. *)
Lemma lstrip_by_split s :
  ∃ l, s = l +:+ cut s ∧ Py.blank_by one two three l ∧ starts (cut s) = false.
Proof.
  assert (∀ n s, (String.length s < n)%nat →
            ∃ l, s = l +:+ cut s ∧ Py.blank_by one two three l
                 ∧ starts (cut s) = false)
    as Hall; [|apply (Hall (S (String.length s))); lia].
  clear s. induction n as [|n IH]; intros s Hlen; [lia|].
  destruct s as [|a s1]; [exists EmptyString; by repeat constructor|]. simpl in Hlen.
  destruct (one a) eqn:H1.
  { destruct (IH s1) as (l & E & Hl & Hs); [lia|].
    exists (String a l). simpl. rewrite H1.
    split; [by rewrite append_String, <-E|]. split; [by constructor|done]. }
  destruct s1 as [|b s2].
  { exists EmptyString. simpl. rewrite H1. simpl. rewrite H1.
    by repeat constructor. }
  simpl in Hlen. destruct (two a b) eqn:H2.
  { destruct (IH s2) as (l & E & Hl & Hs); [lia|].
    exists (String a (String b l)). simpl. rewrite H1, H2.
    split; [by rewrite !append_String, <-E|]. split; [by constructor|done]. }
  destruct s2 as [|c s3].
  { exists EmptyString. simpl. rewrite H1, H2. simpl. rewrite H1, H2.
    by repeat constructor. }
  simpl in Hlen. destruct (three a b c) eqn:H3.
  { destruct (IH s3) as (l & E & Hl & Hs); [lia|].
    exists (String a (String b (String c l))). simpl. rewrite H1, H2, H3.
    split; [by rewrite !append_String, <-E|]. split; [by constructor|done]. }
  exists EmptyString. simpl. rewrite H1, H2, H3. simpl. rewrite H1, H2, H3.
  by repeat constructor.
Qed.

Lemma blank_by_app x y :
  Py.blank_by one two three x → Py.blank_by one two three y →
  Py.blank_by one two three (x +:+ y).
Proof.
  intros Hx Hy. induction Hx; rewrite ?append_String; [done|by constructor..].
Qed.

(** Where no character of the class begins there is nothing to cut. *)
Lemma lstrip_by_id s : starts s = false → cut s = s.
Proof.
  destruct s as [|a [|b [|c s3]]]; simpl; [done|..].
  - by intros ->.
  - intros [-> ->]%orb_false_iff. done.
  - intros [[-> ->]%orb_false_iff ->]%orb_false_iff. done.
Qed.

(** A text in front of which no character of the class begins has no
    such character in front of any of its prefixes. *)
Lemma starts_by_prefix x y r : starts x = false → x = y +:+ r → starts y = false.
Proof.
  intros Hx ->. destruct y as [|a [|b [|c y3]]]; simpl in *; [done|..].
  - destruct r as [|b [|c r]]; simpl in Hx.
    + done.
    + by apply orb_false_iff in Hx as [? _].
    + by apply orb_false_iff in Hx as [[? _]%orb_false_iff _].
  - destruct r as [|c r]; simpl in Hx; [done|].
    by apply orb_false_iff in Hx as [? _].
  - done.
Qed.

End Class.

Lemma append_nest x y z : (x +:+ y) +:+ z = x +:+ y +:+ z.
Proof. apply chars_inj. by rewrite !chars_app, app_assoc. Qed.

Lemma rev_cons a s : String.rev (String a s) = String.rev s +:+ String a EmptyString.
Proof.
  apply chars_inj. rewrite chars_app, !chars_rev. simpl. by rewrite reverse_cons.
Qed.

(** A text made of characters read backwards is, read backwards, a
    text made of these characters. *)
Lemma blank_by_rev one two three l :
  Py.blank_by one (λ a b, two b a) (λ a b c, three c b a) l →
  Py.blank_by one two three (String.rev l).
Proof.
  induction 1 as [|a s Ha _ IH|a b s Hab _ IH|a b c s Habc _ IH];
    rewrite ?rev_cons; [constructor|..].
  - apply blank_by_app; [done|]. by repeat constructor.
  - rewrite append_nest. apply blank_by_app; [done|].
    apply Py.blank_two; [done|constructor].
  - rewrite !append_nest. apply blank_by_app; [done|].
    apply Py.blank_three; [done|constructor].
Qed.

Lemma rev_rev s : String.rev (String.rev s) = s.
Proof. apply chars_inj. by rewrite !chars_rev, reverse_involutive. Qed.

Lemma rev_append s t : String.rev (s +:+ t) = String.rev t +:+ String.rev s.
Proof. apply chars_inj. by rewrite chars_rev, !chars_app, !chars_rev, reverse_app. Qed.

Lemma lstrip_split s :
  ∃ l, s = l +:+ Py.lstrip s ∧ Py.blank l ∧ Py.starts_space (Py.lstrip s) = false.
Proof. apply lstrip_by_split. Qed.

Lemma rstrip_split s :
  ∃ r, s = Py.rstrip s +:+ r ∧ Py.blank r ∧ Py.ends_space (Py.rstrip s) = false.
Proof.
  destruct (lstrip_by_split Py.isspace (λ a b, Py.isspace2 b a)
              (λ a b c, Py.isspace3 c b a) (String.rev s)) as (l & E & Hl & Hs).
  exists (String.rev l). unfold Py.rstrip, Py.ends_space. rewrite !rev_rev.
  split; [|split; [by apply blank_by_rev|done]].
  apply (f_equal String.rev) in E. by rewrite rev_rev, rev_append in E.
Qed.

(** [strip]: what is cut off on both sides is white space, and what
    stays neither begins nor ends with white space. *)
Lemma strip_split s :
  ∃ l r, s = l +:+ Py.strip s +:+ r
         ∧ Py.blank l
         ∧ Py.blank r
         ∧ Py.starts_space (Py.strip s) = false
         ∧ Py.ends_space (Py.strip s) = false.
Proof.
  destruct (lstrip_split s) as (l & El & Hl & Hh).
  destruct (rstrip_split (Py.lstrip s)) as (r & Er & Hr & Ht).
  exists l, r. unfold Py.strip.
  split; [by rewrite <-Er|]. split; [done|]. split; [done|]. split; [|done].
  by apply (starts_by_prefix _ _ _ _ _ r Hh).
Qed.

(** The substitution touches exactly the characters of the class. *)
Lemma sub_class_get cls repl s i :
  String.get i (Py.sub_class cls repl s)
  = (λ c, if cls c then repl else c) <$> String.get i s.
Proof.
  revert i. induction s as [|c s IH]; intros [|i]; simpl; by try apply IH.
Qed.

Lemma sub_class_length cls repl s :
  String.length (Py.sub_class cls repl s) = String.length s.
Proof. induction s as [|c s IH]; simpl; [done|]. by rewrite IH. Qed.

End TrackNames.

(* ===================================================================== *)
(** * Properties: cue resolution                                          *)
(* ===================================================================== *)

Section CuesplitResolution.
Import Cuesplit.
Context {State : Type} {system : System State}.


Lemma find_audio_loop_absent cue_dir ref_stem exts s :
  (∀ c, c ∈ candidates_of cue_dir ref_stem exts → path_exists c s = Py.Ok false) →
  find_audio_loop cue_dir ref_stem exts s = Py.Ok None.
Proof.
  induction exts as [|ext exts IH]; intros Hnone; [done|]. simpl.
  rewrite Hnone; [|by left]. simpl. apply IH. intros c Hc. apply Hnone. by right.
Qed.

Lemma find_audio_loop_raised cue_dir ref_stem exts s i c e :
  candidates_of cue_dir ref_stem exts !! i = Some c →
  path_exists c s = Py.Raise e →
  (∀ j c', (j < i)%nat → candidates_of cue_dir ref_stem exts !! j = Some c' →
     path_exists c' s = Py.Ok false) →
  find_audio_loop cue_dir ref_stem exts s = Py.Raise e.
Proof.
  revert i. induction exts as [|ext exts IH]; intros i Hi Hc Hbefore; [done|].
  simpl. destruct i as [|i]; simpl in Hi.
  - injection Hi as <-. by rewrite Hc.
  - rewrite (Hbefore 0%nat (cue_dir // (ref_stem +:+ ext))); [|lia|done]. simpl.
    apply (IH i); [done|done|]. intros j c' Hj Hc'.
    apply (Hbefore (S j)); [lia|done].
Qed.

(** What the loop's result says about the checks it made. *)
Lemma find_audio_loop_inv cue_dir ref_stem exts s :
  match find_audio_loop cue_dir ref_stem exts s with
  | Py.Ok (Some p) =>
      ∃ i, candidates_of cue_dir ref_stem exts !! i = Some p
           ∧ path_exists p s = Py.Ok true
           ∧ ∀ j c', (j < i)%nat → candidates_of cue_dir ref_stem exts !! j = Some c' →
                     path_exists c' s = Py.Ok false
  | Py.Ok None =>
      ∀ c, c ∈ candidates_of cue_dir ref_stem exts → path_exists c s = Py.Ok false
  | Py.Raise e =>
      ∃ i c, candidates_of cue_dir ref_stem exts !! i = Some c
             ∧ path_exists c s = Py.Raise e
             ∧ ∀ j c', (j < i)%nat → candidates_of cue_dir ref_stem exts !! j = Some c' →
                       path_exists c' s = Py.Ok false
  end.
Proof.
  induction exts as [|ext exts IH]; simpl.
  - intros c Hc. by apply elem_of_nil in Hc.
  - destruct (path_exists (cue_dir // (ref_stem +:+ ext)) s) as [[|]|e] eqn:Hext; simpl.
    + exists 0%nat. repeat split; [done|]. intros j c' Hj. lia.
    + destruct (find_audio_loop cue_dir ref_stem exts s) as [[p|]|e].
      * destruct IH as (i & Hi & Hp & Hbefore). exists (S i).
        repeat split; [done..|]. intros [|j] c' Hj Hc'; simpl in Hc'.
        -- by injection Hc' as <-.
        -- apply (Hbefore j); [lia|done].
      * intros c [->|Hc]%elem_of_cons; [done|by apply IH].
      * destruct IH as (i & c & Hi & Hp & Hbefore). exists (S i), c.
        repeat split; [done..|]. intros [|j] c' Hj Hc'; simpl in Hc'.
        -- by injection Hc' as <-.
        -- apply (Hbefore j); [lia|done].
    + exists 0%nat, (cue_dir // (ref_stem +:+ ext)).
      repeat split; [done|]. intros j c' Hj. lia.
Qed.

Lemma find_audio_for_cue_eq cue_dir ref_filename s :
  find_audio_for_cue cue_dir ref_filename s
  = match path_exists (cue_dir // ref_filename) s with
    | Py.Ok true => Py.Ok (Some (cue_dir // ref_filename))
    | Py.Ok false =>
        find_audio_loop cue_dir (PathOps.stem (PathOps.of_str ref_filename))
          Opusconv.cue_extensions s
    | Py.Raise e => Py.Raise e
    end.
Proof.
  unfold find_audio_for_cue.
  by destruct (path_exists (cue_dir // ref_filename) s) as [[|]|e].
Qed.


(** X2.  What resolution returns, read backwards.  A path it returns
    is the referenced path or one of the six candidates, and the check
    of its existence answered yes.  It returns [None] exactly when the
    checks of the referenced path and of all six candidates answered
    no.  It raises exactly when one of these checks raised, all checks
    before it having answered no. *)
Theorem find_audio_for_cue_sound (s : State) cue_dir ref_filename :
  let literal := cue_dir // ref_filename in
  let candidates :=
    (λ ext, cue_dir // (PathOps.stem (PathOps.of_str ref_filename) +:+ ext))
      <$> [".flac"; ".ape"; ".wav"; ".tak"; ".mp3"; ".m4a"] in
  (∀ p, find_audio_for_cue cue_dir ref_filename s = Py.Ok (Some p) →
        p ∈ literal :: candidates ∧ path_exists p s = Py.Ok true)
  ∧ (find_audio_for_cue cue_dir ref_filename s = Py.Ok None
     ↔ ∀ c, c ∈ literal :: candidates → path_exists c s = Py.Ok false)
  ∧ (∀ e, find_audio_for_cue cue_dir ref_filename s = Py.Raise e
     ↔ ∃ i c, (literal :: candidates) !! i = Some c
              ∧ path_exists c s = Py.Raise e
              ∧ ∀ j c', (j < i)%nat → (literal :: candidates) !! j = Some c' →
                        path_exists c' s = Py.Ok false).
Proof.
  intros literal candidates.
  pose proof (find_audio_loop_inv cue_dir (PathOps.stem (PathOps.of_str ref_filename))
                Opusconv.cue_extensions s) as Hinv.
  rewrite find_audio_for_cue_eq. fold literal.
  change (candidates_of cue_dir (PathOps.stem (PathOps.of_str ref_filename))
            Opusconv.cue_extensions) with candidates in Hinv.
  destruct (path_exists literal s) as [[|]|e0] eqn:Hlit.
  - split; [|split].
    + intros p [= <-]. split; [by left|done].
    + split; [done|]. intros Hall. specialize (Hall literal). rewrite Hlit in Hall.
      by specialize (Hall ltac:(by left)).
    + intros e. split; [done|]. intros (i & c & Hi & Hc & Hbefore).
      destruct i as [|i]; simpl in Hi; [injection Hi as <-; congruence|].
      specialize (Hbefore 0%nat literal ltac:(lia) eq_refl). congruence.
  - split; [|split].
    + intros p Hp. rewrite Hp in Hinv. destruct Hinv as (i & Hi & Hex & _).
      split; [|done]. right. by apply (list_elem_of_lookup_2 _ i).
    + split.
      * intros Hn. rewrite Hn in Hinv. intros c [->|Hc]%elem_of_cons; [done|by apply Hinv].
      * intros Hall. apply find_audio_loop_absent. intros c Hc. apply Hall. by right.
    + intros e. split.
      * intros He. rewrite He in Hinv. destruct Hinv as (i & c & Hi & Hc & Hbefore).
        exists (S i), c. repeat split; [done..|].
        intros [|j] c' Hj Hc'; simpl in Hc'; [by injection Hc' as <-|].
        apply (Hbefore j); [lia|done].
      * intros (i & c & Hi & Hc & Hbefore). destruct i as [|i]; simpl in Hi.
        { injection Hi as <-. congruence. }
        apply (find_audio_loop_raised _ _ _ _ i c); [done|done|].
        intros j c' Hj Hc'. apply (Hbefore (S j)); [lia|done].
  - split; [|split].
    + by intros p.
    + split; [done|]. intros Hall. specialize (Hall literal ltac:(by left)). congruence.
    + intros e. split.
      * intros [= <-]. exists 0%nat, literal. repeat split; [done|]. intros j c' Hj. lia.
      * intros (i & c & Hi & Hc & Hbefore). destruct i as [|i]; simpl in Hi.
        { injection Hi as <-. congruence. }
        specialize (Hbefore 0%nat literal ltac:(lia) eq_refl). congruence.
Qed.

End CuesplitResolution.

(* ===================================================================== *)
(** * Properties: the splitter                                            *)
(* ===================================================================== *)


Section Splitter.
Context {collab : Collaborators}.
Import Opusconv.


Lemma process_track_present cue_data source_audio bitrate dest_subdir total track w :
  Os.exists_ (fs w) (dest_subdir // out_name track) = true →
  process_track cue_data source_audio bitrate dest_subdir total track w = (Py.Ok (), w).
Proof.
  intros Hex. unfold out_name in Hex. unfold process_track. run_step.
  by rewrite Hex.
Qed.

Lemma process_track_absent cue_data source_audio bitrate dest_subdir total track w :
  let out_path := dest_subdir // out_name track in
  let call := track_call cue_data source_audio bitrate dest_subdir total track in
  Os.exists_ (fs w) out_path = false →
  process_track cue_data source_audio bitrate dest_subdir total track w
  = if decide (opusencode_py call (fs w) = 0%Z) then
      (Py.Ok (),
       {| fs := Os.create_file out_path (fs w);
          trace := trace w ++ [Stdout (track_line total track); Opusencode call;
                               Covercp source_audio out_path; Coverfix out_path] |})
    else
      (Py.Ok (),
       {| fs := fs w;
          trace := trace w ++ [Stdout (track_line total track); Opusencode call] |}).
Proof.
  intros out_path call Hex. subst out_path call.
  unfold process_track, run_opusencode, run_covercp, run_coverfix, track_call,
    track_line, out_name in *.
  run_step. rewrite Hex. simpl.
  case_decide; simpl; by rewrite <-!app_assoc.
Qed.

Lemma world_eta w : {| fs := fs w; trace := trace w ++ [] |} = w.
Proof. destruct w. simpl. by rewrite app_nil_r. Qed.

End Splitter.

Section CuesplitTracks.
Import Cuesplit.
Context {State : Type} {system : System State}.

Lemma session_eta (w : Session State) : {| state := state w; log := log w |} = w.
Proof. by destruct w. Qed.

(** The cue parser is asked; nothing else happens. *)
Lemma run_cueparse_reads cue_path (w : Session State) :
  run_cueparse cue_path w = (cue_sheet cue_path (state w), w).
Proof.
  unfold cue_sheet, run_cueparse, run_script. prog_step.
  destruct (result_bind _ _ completed (spawn_cueparse cue_path (state w)))
    as [result|e]; simpl; [|by rewrite session_eta].
  case_decide; simpl; [by rewrite session_eta|].
  destruct (loads (stdout result)); simpl; by rewrite session_eta.
Qed.

(** A track whose output is there is passed over; a check that raises
    ends the track before anything is printed or run. *)
Lemma track_skipped cue_data source_audio bitrate dest_subdir total track
    (w : Session State) :
  path_exists (dest_subdir // Opusconv.out_name track) (state w) = Py.Ok true →
  process_track cue_data source_audio bitrate dest_subdir total track w = (Py.Ok (), w).
Proof.
  intros Hex. unfold Opusconv.out_name in Hex. unfold process_track. prog_step.
  by rewrite Hex.
Qed.

Lemma track_check_raises cue_data source_audio bitrate dest_subdir total track
    (w : Session State) e :
  path_exists (dest_subdir // Opusconv.out_name track) (state w) = Py.Raise e →
  process_track cue_data source_audio bitrate dest_subdir total track w = (Py.Raise e, w).
Proof.
  intros Hex. unfold Opusconv.out_name in Hex. unfold process_track. prog_step.
  by rewrite Hex.
Qed.

Lemma track_line_raises cue_data source_audio bitrate dest_subdir total track
    (w : Session State) e :
  path_exists (dest_subdir // Opusconv.out_name track) (state w) = Py.Ok false →
  write_line (Opusconv.track_line total track) (state w) = Py.Raise e →
  process_track cue_data source_audio bitrate dest_subdir total track w = (Py.Raise e, w).
Proof.
  intros Hex Hline. unfold Opusconv.out_name in Hex.
  unfold Opusconv.track_line in Hline. unfold process_track. prog_step.
  rewrite Hex. simpl. by rewrite Hline.
Qed.

(** A track whose output is not there: the line, the transcode, and
    then what the transcoder's end decides. *)
Lemma track_started cue_data source_audio bitrate dest_subdir total track
    (w : Session State) :
  let out_path := dest_subdir // Opusconv.out_name track in
  let call := Opusconv.track_call cue_data source_audio bitrate dest_subdir total track in
  let started := log w ++ [Stdout (Opusconv.track_line total track); Opusencode call] in
  path_exists out_path (state w) = Py.Ok false →
  write_line (Opusconv.track_line total track) (state w) = Py.Ok () →
  process_track cue_data source_audio bitrate dest_subdir total track w
  = let '(child, s') := spawn_opusencode call (state w) in
    match child ≫= completed with
    | Py.Raise e => (Py.Raise e, {| state := s'; log := started |})
    | Py.Ok result =>
        if decide (returncode result = 0%Z) then
          (run_covercp source_audio out_path ;; run_coverfix out_path ;; mret ())
            {| state := s'; log := started |}
        else (Py.Ok (), {| state := s'; log := started |})
    end.
Proof.
  intros out_path call started Hex Hline. subst out_path call started.
  unfold process_track, run_opusencode, run_script, Opusconv.track_call,
    Opusconv.track_line, Opusconv.out_name in *.
  prog_step. rewrite Hex. simpl. rewrite Hline. simpl.
  match goal with |- context [spawn_opusencode ?c ?s] =>
    destruct (spawn_opusencode c s) as [child s'] end.
  rewrite <-!app_assoc. simpl.
  change (child ≫= completed) with (result_bind _ _ completed child).
  destruct (result_bind _ _ completed child) as [result|e]; simpl; [|done].
  rewrite bool_decide_decide. by case_decide.
Qed.

(** The two cover steps write nothing but their two events, and end
    the track with them. *)
Lemma covers_log source out_path (w : Session State) :
  ∃ r w' tail,
    (run_covercp source out_path ;; run_coverfix out_path ;; mret ()) w = (r, w')
    ∧ log w' = log w ++ Covercp source out_path :: tail
    ∧ Forall (λ e, is_transcode e = false) tail.
Proof.
  unfold run_covercp, run_coverfix, run_script. prog_step.
  destruct (spawn_covercp source out_path (state w)) as [child s1].
  destruct (result_bind _ _ completed child) as [result|e]; simpl.
  - destruct (spawn_coverfix out_path s1) as [child2 s2].
    destruct (result_bind _ _ completed child2) as [result2|e]; simpl;
      eexists _, _, [Coverfix out_path]; (split; [done|]); simpl;
      rewrite <-app_assoc; (split; [done|]); by repeat constructor.
  - eexists _, _, []. split; [done|]. simpl. split; [done|]. constructor.
Qed.

(** C6.  A track's output file is named by its number as the cue
    sheet gives it, without padding (["00"] when the sheet gives
    none), [" - "], the sanitized title (["Track <number>"] when the
    sheet gives none) and [".opus"]: when the check of that path
    answers that it is not there and the progress line is printed,
    the next thing that happens is the transcode from the source to
    that path, and the track runs no other transcode, however the
    helpers end.  Sanitizing replaces each of the nine characters
    [< > : double-quote / \ | ? *] by an underscore, leaves every
    other character in place, and then cuts the white space off both
    ends (white space as [str.strip] sees it in UTF-8 text, the
    no-break and the ideographic space included).  Number ["03"] with
    title ["My Song: Pt. 1/2"] gives ["03 - My Song_ Pt. 1_2.opus"]. *)
Theorem track_output_name :
  (∀ cue_data source_audio bitrate dest_subdir total track (w : Session State),
     let num := default "00" (Cue.number track) in
     let title := default ("Track " +:+ num) (Cue.title track) in
     let out_path :=
       dest_subdir // (num +:+ " - " +:+ Opusconv.sanitize_filename title +:+ ".opus") in
     let line := "    [" +:+ num +:+ "/" +:+ pretty total +:+ "] " +:+ title in
     path_exists out_path (state w) = Py.Ok false →
     write_line line (state w) = Py.Ok () →
     ∃ r w' c tail,
       process_track cue_data source_audio bitrate dest_subdir total track w = (r, w')
       ∧ log w' = log w ++ Stdout line :: Opusencode c :: tail
       ∧ enc_input c = source_audio
       ∧ enc_output c = out_path
       ∧ Forall (λ e, is_transcode e = false) tail)
  ∧ (∀ c, Opusconv.illegal c = true
          ↔ c ∈ ["<"; ">"; ":"; "034"; "/"; "\"; "|"; "?"; "*"]%char)
  ∧ (∀ name, ∃ replaced l r,
       String.length replaced = String.length name
       ∧ (∀ i, String.get i replaced
               = (λ c, if Opusconv.illegal c then "_"%char else c) <$> String.get i name)
       ∧ replaced = l +:+ Opusconv.sanitize_filename name +:+ r
       ∧ Py.blank l
       ∧ Py.blank r
       ∧ Py.starts_space (Opusconv.sanitize_filename name) = false
       ∧ Py.ends_space (Opusconv.sanitize_filename name) = false)
  ∧ Opusconv.sanitize_filename Posix.wrapped_title = "Intro"
  ∧ Opusconv.out_name
      {| Cue.number := Some "03"; Cue.title := Some "My Song: Pt. 1/2";
         Cue.artist := None; Cue.start := None; Cue.duration := None |}
    = "03 - My Song_ Pt. 1_2.opus".
Proof.
  split; [|split; [|split; [|split; vm_compute; reflexivity]]].
  - intros cue_data source_audio bitrate dest_subdir total track w num title out_path
      line Habsent Hline.
    pose proof (track_started cue_data source_audio bitrate dest_subdir total
                  track w Habsent Hline) as Hrun. cbv zeta in Hrun.
    set (call := Opusconv.track_call cue_data source_audio bitrate dest_subdir total
                   track) in *.
    fold num title line in Hrun.
    destruct (spawn_opusencode call (state w)) as [child s'].
    destruct (child ≫= completed) as [result|e].
    + destruct (decide (returncode result = 0%Z)).
      * destruct (covers_log source_audio (dest_subdir // Opusconv.out_name track)
                    {| state := s';
                       log := log w ++ [Stdout (Opusconv.track_line total track);
                                        Opusencode call] |})
          as (r & w' & tail & Hcov & Hlog & Htail).
        exists r, w', call, (Covercp source_audio (dest_subdir // Opusconv.out_name track)
                               :: tail).
        split; [by rewrite Hrun|]. split; [|split; [done|split; [done|]]].
        -- rewrite Hlog. simpl. by rewrite <-app_assoc.
        -- by constructor.
      * eexists _, _, call, []. split; [exact Hrun|]. by repeat split.
    + eexists _, _, call, []. split; [exact Hrun|]. by repeat split.
  - intros c. unfold Opusconv.illegal. by rewrite bool_decide_eq_true.
  - intros name. set (replaced := Py.sub_class Opusconv.illegal "_" name).
    destruct (strip_split replaced) as (l & r & E & Hl & Hr & Hh & Ht).
    exists replaced, l, r. split; [apply sub_class_length|].
    split; [apply sub_class_get|]. by repeat split.
Qed.



(** With an unmet precondition the splitter returns failure where it
    stands; the error line is printed when the source does not
    resolve. *)
Lemma process_cue_unmet cue_path dest_subdir (w : Session State) p :
  first_unmet cue_path (state w) = Py.Ok (Some p) →
  process_cue cue_path dest_subdir w
  = match p with
    | Opusconv.SourceResolves =>
        match write_line "  [Error] Audio file not found for CUE" (state w) with
        | Py.Ok _ =>
            (Py.Ok false,
             {| state := state w;
                log := log w ++ [Stdout "  [Error] Audio file not found for CUE"] |})
        | Py.Raise e => (Py.Raise e, w)
        end
    | _ => (Py.Ok false, w)
    end.
Proof.
  unfold first_unmet, process_cue. intros Hunmet.
  unfold mbind at 1, Prog_bind. rewrite run_cueparse_reads.
  destruct (cue_sheet cue_path (state w)) as [[d|]|e]; simplify_eq/=; [|done].
  destruct (Cue.truthy d); simplify_eq/=; [|done].
  destruct (default false (Cue.single_file d)); simplify_eq/=; [|done].
  destruct (Cue.tracks d) as [[|t ts]|]; simplify_eq/=; try done.
  destruct (Cue.files d) as [[|file0 fl]|]; simplify_eq/=; try done.
  prog_step.
  destruct (find_audio_for_cue (PathOps.parent cue_path) file0 (state w))
    as [[src|]|e]; simplify_eq/=.
  - destruct (Opusconv.get_bitrate (PathOps.suffix src)); by simplify_eq/=.
  - by destruct (write_line _ (state w)).
Qed.

(** A check that raises ends the splitter where it stands. *)
Lemma process_cue_unchecked cue_path dest_subdir (w : Session State) e :
  first_unmet cue_path (state w) = Py.Raise e →
  process_cue cue_path dest_subdir w = (Py.Raise e, w).
Proof.
  unfold first_unmet, process_cue. intros Hunmet.
  unfold mbind at 1, Prog_bind. rewrite run_cueparse_reads.
  destruct (cue_sheet cue_path (state w)) as [[d|]|e']; simplify_eq/=; [|done].
  destruct (Cue.truthy d); simplify_eq/=.
  destruct (default false (Cue.single_file d)); simplify_eq/=.
  destruct (Cue.tracks d) as [[|t ts]|]; simplify_eq/=.
  destruct (Cue.files d) as [[|file0 fl]|]; simplify_eq/=.
  prog_step.
  destruct (find_audio_for_cue (PathOps.parent cue_path) file0 (state w))
    as [[src|]|e']; simplify_eq/=; [|done].
  destruct (Opusconv.get_bitrate (PathOps.suffix src)); by simplify_eq/=.
Qed.

(** With every precondition met the splitter does not return failure:
    it makes the destination directory and goes through the tracks,
    and returns success unless one of these steps raises. *)
Lemma process_cue_met cue_path dest_subdir (w : Session State) r w' :
  first_unmet cue_path (state w) = Py.Ok None →
  process_cue cue_path dest_subdir w = (r, w') →
  r ≠ Py.Ok false.
Proof.
  unfold first_unmet, process_cue. intros Hmet.
  unfold mbind at 1, Prog_bind. rewrite run_cueparse_reads.
  destruct (cue_sheet cue_path (state w)) as [[d|]|e']; simplify_eq/=.
  destruct (Cue.truthy d); simplify_eq/=.
  destruct (default false (Cue.single_file d)); simplify_eq/=.
  destruct (Cue.tracks d) as [[|t ts]|]; simplify_eq/=.
  destruct (Cue.files d) as [[|file0 fl]|]; simplify_eq/=.
  prog_step.
  destruct (find_audio_for_cue (PathOps.parent cue_path) file0 (state w))
    as [[src|]|e']; simplify_eq/=.
  destruct (Opusconv.get_bitrate (PathOps.suffix src)) as [b|]; simplify_eq/=.
  destruct (os_makedirs dest_subdir (state w)) as [[[]|e] s']; simpl;
    [|by intros [= <- _]].
  destruct (process_track d src b dest_subdir (S (length ts)) t
              {| state := s'; log := log w |}) as [[[]|e] w1]; [|by intros [= <- _]].
  destruct (for_each ts (process_track d src b dest_subdir (S (length ts))) w1)
    as [[[]|e] w2]; by intros [= <- _].
Qed.


(** X6.  When the splitter returns, it returns failure exactly when
    one of its preconditions is unmet: a transcode that fails does not
    make the splitter fail. *)
Theorem process_cue_result cue_path dest_subdir (w w' : Session State) b :
  process_cue cue_path dest_subdir w = (Py.Ok b, w') →
  (b = false ↔ ∃ p, first_unmet cue_path (state w) = Py.Ok (Some p)).
Proof.
  intros Hrun. destruct (first_unmet cue_path (state w)) as [[p|]|e] eqn:Hfirst.
  - split; [by eexists|]. intros _.
    rewrite (process_cue_unmet _ _ _ p Hfirst) in Hrun.
    destruct p; try by injection Hrun as <-.
    destruct (write_line _ (state w)); by simplify_eq.
  - pose proof (process_cue_met _ _ _ _ _ Hfirst Hrun) as Hok.
    split; [by intros ->|]. by intros [p Hp].
  - rewrite (process_cue_unchecked _ _ _ e Hfirst) in Hrun. by simplify_eq.
Qed.

End CuesplitTracks.

(* ===================================================================== *)
(** * Properties: the two readings of the splitter agree                  *)
(* ===================================================================== *)

Section Agreement.
Context {collab : Collaborators}.

Lemma find_audio_loop_agree fs0 cue_dir ref_stem exts :
  Cuesplit.find_audio_loop (system := returning) cue_dir ref_stem exts fs0
  = Py.Ok (Opusconv.find_audio_loop fs0 cue_dir ref_stem exts).
Proof.
  induction exts as [|ext exts IH]; [done|]. simpl.
  by destruct (Os.exists_ fs0 (cue_dir // (ref_stem +:+ ext))).
Qed.

Lemma find_audio_for_cue_agree fs0 cue_dir ref_filename :
  Cuesplit.find_audio_for_cue (system := returning) cue_dir ref_filename fs0
  = Py.Ok (Opusconv.find_audio_for_cue fs0 cue_dir ref_filename).
Proof.
  rewrite find_audio_for_cue_eq. unfold Opusconv.find_audio_for_cue.
  change (Cuesplit.path_exists (cue_dir // ref_filename) fs0)
    with (Py.Ok (Os.exists_ fs0 (cue_dir // ref_filename))).
  destruct (Os.exists_ fs0 (cue_dir // ref_filename)); [done|].
  apply find_audio_loop_agree.
Qed.

Lemma run_cueparse_agree cue_path fs0 :
  Cuesplit.cue_sheet (system := returning) cue_path fs0
  = Py.Ok (Opusconv.run_cueparse cue_path).
Proof.
  unfold Cuesplit.cue_sheet, Cuesplit.run_cueparse, Cuesplit.run_script,
    Opusconv.run_cueparse. prog_step.
  destruct (cueparse_py cue_path) as [rc out]. simpl.
  case_decide; [done|]. by destruct (json_loads out).
Qed.

Lemma process_track_agree cue_data source_audio bitrate dest_subdir total track w :
  Cuesplit.process_track (system := returning) cue_data source_audio bitrate
    dest_subdir total track (session_of w)
  = lifted (Opusconv.process_track cue_data source_audio bitrate dest_subdir total
              track w).
Proof.
  unfold Cuesplit.process_track, Opusconv.process_track, Cuesplit.run_opusencode,
    Cuesplit.run_covercp, Cuesplit.run_coverfix, Cuesplit.run_script,
    Opusconv.run_opusencode, Opusconv.run_covercp, Opusconv.run_coverfix.
  prog_step. run_step.
  destruct (Os.exists_ _ _); [done|]. simpl.
  case_decide as Hrc; simpl.
  - rewrite bool_decide_eq_true_2 by done. simpl. by rewrite <-!app_assoc.
  - rewrite bool_decide_eq_false_2 by done. simpl. by rewrite <-!app_assoc.
Qed.

Lemma for_each_agree cue_data source_audio bitrate dest_subdir total tracks w :
  Cuesplit.for_each tracks
    (Cuesplit.process_track (system := returning) cue_data source_audio bitrate
       dest_subdir total) (session_of w)
  = lifted (St.for_each tracks
              (Opusconv.process_track cue_data source_audio bitrate dest_subdir total)
              w).
Proof.
  revert w. induction tracks as [|t ts IH]; intros w; [done|]. simpl.
  unfold mbind, Cuesplit.Prog_bind, M_bind. rewrite process_track_agree.
  destruct (Opusconv.process_track _ _ _ _ _ _ _) as [[[]|e] w1]; simpl; [|done].
  apply IH.
Qed.

(** Where every call returns, the splitter of [Cuesplit] is the
    splitter of [Opusconv]. *)
Lemma process_cue_agree cue_path dest_subdir w :
  Cuesplit.process_cue (system := returning) cue_path dest_subdir (session_of w)
  = lifted (Opusconv.process_cue cue_path dest_subdir w).
Proof.
  unfold Cuesplit.process_cue, Opusconv.process_cue.
  unfold mbind at 1, Cuesplit.Prog_bind. rewrite run_cueparse_reads. simpl.
  rewrite run_cueparse_agree.
  destruct (Opusconv.run_cueparse cue_path) as [d|]; [|done].
  destruct (negb _ || negb _); [done|].
  destruct (Cue.tracks d) as [[|t ts]|]; try done.
  destruct (Cue.files d) as [[|file0 fl]|]; try done.
  remember (t :: ts) as tracks eqn:Htracks. clear Htracks.
  unfold mbind, Cuesplit.Prog_bind, M_bind, Cuesplit.ask, St.gets.
  cbn [Cuesplit.state session_of fs]. rewrite find_audio_for_cue_agree.
  destruct (Opusconv.find_audio_for_cue _ _ _) as [src|]; [|done].
  destruct (Opusconv.get_bitrate _) as [b|]; [|done].
  unfold Cuesplit.act, St.update. cbn [Cuesplit.state session_of fs].
  change (Cuesplit.os_makedirs dest_subdir (fs w))
    with (match Os.makedirs dest_subdir (fs w) with
          | Py.Ok fs' => (Py.Ok (), fs')
          | Py.Raise e => (Py.Raise e, fs w)
          end).
  destruct (Os.makedirs dest_subdir (fs w)) as [fs1|e]; [|by destruct w].
  change {| Cuesplit.state := fs1; Cuesplit.log := Cuesplit.log (session_of w) |}
    with (session_of {| fs := fs1; trace := trace w |}).
  rewrite for_each_agree.
  by destruct (St.for_each _ _ _) as [[[]|e] w2].
Qed.

End Agreement.


(* ===================================================================== *)
(** * Properties: a walk that finds every destination in place            *)
(* ===================================================================== *)

Section Quiet.
Context {collab : Collaborators}.
Import Opusconv.

Lemma quiet_ret {A} (v : A) w : quiet (mret v) w.
Proof. exists (Py.Ok v), []. by rewrite world_eta. Qed.

Lemma quiet_same {A} (m : M A) r w : m w = (r, w) → quiet m w.
Proof. intros E. exists r, []. by rewrite world_eta. Qed.

Lemma quiet_print line w : quiet (St.print line) w.
Proof. by exists (Py.Ok ()), [Stdout line]. Qed.

Lemma quiet_bind {A B} (m : M A) (k : A → M B) w :
  quiet m w →
  (∀ v w', fs w' = fs w → quiet (k v) w') →
  quiet (m ≫= k) w.
Proof.
  intros (r & log & E & Hlog) Hk. unfold quiet, mbind, M_bind. rewrite E.
  destruct r as [v|e].
  - destruct (Hk v {| fs := fs w; trace := trace w ++ log |} eq_refl)
      as (r' & log' & E' & Hlog').
    exists r', (log ++ log'). rewrite E'. simpl. rewrite <-app_assoc.
    by rewrite forallb_app, Hlog, Hlog'.
  - by exists (Py.Raise e), log.
Qed.

Lemma quiet_for_each {A} (l : list A) (body : A → M unit) w :
  (∀ x w', x ∈ l → fs w' = fs w → quiet (body x) w') →
  quiet (St.for_each l body) w.
Proof.
  revert w. induction l as [|x l IH]; intros w Hbody; simpl; [apply quiet_ret|].
  apply quiet_bind.
  - apply Hbody; [by left|done].
  - intros _ w' Hw'. apply IH. intros y w'' Hy Hw''. apply Hbody; [by right|congruence].
Qed.

Lemma inits_self {A} (l : list A) : l ∈ Os.inits l.
Proof.
  induction l as [|x l IH]; simpl; [by left|]. right.
  apply list_elem_of_fmap. by exists l.
Qed.

(** Making a directory that exists changes nothing. *)
Lemma makedirs_existing p fs0 :
  Os.exists_ fs0 p = true →
  Os.makedirs p fs0 = Py.Ok fs0 ∨ ∃ e, Os.makedirs p fs0 = Py.Raise e.
Proof.
  unfold Os.exists_, Os.makedirs. intros Hex.
  destruct (Os.is_dir fs0 p); [by left|]. right.
  rewrite orb_false_r in Hex. rewrite Hex. by eexists.
Qed.

Lemma quiet_makedirs p w :
  Os.exists_ (fs w) p = true → quiet (St.update (Os.makedirs p)) w.
Proof.
  intros Hex. apply quiet_same with (r := match Os.makedirs p (fs w) with
                                          | Py.Ok _ => Py.Ok ()
                                          | Py.Raise e => Py.Raise e
                                          end).
  unfold St.update.
  destruct (makedirs_existing p (fs w) Hex) as [-> | [e ->]]; [by destruct w|done].
Qed.

Lemma quiet_tracks cue_data source_audio bitrate dest_subdir total tracks w :
  Forall (λ p, Os.exists_ (fs w) p = true)
         ((λ t, dest_subdir // out_name t) <$> tracks) →
  quiet (St.for_each tracks
           (process_track cue_data source_audio bitrate dest_subdir total)) w.
Proof.
  intros Hall. apply quiet_for_each. intros t w' Ht Hw'.
  apply quiet_same with (r := Py.Ok ()). apply process_track_present.
  rewrite Hw'. rewrite Forall_forall in Hall. apply Hall.
  apply list_elem_of_fmap. by exists t.
Qed.

Lemma quiet_gets {A B} (f : FS → A) (k : A → M B) w :
  quiet (k (f (fs w))) w → quiet (St.gets f ≫= k) w.
Proof. intros Hk. exact Hk. Qed.

(** A splitter that stops at a precondition has at most printed. *)
Lemma quiet_process_cue_unmet cue_path dest_subdir w p :
  first_unmet (fs w) cue_path = Some p →
  quiet (process_cue cue_path dest_subdir) w.
Proof.
  unfold first_unmet, process_cue.
  destruct (run_cueparse cue_path) as [d|]; [|intros; apply quiet_ret].
  destruct (Cue.truthy d); simpl; [|intros; apply quiet_ret].
  destruct (default false (Cue.single_file d)); simpl; [|intros; apply quiet_ret].
  destruct (Cue.tracks d) as [[|t ts]|]; simpl; try (intros; apply quiet_ret).
  destruct (Cue.files d) as [[|file0 fl]|]; simpl; try (intros; apply quiet_ret).
  intros Hunmet. apply quiet_gets.
  destruct (find_audio_for_cue (fs w) (PathOps.parent cue_path) file0) as [src|].
  - destruct (get_bitrate (PathOps.suffix src)); [done|apply quiet_ret].
  - apply quiet_bind; [apply quiet_print|]. intros. apply quiet_ret.
Qed.

Lemma quiet_process_cue cue_path dest_subdir w :
  (first_unmet (fs w) cue_path = None →
   Forall (λ p, Os.exists_ (fs w) p = true)
     (dest_subdir :: ((λ t, dest_subdir // out_name t)
                        <$> default [] (run_cueparse cue_path ≫= Cue.tracks)))) →
  quiet (process_cue cue_path dest_subdir) w.
Proof.
  intros Hall. destruct (first_unmet (fs w) cue_path) as [p|] eqn:Hunmet.
  { by apply (quiet_process_cue_unmet _ _ _ p). }
  specialize (Hall eq_refl). revert Hunmet Hall. unfold first_unmet, process_cue.
  destruct (run_cueparse cue_path) as [d|]; [|done]. simpl.
  destruct (Cue.truthy d); [|done].
  destruct (default false (Cue.single_file d)); [|done].
  destruct (Cue.tracks d) as [[|t ts]|]; [done| |done].
  destruct (Cue.files d) as [[|file0 fl]|]; [done| |done]. simpl.
  intros Hunmet [Hdir Htracks]%Forall_cons.
  apply quiet_gets.
  destruct (find_audio_for_cue (fs w) (PathOps.parent cue_path) file0) as [src|];
    [|done].
  destruct (get_bitrate (PathOps.suffix src)) as [b|]; [|done].
  apply quiet_bind; [by apply quiet_makedirs|]. intros _ w1 Hw1.
  apply quiet_bind; [|intros; apply quiet_ret].
  apply (quiet_tracks d src b dest_subdir (length (t :: ts)) (t :: ts)).
  by rewrite Hw1.
Qed.

Lemma quiet_convert_cue source_dir root filename w :
  Forall (λ p, Os.exists_ (fs w) p = true)
         (cue_destinations (fs w) source_dir root filename) →
  quiet (convert_cue source_dir root filename) w.
Proof.
  unfold cue_destinations, convert_cue.
  destruct (Py.endswith (Py.lower filename) ".cue"); [|intros; apply quiet_ret].
  destruct (PathOps.relative_to (root // filename) (PathOps.parent source_dir))
    as [relative|e]; [|intros; by apply quiet_same with (r := Py.Raise e)].
  intros Hall. unfold St.lift, mbind at 1, M_bind at 1.
  destruct (is_single_file (run_cueparse (root // filename))); [|apply quiet_ret].
  apply quiet_bind; [apply quiet_print|]. intros _ w1 Hw1.
  apply quiet_bind; [|intros; apply quiet_ret].
  apply quiet_process_cue. rewrite Hw1. intros Hmet. by rewrite Hmet in Hall.
Qed.

Lemma convert_standalone_present source_dir root cue_sources filename w d :
  standalone_destinations source_dir root cue_sources filename = [d] →
  Os.exists_ (fs w) d = true →
  convert_standalone source_dir root cue_sources filename w = (Py.Ok (), w).
Proof.
  unfold standalone_destinations, convert_standalone.
  destruct (get_bitrate (PathOps.suffix (root // filename))) as [b|]; [|done].
  case_decide; [done|].
  destruct (PathOps.relative_to (root // filename) (PathOps.parent source_dir))
    as [relative|e]; [|done]. simpl.
  destruct (PathOps.with_suffix relative ".opus") as [opus|e] eqn:Eopus; [|done].
  simpl. intros [= <-] Hex. run_step. by rewrite Eopus, Hex.
Qed.

Lemma quiet_convert_standalone source_dir root cue_sources filename w :
  Forall (λ p, Os.exists_ (fs w) p = true)
         (standalone_destinations source_dir root cue_sources filename) →
  quiet (convert_standalone source_dir root cue_sources filename) w.
Proof.
  intros Hall.
  destruct (standalone_destinations source_dir root cue_sources filename)
    as [|d [|d' l]] eqn:Hd.
  - revert Hd. unfold standalone_destinations, convert_standalone.
    destruct (get_bitrate (PathOps.suffix (root // filename))) as [b|];
      [|intros; apply quiet_ret].
    case_decide; [intros; apply quiet_ret|].
    destruct (PathOps.relative_to (root // filename) (PathOps.parent source_dir))
      as [relative|e]; [|intros; by apply quiet_same with (r := Py.Raise e)]. simpl.
    destruct (PathOps.with_suffix relative ".opus") as [opus|e] eqn:Eopus; [done|].
    intros _. apply quiet_same with (r := Py.Raise e). run_step. by rewrite Eopus.
  - apply quiet_same with (r := Py.Ok ()).
    apply (convert_standalone_present _ _ _ _ _ d Hd). by inversion Hall.
  - revert Hd. unfold standalone_destinations.
    repeat (case_match; try done); by case_decide.
Qed.

Lemma quiet_convert_directory source_dir w :
  Forall (λ p, Os.exists_ (fs w) p = true) (destinations (fs w) source_dir) →
  quiet (convert_directory source_dir) w.
Proof.
  unfold destinations, convert_directory. intros Hall.
  set (src := resolve (PathOps.of_str source_dir)) in *.
  apply quiet_gets.
  destruct (Os.exists_ (fs w) src && Os.is_dir (fs w) src); simpl;
    [|apply quiet_print].
  apply quiet_bind; [apply quiet_print|]. intros _ w1 Hw1.
  apply quiet_bind; [apply quiet_print|]. intros _ w2 Hw2.
  apply quiet_bind; [apply quiet_print|]. intros _ w3 Hw3.
  apply quiet_gets. apply quiet_gets.
  assert (fs w3 = fs w) as Hw by congruence. rewrite Hw.
  apply quiet_bind; [|intros; apply quiet_print].
  apply quiet_for_each. intros [root files] w4 Hin Hw4.
  rewrite Forall_forall in Hall.
  apply quiet_bind.
  - apply quiet_for_each. intros filename w5 Hf Hw5.
    apply quiet_convert_cue. apply Forall_forall. intros p Hp.
    rewrite Hw5, Hw4, Hw. apply Hall.
    apply list_elem_of_bind. exists (root, files). split; [|done].
    apply elem_of_app. left. apply list_elem_of_bind. exists filename.
    by rewrite Hw5, Hw4, Hw in Hp.
  - intros _ w5 Hw5. apply quiet_for_each. intros filename w6 Hf Hw6.
    apply quiet_convert_standalone. apply Forall_forall. intros p Hp.
    rewrite Hw6, Hw5, Hw4, Hw. apply Hall.
    apply list_elem_of_bind. exists (root, files). split; [|done].
    apply elem_of_app. right. apply list_elem_of_bind. by exists filename.
Qed.

End Quiet.


(* ===================================================================== *)
(** * Properties: an existing path is never transcoded into               *)
(* ===================================================================== *)

Section Spares.
Context {collab : Collaborators}.
Import Opusconv.

Lemma is_dir_elem fs0 p :
  Os.is_dir fs0 p = true
  ↔ ∃ q, q ∈ fs_dirs fs0 ++ (PathOps.parent <$> fs_files fs0) ∧ p ∈ Os.ancestors q.
Proof.
  unfold Os.is_dir, Os.all_dirs. rewrite bool_decide_eq_true, elem_of_remove_dups.
  rewrite list_elem_of_join. split.
  - intros (l & Hp & Hl). apply list_elem_of_fmap in Hl as (q & -> & Hq). by exists q.
  - intros (q & Hq & Hp). exists (Os.ancestors q). split; [done|].
    apply list_elem_of_fmap. by exists q.
Qed.

Lemma exists_create_file fs0 q p :
  Os.exists_ fs0 p = true → Os.exists_ (Os.create_file q fs0) p = true.
Proof.
  unfold Os.create_file. destruct (Os.is_file fs0 q); [done|].
  unfold Os.exists_. rewrite !orb_true_iff. intros [Hf|Hd].
  - left. unfold Os.is_file in *. rewrite bool_decide_eq_true in *. simpl.
    apply elem_of_app. by left.
  - right. apply is_dir_elem in Hd as (x & Hx & Hp). apply is_dir_elem.
    exists x. split; [|done]. simpl. rewrite fmap_app.
    rewrite !elem_of_app in *. tauto.
Qed.

Lemma exists_makedirs fs0 fs1 q p :
  Os.makedirs q fs0 = Py.Ok fs1 →
  Os.exists_ fs0 p = true → Os.exists_ fs1 p = true.
Proof.
  unfold Os.makedirs. destruct (Os.is_dir fs0 q); [by intros [= <-]|].
  destruct (Os.is_file fs0 q); [done|].
  destruct (existsb _ _); [done|]. intros [= <-].
  unfold Os.exists_. rewrite !orb_true_iff. intros [Hf|Hd]; [by left|].
  right. apply is_dir_elem in Hd as (x & Hx & Hp). apply is_dir_elem.
  exists x. split; [|done]. simpl. rewrite !elem_of_app in *. tauto.
Qed.

Lemma spares_ret {A} d (v : A) w : Os.exists_ (fs w) d = true → spares d (mret v) w.
Proof.
  intros Hd. exists (Py.Ok v), w, []. rewrite app_nil_r.
  repeat split; try done. by intros c Hc%elem_of_nil.
Qed.

Lemma spares_same {A} d (m : M A) r w :
  m w = (r, w) → Os.exists_ (fs w) d = true → spares d m w.
Proof.
  intros E Hd. exists r, w, []. rewrite app_nil_r.
  repeat split; try done. by intros c Hc%elem_of_nil.
Qed.

Lemma spares_emit d e w :
  (∀ c, e = Opusencode c → enc_output c ≠ d) →
  Os.exists_ (fs w) d = true → spares d (St.emit e) w.
Proof.
  intros He Hd. exists (Py.Ok ()), {| fs := fs w; trace := trace w ++ [e] |}, [e].
  repeat split; try done. intros c Hc%list_elem_of_singleton. by apply He.
Qed.

Lemma spares_bind {A B} d (m : M A) (k : A → M B) w :
  spares d m w →
  (∀ v w', Os.exists_ (fs w') d = true → spares d (k v) w') →
  spares d (m ≫= k) w.
Proof.
  intros (r & w1 & log & E & Hd & Ht & Hlog) Hk. unfold spares, mbind, M_bind.
  rewrite E. destruct r as [v|e].
  - destruct (Hk v w1 Hd) as (r' & w2 & log' & E' & Hd' & Ht' & Hlog').
    exists r', w2, (log ++ log'). rewrite E', Ht', Ht, <-app_assoc.
    repeat split; try done. intros c [?|?]%elem_of_app; eauto.
  - by exists (Py.Raise e), w1, log.
Qed.

Lemma spares_for_each {A} d (l : list A) (body : A → M unit) w :
  (∀ x w', x ∈ l → Os.exists_ (fs w') d = true → spares d (body x) w') →
  Os.exists_ (fs w) d = true →
  spares d (St.for_each l body) w.
Proof.
  revert w. induction l as [|x l IH]; intros w Hbody Hd; simpl;
    [by apply spares_ret|].
  apply spares_bind.
  - apply Hbody; [by left|done].
  - intros _ w' Hw'. apply IH; [|done]. intros y w'' Hy. apply Hbody. by right.
Qed.

Lemma spares_gets {A B} d (f : FS → A) (k : A → M B) w :
  spares d (k (f (fs w))) w → spares d (St.gets f ≫= k) w.
Proof. intros Hk. exact Hk. Qed.

Lemma spares_makedirs d p w :
  Os.exists_ (fs w) d = true → spares d (St.update (Os.makedirs p)) w.
Proof.
  intros Hd. unfold spares, St.update.
  destruct (Os.makedirs p (fs w)) as [fs1|e] eqn:E.
  - exists (Py.Ok ()), {| fs := fs1; trace := trace w |}, []. simpl.
    rewrite app_nil_r. repeat split; try done.
    + by eapply exists_makedirs.
    + by intros c Hc%elem_of_nil.
  - exists (Py.Raise e), w, []. rewrite app_nil_r. repeat split; try done.
    by intros c Hc%elem_of_nil.
Qed.

(** A transcode whose output is not [d] spares [d]. *)
Lemma spares_run_opusencode d input output bitrate start duration metadata w :
  output ≠ d →
  Os.exists_ (fs w) d = true →
  spares d (run_opusencode input output bitrate start duration metadata) w.
Proof.
  intros Hne Hd. unfold run_opusencode.
  apply spares_bind; [apply spares_emit; [by intros c [= <-]|done]|].
  intros _ w1 Hw1. apply spares_gets. case_decide.
  - apply spares_bind; [|intros; by apply spares_ret].
    exists (Py.Ok ()), {| fs := Os.create_file output (fs w1); trace := trace w1 |}, [].
    simpl. rewrite app_nil_r. repeat split; try done.
    + by apply exists_create_file.
    + by intros c Hc%elem_of_nil.
  - by apply spares_ret.
Qed.

Lemma spares_covers d source dest w :
  Os.exists_ (fs w) d = true →
  spares d (run_covercp source dest ;; run_coverfix dest) w.
Proof.
  intros Hd. apply spares_bind; [by apply spares_emit|].
  intros. by apply spares_emit.
Qed.

Lemma spares_process_track d cue_data source_audio bitrate dest_subdir total track w :
  Os.exists_ (fs w) d = true →
  spares d (process_track cue_data source_audio bitrate dest_subdir total track) w.
Proof.
  intros Hd.
  destruct (Os.exists_ (fs w) (dest_subdir // out_name track)) eqn:Hex.
  { apply spares_same with (r := Py.Ok ()); [by apply process_track_present|done]. }
  assert (dest_subdir // out_name track ≠ d) as Hne by (intros E; congruence).
  unfold spares. rewrite process_track_absent by done.
  case_decide; eexists _, _, _; (split; [done|]); simpl.
  - split; [by apply exists_create_file|]. split; [done|].
    intros c Hc. repeat (apply elem_of_cons in Hc as [Hc|Hc]; [by simplify_eq|]).
    by apply elem_of_nil in Hc.
  - split; [done|]. split; [done|].
    intros c Hc. repeat (apply elem_of_cons in Hc as [Hc|Hc]; [by simplify_eq|]).
    by apply elem_of_nil in Hc.
Qed.
Lemma spares_lift {A B} d (r : Py.result A) (k : A → M B) w :
  Os.exists_ (fs w) d = true →
  (∀ v, r = Py.Ok v → spares d (k v) w) →
  spares d (St.lift r ≫= k) w.
Proof.
  intros Hd Hk. destruct r as [v|e].
  - by apply (Hk v).
  - by apply spares_same with (r := Py.Raise e).
Qed.

Lemma spares_process_cue d cue_path dest_subdir w :
  Os.exists_ (fs w) d = true →
  spares d (process_cue cue_path dest_subdir) w.
Proof.
  intros Hd. unfold process_cue.
  destruct (run_cueparse cue_path) as [cue_data|]; [|by apply spares_ret].
  destruct (negb _ || negb _); [by apply spares_ret|].
  destruct (Cue.tracks cue_data) as [[|t ts]|]; try by apply spares_ret.
  destruct (Cue.files cue_data) as [[|file0 fl]|]; try by apply spares_ret.
  apply spares_gets. cbv beta.
  destruct (find_audio_for_cue _ _ _) as [source_audio|].
  - destruct (get_bitrate _) as [bitrate|]; [|by apply spares_ret].
    apply spares_bind; [by apply spares_makedirs|]. intros _ w1 Hw1.
    apply spares_bind; [|intros; by apply spares_ret].
    apply spares_for_each; [|done]. intros x w2 _ Hw2.
    by apply spares_process_track.
  - apply spares_bind; [by apply spares_emit|]. intros; by apply spares_ret.
Qed.

Lemma spares_convert_cue d source_dir root filename w :
  Os.exists_ (fs w) d = true →
  spares d (convert_cue source_dir root filename) w.
Proof.
  intros Hd. unfold convert_cue.
  destruct (Py.endswith _ _); [|by apply spares_ret].
  apply spares_lift; [done|]. intros relative _.
  destruct (is_single_file _); [|by apply spares_ret].
  apply spares_bind; [by apply spares_emit|]. intros _ w1 Hw1.
  apply spares_bind; [by apply spares_process_cue|]. intros; by apply spares_ret.
Qed.

Lemma spares_convert_standalone d source_dir root cue_sources filename w :
  Os.exists_ (fs w) d = true →
  spares d (convert_standalone source_dir root cue_sources filename) w.
Proof.
  intros Hd. unfold convert_standalone.
  destruct (get_bitrate _) as [bitrate|]; [|by apply spares_ret].
  case_decide; [by apply spares_ret|].
  apply spares_lift; [done|]. intros relative _.
  apply spares_lift; [done|]. intros opus _.
  apply spares_gets. cbv beta.
  destruct (Os.exists_ (fs w) (PathOps.join DEST_DIR opus)) eqn:Hex;
    [by apply spares_ret|].
  apply spares_bind; [by apply spares_emit|]. intros _ w1 Hw1.
  apply spares_bind; [by apply spares_makedirs|]. intros _ w2 Hw2.
  apply spares_bind.
  - apply spares_run_opusencode; [|done]. intros E. rewrite E in Hex. congruence.
  - intros [] w3 Hw3; [by apply spares_covers|by apply spares_ret].
Qed.

Lemma spares_convert_directory d source_dir w :
  Os.exists_ (fs w) d = true →
  spares d (convert_directory source_dir) w.
Proof.
  intros Hd. unfold convert_directory. apply spares_gets. cbv beta.
  destruct (negb _); [by apply spares_emit|].
  apply spares_bind; [by apply spares_emit|]. intros _ w1 Hw1.
  apply spares_bind; [by apply spares_emit|]. intros _ w2 Hw2.
  apply spares_bind; [by apply spares_emit|]. intros _ w3 Hw3.
  apply spares_gets. apply spares_gets. cbv beta.
  apply spares_bind; [|intros; by apply spares_emit].
  apply spares_for_each; [|done]. intros [root files] w4 _ Hw4.
  apply spares_bind.
  - apply spares_for_each; [|done]. intros; by apply spares_convert_cue.
  - intros _ w5 Hw5. apply spares_for_each; [|done].
    intros; by apply spares_convert_standalone.
Qed.

(** C8.  The existence of a destination marks it as done.  A path
    that exists when the walker starts is never the output of a
    transcode the walker runs, whether it is a track's output or a
    standalone file's destination; a track whose output exists and a
    standalone file whose destination exists leave the world as it is.
    Hence, when every destination of the walk exists already (a second
    run over an unchanged tree), the walker writes nothing: the file
    system is as before and it has run no transcode and no cover
    operation. *)
Theorem existing_destination_not_transcoded :
  (∀ source_dir w d,
     Os.exists_ (fs w) d = true →
     ∃ r w' log,
       convert_directory source_dir w = (r, w')
       ∧ trace w' = trace w ++ log
       ∧ ∀ c, Opusencode c ∈ log → enc_output c ≠ d)
  ∧ (∀ cue_data source_audio bitrate dest_subdir total track w,
       Os.exists_ (fs w) (dest_subdir // out_name track) = true →
       process_track cue_data source_audio bitrate dest_subdir total track w
       = (Py.Ok (), w))
  ∧ (∀ source_dir root cue_sources filename w d,
       standalone_destinations source_dir root cue_sources filename = [d] →
       Os.exists_ (fs w) d = true →
       convert_standalone source_dir root cue_sources filename w = (Py.Ok (), w))
  ∧ (∀ source_dir w,
       forallb (Os.exists_ (fs w)) (destinations (fs w) source_dir) = true →
       ∃ r log,
         convert_directory source_dir w
         = (r, {| fs := fs w; trace := trace w ++ log |})
         ∧ forallb is_print log = true).
Proof.
  split; [|split; [|split]].
  - intros source_dir w d Hd.
    destruct (spares_convert_directory d source_dir w Hd)
      as (r & w' & log & E & _ & Ht & Hlog).
    by exists r, w', log.
  - intros. by apply process_track_present.
  - intros. by eapply convert_standalone_present.
  - intros source_dir w Hall. apply quiet_convert_directory.
    apply Forall_forall. intros p Hp%list_elem_of_In.
    rewrite forallb_forall in Hall. by apply Hall.
Qed.

End Spares.

(* ===================================================================== *)
(** * Properties: the claimed set                                         *)
(* ===================================================================== *)

Section Walker.
Context {collab : Collaborators}.
Import Opusconv.

(** Second pass: a file whose resolved path is claimed is skipped. *)
Lemma convert_standalone_claimed source_dir root cue_sources filename w :
  resolve (root // filename) ∈ cue_sources →
  convert_standalone source_dir root cue_sources filename w = (Py.Ok (), w).
Proof.
  intros Hin. unfold convert_standalone.
  destruct (get_bitrate _); [|done]. by rewrite decide_True.
Qed.

Lemma foldl_keeps {A} (f : gset Path → A → gset Path) (x : Path) l s :
  (∀ s' a, s' ⊆ f s' a) → x ∈ s → x ∈ foldl f s l.
Proof.
  intros Hf. revert s. induction l as [|a l IH]; intros s Hs; simpl; [done|].
  apply IH. by apply Hf.
Qed.

Lemma claim_refs_mono fs0 cue_path cue_sources :
  cue_sources ⊆ claim_refs fs0 cue_path cue_sources.
Proof.
  unfold claim_refs. destruct (negb _); [done|].
  intros x Hx. apply foldl_keeps; [|done].
  intros s' a. cbv beta. destruct (find_audio_for_cue _ _ a); set_solver.
Qed.

Lemma claim_refs_adds fs0 cue_path cue_sources ref_file audio_path :
  is_single_file (run_cueparse cue_path) = true →
  ref_file ∈ default [] (run_cueparse cue_path ≫= Cue.files) →
  find_audio_for_cue fs0 (PathOps.parent cue_path) ref_file = Some audio_path →
  resolve audio_path ∈ claim_refs fs0 cue_path cue_sources.
Proof.
  intros Hsingle Href Hfind. unfold claim_refs. rewrite Hsingle. simpl.
  revert Href. generalize (default [] (run_cueparse cue_path ≫= Cue.files)).
  intros refs. revert cue_sources.
  induction refs as [|r refs IH]; intros s Href; [by inversion Href|].
  apply elem_of_cons in Href as [<-|Href]; simpl; [|by apply IH].
  rewrite Hfind. apply foldl_keeps; [|set_solver].
  intros s' a. cbv beta. destruct (find_audio_for_cue _ _ a); set_solver.
Qed.

(** First pass: what a cue found by the glob refers to is claimed. *)
Lemma first_pass_claims fs0 source_dir cue_path ref_file audio_path :
  cue_path ∈ Os.rglob_cue fs0 source_dir →
  is_single_file (run_cueparse cue_path) = true →
  ref_file ∈ default [] (run_cueparse cue_path ≫= Cue.files) →
  find_audio_for_cue fs0 (PathOps.parent cue_path) ref_file = Some audio_path →
  resolve audio_path ∈ first_pass fs0 source_dir.
Proof.
  intros Hin Hsingle Href Hfind. unfold first_pass.
  generalize (∅ : gset Path). revert Hin. generalize (Os.rglob_cue fs0 source_dir).
  intros cues. induction cues as [|c cues IH]; intros Hin s;
    [by inversion Hin|].
  simpl. apply elem_of_cons in Hin as [<-|Hin]; [|by apply IH].
  apply foldl_keeps; [|by eapply claim_refs_adds].
  intros s' a. apply claim_refs_mono.
Qed.

Lemma emits_ret {A} P (v : A) w : emits P (mret v) w.
Proof. exists (Py.Ok v), w, []. by rewrite app_nil_r. Qed.

Lemma emits_same {A} P (m : M A) r w : m w = (r, w) → emits P m w.
Proof. intros E. exists r, w, []. by rewrite app_nil_r. Qed.

Lemma emits_emit (P : Event → Prop) e w : P e → emits P (St.emit e) w.
Proof.
  intros He. exists (Py.Ok ()), {| fs := fs w; trace := trace w ++ [e] |}, [e].
  repeat split. by constructor.
Qed.

Lemma emits_bind {A B} P (m : M A) (k : A → M B) w :
  emits P m w → (∀ v w', emits P (k v) w') → emits P (m ≫= k) w.
Proof.
  intros (r & w1 & log & E & Ht & Hlog) Hk. unfold emits, mbind, M_bind.
  rewrite E. destruct r as [v|e].
  - destruct (Hk v w1) as (r' & w2 & log' & E' & Ht' & Hlog').
    exists r', w2, (log ++ log'). rewrite E', Ht', Ht, <-app_assoc.
    repeat split. by apply Forall_app.
  - by exists (Py.Raise e), w1, log.
Qed.

Lemma emits_for_each {A} P (l : list A) (body : A → M unit) w :
  (∀ x w', x ∈ l → emits P (body x) w') → emits P (St.for_each l body) w.
Proof.
  revert w. induction l as [|x l IH]; intros w Hbody; simpl; [apply emits_ret|].
  apply emits_bind; [apply Hbody; by left|].
  intros _ w'. apply IH. intros y w'' Hy. apply Hbody. by right.
Qed.

Lemma emits_gets {A B} P (f : FS → A) (k : A → M B) w :
  emits P (k (f (fs w))) w → emits P (St.gets f ≫= k) w.
Proof. intros Hk. exact Hk. Qed.

Lemma emits_lift {A B} P (r : Py.result A) (k : A → M B) w :
  (∀ v, emits P (k v) w) → emits P (St.lift r ≫= k) w.
Proof.
  intros Hk. destruct r as [v|e]; [apply Hk|].
  by apply emits_same with (r := Py.Raise e).
Qed.

Lemma emits_update P (f : FS → Py.result FS) w : emits P (St.update f) w.
Proof.
  unfold emits, St.update. destruct (f (fs w)) as [fs1|e].
  - exists (Py.Ok ()), {| fs := fs1; trace := trace w |}, []. simpl.
    by rewrite app_nil_r.
  - exists (Py.Raise e), w, []. by rewrite app_nil_r.
Qed.

Lemma emits_run_opusencode (P : Event → Prop) input output bitrate start duration metadata w :
  (∀ c, enc_input c = input → enc_start c = start → P (Opusencode c)) →
  emits P (run_opusencode input output bitrate start duration metadata) w.
Proof.
  intros HP. unfold run_opusencode.
  apply emits_bind; [by apply emits_emit, HP|]. intros _ w1.
  apply emits_gets. case_decide; [|apply emits_ret].
  apply emits_bind; [apply emits_update|]. intros. apply emits_ret.
Qed.

Lemma emits_process_cue claimed cue_path dest_subdir w :
  emits (standalone_outside claimed) (process_cue cue_path dest_subdir) w.
Proof.
  unfold process_cue.
  destruct (run_cueparse cue_path) as [cue_data|]; [|apply emits_ret].
  destruct (negb _ || negb _); [apply emits_ret|].
  destruct (Cue.tracks cue_data) as [[|t ts]|]; try apply emits_ret.
  destruct (Cue.files cue_data) as [[|file0 fl]|]; try apply emits_ret.
  apply emits_gets. cbv beta.
  destruct (find_audio_for_cue _ _ _) as [source_audio|].
  - destruct (get_bitrate _) as [bitrate|]; [|apply emits_ret].
    apply emits_bind; [apply emits_update|]. intros _ w1.
    apply emits_bind; [|intros; apply emits_ret].
    apply emits_for_each. intros track w2 _. unfold process_track.
    apply emits_gets. cbv beta zeta. destruct (Os.exists_ _ _); [apply emits_ret|].
    apply emits_bind; [by apply emits_emit|]. intros _ w3.
    apply emits_bind.
    + apply emits_run_opusencode. intros c _ Hstart. simpl. by rewrite Hstart.
    + intros [] w4; [|apply emits_ret].
      apply emits_bind; [by apply emits_emit|]. intros. by apply emits_emit.
  - apply emits_bind; [by apply emits_emit|]. intros. apply emits_ret.
Qed.

Lemma emits_convert_cue claimed source_dir root filename w :
  emits (standalone_outside claimed) (convert_cue source_dir root filename) w.
Proof.
  unfold convert_cue. destruct (Py.endswith _ _); [|apply emits_ret].
  apply emits_lift. intros relative.
  destruct (is_single_file _); [|apply emits_ret].
  apply emits_bind; [by apply emits_emit|]. intros _ w1.
  apply emits_bind; [apply emits_process_cue|]. intros. apply emits_ret.
Qed.

Lemma emits_convert_standalone claimed source_dir root filename w :
  emits (standalone_outside claimed)
        (convert_standalone source_dir root claimed filename) w.
Proof.
  unfold convert_standalone.
  destruct (get_bitrate _) as [bitrate|]; [|apply emits_ret].
  case_decide as Hclaimed; [apply emits_ret|].
  apply emits_lift. intros relative. apply emits_lift. intros opus.
  apply emits_gets. cbv beta. destruct (Os.exists_ _ _); [apply emits_ret|].
  apply emits_bind; [by apply emits_emit|]. intros _ w1.
  apply emits_bind; [apply emits_update|]. intros _ w2.
  apply emits_bind.
  - apply emits_run_opusencode. intros c Hin _. simpl. by rewrite Hin.
  - intros [] w3; [|apply emits_ret].
    apply emits_bind; [by apply emits_emit|]. intros. by apply emits_emit.
Qed.

Lemma emits_print_then {B} (P : Event → Prop) line (k : () → M B) w :
  P (Stdout line) →
  emits P (k ()) {| fs := fs w; trace := trace w ++ [Stdout line] |} →
  emits P (St.print line ≫= k) w.
Proof.
  intros HP (r & w' & log & E & Ht & Hlog).
  exists r, w', (Stdout line :: log). split; [exact E|].
  simpl in Ht. rewrite Ht, <-app_assoc. split; [done|]. by constructor.
Qed.

(** The walker runs no whole-file transcode on a source its first pass
    has claimed. *)
Lemma convert_directory_spares_claimed source_dir w :
  emits (standalone_outside
           (first_pass (fs w) (resolve (PathOps.of_str source_dir))))
        (convert_directory source_dir) w.
Proof.
  unfold convert_directory. apply emits_gets. cbv beta.
  destruct (negb _); [by apply emits_emit|].
  do 3 (apply emits_print_then; [done|]).
  apply emits_gets. apply emits_gets. simpl.
  apply emits_bind; [|intros; by apply emits_emit].
  apply emits_for_each. intros [root files] w1 _.
  apply emits_bind.
  - apply emits_for_each. intros. apply emits_convert_cue.
  - intros _ w2. apply emits_for_each. intros. apply emits_convert_standalone.
Qed.

(** X20.  The claimed-set exclusion, for a cue the first pass finds.  When a
    single-file cue below
    the source directory has a name the glob [*.cue] matches and one
    of its referenced filenames resolves to an audio file, the walker
    runs no whole-file transcode on that file: every transcode it runs
    on a source with the same resolved path carries a start offset,
    that is, it is the transcode of a track. *)
Lemma claimed_source_not_transcoded source_dir w cue_path ref_file audio_path :
  cue_path ∈ Os.rglob_cue (fs w) (resolve (PathOps.of_str source_dir)) →
  is_single_file (run_cueparse cue_path) = true →
  ref_file ∈ default [] (run_cueparse cue_path ≫= Cue.files) →
  find_audio_for_cue (fs w) (PathOps.parent cue_path) ref_file = Some audio_path →
  ∃ r w' log,
    convert_directory source_dir w = (r, w')
    ∧ trace w' = trace w ++ log
    ∧ ∀ c, Opusencode c ∈ log →
           resolve (enc_input c) = resolve audio_path →
           is_Some (enc_start c).
Proof.
  intros Hcue Hsingle Href Hfind.
  destruct (convert_directory_spares_claimed source_dir w)
    as (r & w' & log & E & Ht & Hlog).
  exists r, w', log. split; [done|]. split; [done|].
  intros c Hc Hsame. rewrite Forall_forall in Hlog. specialize (Hlog _ Hc).
  simpl in Hlog. destruct (enc_start c); [by eexists|].
  destruct (Hlog eq_refl). rewrite Hsame. by eapply first_pass_claims.
Qed.


End Walker.

(** C7.  The walker on a tree with [album.CUE] (single-file, referring
    to [album.flac]) and [album.flac]: the cue's reference resolves to
    [album.flac], the first pass claims nothing because its glob
    [*.cue] does not match [album.CUE], the second pass takes
    [album.CUE] for a cue and splits [album.flac] into its tracks, and
    then transcodes [album.flac] once more as a standalone file. *)
Lemma walker_misses_uppercase_cue :
  let source := Fixtures.P "/music" in
  let cue := Fixtures.P "/music/album/album.CUE" in
  let flac := Fixtures.P "/music/album/album.flac" in
  let run := Opusconv.convert_directory (collab := Fixtures.upper_world) "/music"
               {| fs := Fixtures.upper_tree; trace := [] |} in
  Opusconv.is_single_file (Opusconv.run_cueparse (collab := Fixtures.upper_world) cue) = true
  ∧ Opusconv.find_audio_for_cue Fixtures.upper_tree (PathOps.parent cue) "album.flac"
    = Some flac
  ∧ Os.rglob_cue Fixtures.upper_tree source = []
  ∧ Opusconv.first_pass (collab := Fixtures.upper_world) Fixtures.upper_tree source = ∅
  ∧ run.1 = Py.Ok ()
  ∧ Stdout "[CUE] music/album/album.CUE" ∈ trace run.2
  ∧ Opusencode
      {| enc_input := flac;
         enc_output := Fixtures.P "/home/alice/opus/music/album/01 - Intro.opus";
         enc_bitrate := "96k"; enc_start := Some (Int 0);
         enc_duration := Some (Float "12.5");
         enc_meta := [("title", "Intro"); ("album", "Album"); ("track", "01/2")] |}
    ∈ trace run.2
  ∧ Opusencode
      {| enc_input := flac;
         enc_output := Fixtures.P "/home/alice/opus/music/album/album.opus";
         enc_bitrate := "96k"; enc_start := None; enc_duration := None;
         enc_meta := [] |} ∈ trace run.2.
Proof.
  cbv zeta. repeat split; try (vm_compute; reflexivity);
    apply list_elem_of_In; vm_compute; tauto.
Qed.

(* ===================================================================== *)
(** * Properties: the cover refresh cycle                                 *)
(* ===================================================================== *)

Section Refresh.
Import Mutagen Coverfix.
Context {codec : Codec}.


Lemma mapM_cons_ok {A B} (f : A → Py.result B) x l ys :
  mapM f (x :: l) = Py.Ok ys →
  ∃ y ys', f x = Py.Ok y ∧ mapM f l = Py.Ok ys' ∧ ys = y :: ys'.
Proof.
  simpl. unfold mbind, result_bind, Py.bind, mret, result_ret.
  destruct (f x) as [y|]; [|done]. destruct (mapM f l) as [ys'|]; [|done].
  intros [= <-]. by exists y, ys'.
Qed.

Lemma refresh_loop_decoded b64_pictures ps new_pictures modified :
  mapM decode_block b64_pictures = Py.Ok ps →
  refresh_loop b64_pictures new_pictures modified
  = Py.Ok (new_pictures ++ ((λ p, b64encode (Picture_write (corrected p))) <$> ps),
           modified || existsb (λ p, bool_decide (type p ≠ 3%N)) ps).
Proof.
  revert ps new_pictures modified.
  induction b64_pictures as [|v vs IH]; intros ps acc m Hps.
  - injection Hps as <-. simpl. by rewrite app_nil_r, orb_false_r.
  - apply mapM_cons_ok in Hps as (p & ps' & Hp & Hps' & ->).
    unfold decode_block in Hp. simpl.
    unfold mbind, result_bind, Py.bind in *.
    destruct (b64decode v) as [raw|]; [|done]. rewrite Hp.
    unfold corrected at 1. destruct (decide (type p ≠ 3%N)) as [Hne|Heq].
    + rewrite (IH ps' _ true Hps'), <-app_assoc. simpl.
      by rewrite bool_decide_eq_true_2, orb_true_r.
    + rewrite (IH ps' _ m Hps'), <-app_assoc. simpl.
      by rewrite bool_decide_eq_false_2.
Qed.

Lemma mapM_decoded (qs : list Picture) :
  (∀ q, q ∈ qs → decode_block (b64encode (Picture_write q)) = Py.Ok q) →
  mapM decode_block ((λ q, b64encode (Picture_write q)) <$> qs) = Py.Ok qs.
Proof.
  induction qs as [|q qs IH]; intros Hround; [done|].
  rewrite fmap_cons.
  change (mapM decode_block (?x :: ?l))
    with (y ← decode_block x; k ← mapM decode_block l; mret (y :: k)).
  rewrite (Hround q) by (by left). rewrite IH; [done|].
  intros q' Hq'. apply Hround. by right.
Qed.

Lemma corrected_type p : type (corrected p) = 3%N.
Proof.
  unfold corrected. destruct (decide (type p ≠ 3%N)) as [|Heq]; [done|].
  by apply dec_stable in Heq.
Qed.

(** C1 (amended).  For an Opus file that opens: without a
    picture-block field, refresh returns ["skip"] and leaves the disk
    as it is.  With the field, when every stored value decodes to a
    picture block: refresh returns ["fixed"] if some block has a role
    other than 3 and ["refreshed"] if every block has role 3; the field
    then holds the encodings of the same blocks in the same order,
    where a block that had another role has role 3 and description
    ["Front Cover"] and is otherwise unchanged, and a block that had
    role 3 is unchanged, its description included.  Where the codec
    reads back what it wrote, these are the blocks the file stores
    afterwards. *)
Theorem refresh_cover_outcome disk filepath t
    (Hopen : disk !! filepath = Some t) :
  (t !! "metadata_block_picture" = None →
     refresh_cover filepath disk = ("skip", disk))
  ∧ (∀ b64_pictures ps,
       t !! "metadata_block_picture" = Some b64_pictures →
       mapM decode_block b64_pictures = Py.Ok ps →
       ∃ status qs,
         refresh_cover filepath disk
         = (status,
            <[filepath :=
                vc_setitem "metadata_block_picture"
                  ((λ q, b64encode (Picture_write q)) <$> qs)
                  (delete "metadata_block_picture" t)]> disk)
         ∧ (status = "fixed" ↔ ∃ p, p ∈ ps ∧ type p ≠ 3%N)
         ∧ (status = "refreshed" ↔ ∀ p, p ∈ ps → type p = 3%N)
         ∧ Forall2
             (λ p q,
                type q = 3%N
                ∧ (type p = 3%N → q = p)
                ∧ (type p ≠ 3%N →
                   q = set_desc "Front Cover" (set_type 3 p)
                   ∧ desc q = "Front Cover" ∧ mime q = mime p
                   ∧ data q = data p))
             ps qs
         ∧ ((∀ p, p ∈ ps → type p = 3%N) → qs = ps)
         ∧ (qs ≠ [] →
            (∀ q, q ∈ qs → decode_block (b64encode (Picture_write q)) = Py.Ok q) →
            stored_pictures (refresh_cover filepath disk).2 filepath = Some qs)).
Proof.
  split.
  - intros Hnone. unfold refresh_cover, refresh_cover_try, OggOpus.
    rewrite Hopen. simpl. by rewrite Hnone.
  - intros vs ps Hsome Hps.
    exists (if existsb (λ p, bool_decide (type p ≠ 3%N)) ps then "fixed" else "refreshed"),
           (corrected <$> ps).
    assert (refresh_cover filepath disk
            = (if existsb (λ p, bool_decide (type p ≠ 3%N)) ps
               then "fixed" else "refreshed",
               <[filepath :=
                   vc_setitem "metadata_block_picture"
                     ((λ q, b64encode (Picture_write q)) <$> (corrected <$> ps))
                     (delete "metadata_block_picture" t)]> disk)) as Hrun.
    { unfold refresh_cover, refresh_cover_try, OggOpus. rewrite Hopen. simpl.
      rewrite Hsome, (refresh_loop_decoded vs ps [] false Hps). simpl.
      unfold save, set_tag, del_tag. simpl.
      by rewrite insert_insert_eq, <-list_fmap_compose. }
    split; [done|]. split; [|split; [|split; [|split]]].
    + destruct (existsb _ ps) eqn:Hex.
      * split; [intros _|done]. apply existsb_exists in Hex as (p & Hp & Hne).
        exists p. split; [by apply list_elem_of_In|].
        by apply bool_decide_eq_true in Hne.
      * split; [done|]. intros (p & Hp & Hne).
        assert (existsb (λ p, bool_decide (type p ≠ 3%N)) ps = true); [|congruence].
        apply existsb_exists. exists p. split; [by apply list_elem_of_In|].
        by apply bool_decide_eq_true.
    + destruct (existsb _ ps) eqn:Hex.
      * split; [done|]. intros Hall.
        apply existsb_exists in Hex as (p & Hp & Hne).
        apply bool_decide_eq_true in Hne. destruct Hne.
        by apply Hall, list_elem_of_In.
      * split; [intros _|done]. intros p Hp.
        destruct (decide (type p = 3%N)) as [|Hne]; [done|].
        assert (existsb (λ p, bool_decide (type p ≠ 3%N)) ps = true); [|congruence].
        apply existsb_exists. exists p. split; [by apply list_elem_of_In|].
        by apply bool_decide_eq_true.
    + apply Forall2_fmap_r, Forall_Forall2_diag, Forall_forall. intros p _.
      split; [apply corrected_type|]. unfold corrected.
      destruct (decide (type p ≠ 3%N)); [by split|]. split; [done|]. by intros ?.
    + intros Hall. rewrite <-(list_fmap_id ps) at 2. apply Forall_fmap_ext_1.
      apply Forall_forall. intros p Hp. unfold corrected.
      rewrite decide_False; [done|]. intros Hne. by apply Hne, Hall.
    + intros Hne Hround. rewrite Hrun. simpl. unfold stored_pictures.
      rewrite lookup_insert_eq. simpl.
      destruct (corrected <$> ps) as [|q qs] eqn:Hqs; [done|].
      unfold vc_setitem. simpl. rewrite lookup_insert_eq.
      pose proof (mapM_decoded (q :: qs) Hround) as Hback.
      simpl in *. by rewrite Hback.
Qed.

End Refresh.

(* ===================================================================== *)
(** * Properties: cover extraction and embedding                          *)
(* ===================================================================== *)

Section Extract.
Import Mutagen Covercp.
Variable File : string → Py.result (option Audio).

(** The loop over the keys stops at the first key with the prefix. *)
Lemma apic_loop_first t keys i key :
  keys !! i = Some key →
  Py.startswith key "APIC:" = true →
  (∀ j key', (j < i)%nat → keys !! j = Some key' → Py.startswith key' "APIC:" = false) →
  apic_loop t keys = Some (v ← getitem t key; get_data v).
Proof.
  revert i. induction keys as [|k keys IH]; intros i Hi Hkey Hbefore; [done|].
  destruct i as [|i]; simpl in *.
  - injection Hi as ->. by rewrite Hkey.
  - rewrite (Hbefore 0%nat k); [|lia|done]. apply (IH i); [done|done|].
    intros j key' Hj Hk'. apply (Hbefore (S j)); [lia|done].
Qed.

Lemma apic_loop_none t keys :
  (∀ key, key ∈ keys → Py.startswith key "APIC:" = false) →
  apic_loop t keys = None.
Proof.
  induction keys as [|k keys IH]; intros Hnone; [done|]. simpl.
  rewrite Hnone; [|by left]. apply IH. intros key Hk. apply Hnone. by right.
Qed.

(** Lookup by key returns the first entry under that key. *)
Lemma getitem_first (t : list (string * TagValue)) i key v :
  t !! i = Some (key, v) →
  (∀ j key' v', (j < i)%nat → t !! j = Some (key', v') → key' ≠ key) →
  getitem t key = Py.Ok v.
Proof.
  revert i. induction t as [|[k x] t IH]; intros i Hi Hbefore; [done|].
  destruct i as [|i]; simpl in *.
  - injection Hi as -> ->. by rewrite decide_True.
  - rewrite decide_False; [|by apply (Hbefore 0%nat k x); [lia|]].
    apply (IH i); [done|]. intros j key' v' Hj Hk'.
    apply (Hbefore (S j) key' v'); [lia|done].
Qed.

Lemma getitem_missing (t : list (string * TagValue)) key :
  key ∉ t.*1 → ∃ e, getitem t key = Py.Raise e.
Proof.
  induction t as [|[k x] t IH]; intros Hnot; simpl; [by eexists|].
  rewrite decide_False; [|intros ->; apply Hnot; by left].
  apply IH. intros Hin. apply Hnot. by right.
Qed.


(** The scan of the keys reads the [data] of the first tag whose key has
    the prefix. *)
Lemma apic_loop_tag (t : list (string * TagValue)) i key v :
  t !! i = Some (key, v) →
  Py.startswith key "APIC:" = true →
  (∀ j key' v', (j < i)%nat → t !! j = Some (key', v') →
                Py.startswith key' "APIC:" = false) →
  apic_loop t t.*1 = Some (get_data v).
Proof.
  intros Hi Hkey Hbefore.
  rewrite (apic_loop_first t t.*1 i key); [| |done|].
  - rewrite (getitem_first t i key v); [done|done|].
    intros j key' v' Hj Hj' ->. specialize (Hbefore j key v' Hj Hj'). congruence.
  - by rewrite list_lookup_fmap, Hi.
  - intros j key' Hj. rewrite list_lookup_fmap.
    destruct (t !! j) as [[k x]|] eqn:Hj'; [|done]. intros [= <-]. eauto.
Qed.

(** C2.  Extraction dispatches in a fixed order and returns the first
    match: (1) a non-empty picture list gives the first picture's
    bytes; (2) otherwise the first tag whose key starts with [APIC:]
    gives that frame's bytes; (3) otherwise a non-empty [covr] list
    gives its first entry's bytes; (4) otherwise the result is [None].
    (5) An exception raised while opening or scanning is caught: the
    function, which is total, returns [None] and writes a warning; so
    it does when the first tag with the prefix has no [data]. *)
Theorem extract_cover_dispatch source_path :
  (* (1) *)
  (∀ audio pic rest,
     File source_path = Py.Ok (Some audio) →
     pictures audio = Some (pic :: rest) →
     extract_cover File source_path = (Some (data pic), []))
  (* (2) *)
  ∧ (∀ audio t i key d,
       File source_path = Py.Ok (Some audio) →
       no_pictures audio →
       tags audio = Some (Some t) →
       t !! i = Some (key, Frame (Some d)) →
       Py.startswith key "APIC:" = true →
       (∀ j key' v', (j < i)%nat → t !! j = Some (key', v') →
                     Py.startswith key' "APIC:" = false) →
       extract_cover File source_path = (Some d, []))
  ∧ (∀ audio t i key v e,
       File source_path = Py.Ok (Some audio) →
       no_pictures audio →
       tags audio = Some (Some t) →
       t !! i = Some (key, v) →
       Py.startswith key "APIC:" = true →
       (∀ j key' v', (j < i)%nat → t !! j = Some (key', v') →
                     Py.startswith key' "APIC:" = false) →
       get_data v = Py.Raise e →
       extract_cover File source_path
       = (None, ["Warning: Could not extract cover: " +:+ e]))
  (* (3) *)
  ∧ (∀ audio t i b rest,
       File source_path = Py.Ok (Some audio) →
       no_pictures audio →
       tags audio = Some (Some t) →
       no_apic_key t →
       t !! i = Some ("covr", Values (Cover b :: rest)) →
       (∀ j key' v', (j < i)%nat → t !! j = Some (key', v') → key' ≠ "covr") →
       extract_cover File source_path = (Some b, []))
  (* (4) *)
  ∧ (File source_path = Py.Ok None →
     extract_cover File source_path = (None, []))
  ∧ (∀ audio,
       File source_path = Py.Ok (Some audio) →
       no_pictures audio →
       tags audio = None ∨ tags audio = Some None
       ∨ (∃ t, tags audio = Some (Some t) ∧ no_apic_key t
               ∧ ("covr" ∉ t.*1 ∨ getitem t "covr" = Py.Ok (Values []))) →
       extract_cover File source_path = (None, []))
  (* (5) *)
  ∧ (∀ e, File source_path = Py.Raise e →
          extract_cover File source_path
          = (None, ["Warning: Could not extract cover: " +:+ e]))
  ∧ (∀ e, extract_cover_try File source_path = Py.Raise e →
          extract_cover File source_path
          = (None, ["Warning: Could not extract cover: " +:+ e])).
Proof.
  unfold extract_cover, extract_cover_try.
  split; [|split; [|split; [|split; [|split; [|split; [|split]]]]]].
  - intros audio pic rest -> Hpics. simpl. by rewrite Hpics.
  - intros audio t i key d -> Hnopic Htags Hi Hkey Hbefore. simpl.
    rewrite Htags, (apic_loop_tag t i key _ Hi Hkey Hbefore).
    by destruct Hnopic as [-> | ->].
  - intros audio t i key v e -> Hnopic Htags Hi Hkey Hbefore Hdata. simpl.
    rewrite Htags, (apic_loop_tag t i key _ Hi Hkey Hbefore), Hdata.
    by destruct Hnopic as [-> | ->].
  - intros audio t i b rest -> Hnopic Htags Hnoapic Hi Hbefore. simpl.
    rewrite Htags, (apic_loop_none t t.*1 Hnoapic).
    rewrite bool_decide_eq_true_2.
    + rewrite (getitem_first t i "covr" _ Hi Hbefore). simpl.
      by destruct Hnopic as [-> | ->].
    + apply list_elem_of_lookup. exists i. by rewrite list_lookup_fmap, Hi.
  - by intros ->.
  - intros audio -> Hnopic Htags. simpl.
    destruct Htags as [-> | [-> | (t & -> & Hnoapic & Hcovr)]];
      [by destruct Hnopic as [-> | ->]..|].
    rewrite (apic_loop_none t t.*1 Hnoapic).
    destruct Hcovr as [Hnot | Hempty].
    + rewrite bool_decide_eq_false_2 by done. by destruct Hnopic as [-> | ->].
    + case_bool_decide; rewrite ?Hempty; simpl; by destruct Hnopic as [-> | ->].
  - by intros e ->.
  - by intros e ->.
Qed.

End Extract.

Section Embed.
Import Mutagen Covercp.
Context {codec : Codec}.

Lemma take_eq_prefix {A} (p l : list A) :
  take (length p) l = p ↔ p `prefix_of` l.
Proof.
  split.
  - intros <-. apply prefix_take.
  - intros [k ->]. by rewrite take_app_length.
Qed.


(** C3.  Embedding into a file that opens stores one picture block:
    role 3, description ["Front Cover"], the image bytes as they came,
    dimensions zero, and as MIME type [image/jpeg] when the bytes begin
    with FF D8 FF, [image/png] when they begin with
    89 50 4E 47 0D 0A 1A 0A, and [image/jpeg] for any other bytes. *)
Theorem embed_cover_block disk dest_path image_data t
    (Hopen : disk !! dest_path = Some t) :
  ∃ sniffed,
    embed_cover dest_path image_data disk
    = (true,
       <[dest_path :=
           <["metadata_block_picture" :=
               [b64encode (Picture_write
                  {| type := 3; mime := sniffed; desc := "Front Cover";
                     width := 0; height := 0; depth := 0; colors := 0;
                     data := image_data |})]]> t]> disk,
       [])
    ∧ ([xff; xd8; xff] `prefix_of` image_data → sniffed = "image/jpeg")
    ∧ ([x89; x50; x4e; x47; x0d; x0a; x1a; x0a] `prefix_of` image_data →
       sniffed = "image/png")
    ∧ (¬ [xff; xd8; xff] `prefix_of` image_data →
       ¬ [x89; x50; x4e; x47; x0d; x0a; x1a; x0a] `prefix_of` image_data →
       sniffed = "image/jpeg").
Proof.
  unfold embed_cover, OggOpus. rewrite Hopen.
  destruct (decide (take 3 image_data = [xff; xd8; xff])) as [Hj|Hj].
  - exists "image/jpeg". repeat split; try done.
    intros [k Hk]. apply (take_eq_prefix [xff; xd8; xff]) in Hj as [k' Hk'].
    rewrite Hk in Hk'. discriminate.
  - destruct (decide (take 8 image_data = [x89; x50; x4e; x47; x0d; x0a; x1a; x0a]))
      as [Hp|Hp].
    + exists "image/png". repeat split; try done.
      * intros Hpre. destruct Hj. by apply (take_eq_prefix [xff; xd8; xff]).
      * intros _ Hnp. destruct Hnp.
        by apply (take_eq_prefix [x89; x50; x4e; x47; x0d; x0a; x1a; x0a]).
    + exists "image/jpeg". repeat split; try done.
      intros Hpre. destruct Hp.
      by apply (take_eq_prefix [x89; x50; x4e; x47; x0d; x0a; x1a; x0a]).
Qed.

End Embed.

(* ===================================================================== *)
(** * Sample runs                                                         *)
(* ===================================================================== *)

(** The original wording of C1 fails on a file that stores a front
    cover described as "scan" next to a back cover: refresh returns
    ["fixed"], the back cover gets role 3 and ["Front Cover"], and the
    front cover keeps the description "scan". *)
Lemma refresh_mixed_roles_counterexample :
  ¬ (∀ disk filepath ps,
       Coverfix.stored_pictures (codec := Wire.codec) disk filepath = Some ps →
       (∃ p, p ∈ ps ∧ Mutagen.type p ≠ 3%N) →
       (Coverfix.refresh_cover (codec := Wire.codec) filepath disk).1 = "fixed"
       ∧ ∃ qs,
           Coverfix.stored_pictures (codec := Wire.codec)
             (Coverfix.refresh_cover (codec := Wire.codec) filepath disk).2 filepath
           = Some qs
           ∧ ∀ q, q ∈ qs → Mutagen.type q = 3%N ∧ Mutagen.desc q = "Front Cover").
Proof.
  intros Hclaim.
  destruct (Hclaim Fixtures.disk "two.opus" [Fixtures.front_scan; Fixtures.back_cover])
    as (_ & qs & Hqs & Hall).
  - vm_compute. reflexivity.
  - exists Fixtures.back_cover. split; [by right; left|]. discriminate.
  - vm_compute in Hqs. injection Hqs as <-.
    destruct (Hall Fixtures.front_scan) as [_ Hdesc]; [by left|]. discriminate.
Qed.

Lemma refresh_cover_outcome_witness :
  (Coverfix.refresh_cover (codec := Wire.codec) "two.opus" Fixtures.disk).1 = "fixed"
  ∧ Coverfix.stored_pictures (codec := Wire.codec)
      (Coverfix.refresh_cover (codec := Wire.codec) "two.opus" Fixtures.disk).2
      "two.opus"
    = Some [Fixtures.front_scan;
            Mutagen.set_desc "Front Cover" (Mutagen.set_type 3 Fixtures.back_cover)]
  ∧ Coverfix.refresh_cover (codec := Wire.codec) "none.opus" Fixtures.disk
    = ("skip", Fixtures.disk).
Proof.
  destruct (proj2 (refresh_cover_outcome (codec := Wire.codec) Fixtures.disk "two.opus"
                     Fixtures.two_covers ltac:(vm_compute; reflexivity))
              [Fixtures.front_scan_b64; Fixtures.back_cover_b64]
              [Fixtures.front_scan; Fixtures.back_cover]
              ltac:(vm_compute; reflexivity) ltac:(vm_compute; reflexivity))
    as (status & qs & E & Hfixed & _ & Hblocks & _ & Hstored).
  assert (qs = [Fixtures.front_scan;
                Mutagen.set_desc "Front Cover" (Mutagen.set_type 3 Fixtures.back_cover)])
    as ->.
  { inversion Hblocks as [|p q ps' qs' (_ & Hsame & _) Hrest]; subst.
    inversion Hrest as [|p' q' ps'' qs'' (_ & _ & Hforced) Hnil]; subst.
    inversion Hnil; subst.
    rewrite (Hsame eq_refl). by destruct Hforced as [-> _]. }
  split; [|split].
  - rewrite E. simpl. apply Hfixed. exists Fixtures.back_cover.
    split; [right; left|discriminate].
  - apply Hstored; [discriminate|].
    intros q Hq. repeat (apply elem_of_cons in Hq as [->|Hq]; [vm_compute; reflexivity|]).
    by apply elem_of_nil in Hq.
  - apply (proj1 (refresh_cover_outcome (codec := Wire.codec) Fixtures.disk "none.opus"
                    Fixtures.no_cover ltac:(vm_compute; reflexivity))).
    vm_compute. reflexivity.
Defined.

Lemma extract_cover_dispatch_witness :
  Covercp.extract_cover Fixtures.File "a.mp3" = (Some Fixtures.jpeg_head, []).
Proof.
  apply (proj1 (proj2 (extract_cover_dispatch Fixtures.File "a.mp3"))
           Fixtures.mp3_audio
           [("TIT2", Covercp.Frame None);
            ("APIC:cover", Covercp.Frame (Some Fixtures.jpeg_head));
            ("APIC:back", Covercp.Frame (Some Fixtures.png_magic))]
           1%nat "APIC:cover" Fixtures.jpeg_head).
  - reflexivity.
  - left. reflexivity.
  - reflexivity.
  - reflexivity.
  - reflexivity.
  - intros [|j] key' v' Hj Hlook; [|lia]. injection Hlook as <- <-. reflexivity.
Defined.

Lemma embed_cover_block_witness :
  ∃ disk',
    Covercp.embed_cover (codec := Wire.codec) "none.opus" Fixtures.png_magic Fixtures.disk
    = (true, disk', [])
    ∧ Coverfix.stored_pictures (codec := Wire.codec) disk' "none.opus"
      = Some [{| Mutagen.type := 3; Mutagen.mime := "image/png";
                 Mutagen.desc := "Front Cover"; Mutagen.width := 0;
                 Mutagen.height := 0; Mutagen.depth := 0; Mutagen.colors := 0;
                 Mutagen.data := Fixtures.png_magic |}].
Proof.
  destruct (embed_cover_block (codec := Wire.codec) Fixtures.disk "none.opus"
              Fixtures.png_magic Fixtures.no_cover ltac:(vm_compute; reflexivity))
    as (sniffed & E & _ & Hpng & _).
  rewrite (Hpng ltac:(by exists [])) in E.
  eexists. split; [exact E|]. vm_compute. reflexivity.
Defined.

Lemma existing_destination_not_transcoded_witness :
  ∃ r log,
    Opusconv.convert_directory (collab := Fixtures.lower_world) "/music"
      {| fs := Fixtures.converted_tree; trace := [] |}
    = (r, {| fs := Fixtures.converted_tree; trace := [] ++ log |})
    ∧ forallb Opusconv.is_print log = true.
Proof.
  apply (proj2 (proj2 (proj2 (existing_destination_not_transcoded
                                (collab := Fixtures.lower_world))))
           "/music" {| fs := Fixtures.converted_tree; trace := [] |}).
  vm_compute. reflexivity.
Defined.

(* ===================================================================== *)
(** * Sample runs of the splitter                                         *)
(* ===================================================================== *)





(** The original wording of C6 fails for a track whose number the cue
    sheet gives as ["3"]: the transcode writes ["3 - x.opus"], not the
    zero-padded ["03 - x.opus"]. *)
Lemma track_output_name_counterexample :
  Cuesplit.zero_padded "3" = "03"
  ∧ ∃ c tail w',
      Cuesplit.process_track (system := Posix.system [] Posix.encoder_ok)
        Fixtures.album_cue (Fixtures.P "/music/album/album.flac") "96k"
        (Fixtures.P "/home/alice/opus/music/album") 1 Posix.unpadded
        {| Cuesplit.state := Fixtures.lower_tree; Cuesplit.log := [] |}
      = (Py.Ok (), w')
      ∧ Cuesplit.log w' = Stdout "    [3/1] x" :: Opusencode c :: tail
      ∧ enc_output c = Fixtures.P "/home/alice/opus/music/album" // "3 - x.opus"
      ∧ enc_output c
        ≠ Fixtures.P "/home/alice/opus/music/album"
            // (Cuesplit.zero_padded "3" +:+ " - " +:+ "x" +:+ ".opus").
Proof.
  split; [done|]. eexists _, _, _. split; [vm_compute; reflexivity|].
  split; [reflexivity|]. split; [vm_compute; reflexivity|]. vm_compute. discriminate.
Qed.

Lemma track_output_name_witness :
  ∃ r w' c tail,
    Cuesplit.process_track (system := Posix.system [] Posix.encoder_ok)
      Fixtures.album_cue (Fixtures.P "/music/album/album.flac") "96k"
      (Fixtures.P "/home/alice/opus/music/album") 2 Posix.song
      {| Cuesplit.state := Fixtures.lower_tree; Cuesplit.log := [] |}
    = (r, w')
    ∧ Cuesplit.log w'
      = [] ++ Stdout "    [02/2] My Song: Pt. 1/2" :: Opusencode c :: tail
    ∧ enc_input c = Fixtures.P "/music/album/album.flac"
    ∧ enc_output c
      = Fixtures.P "/home/alice/opus/music/album" // "02 - My Song_ Pt. 1_2.opus"
    ∧ Forall (λ e, Cuesplit.is_transcode e = false) tail.
Proof.
  apply (proj1 (track_output_name (system := Posix.system [] Posix.encoder_ok))
           Fixtures.album_cue (Fixtures.P "/music/album/album.flac") "96k"
           (Fixtures.P "/home/alice/opus/music/album") 2%nat Posix.song
           {| Cuesplit.state := Fixtures.lower_tree; Cuesplit.log := [] |}).
  - vm_compute. reflexivity.
  - reflexivity.
Defined.



(** A cue all of whose tracks fail to transcode: the splitter returns
    success. *)
Lemma process_cue_result_witness :
  ∃ w',
    Cuesplit.process_cue
      (system := Posix.system [("/music/album/album.cue", Fixtures.album_cue)]
                   Posix.encoder_fails)
      (Fixtures.P "/music/album/album.cue") (Fixtures.P "/home/alice/opus/music/album")
      {| Cuesplit.state := Fixtures.lower_tree; Cuesplit.log := [] |}
    = (Py.Ok true, w')
    ∧ (true = false
       ↔ ∃ p, Cuesplit.first_unmet
                (system := Posix.system [("/music/album/album.cue", Fixtures.album_cue)]
                             Posix.encoder_fails)
                (Fixtures.P "/music/album/album.cue") Fixtures.lower_tree
              = Py.Ok (Some p)).
Proof.
  eexists. split; [vm_compute; reflexivity|].
  eapply (process_cue_result
            (system := Posix.system [("/music/album/album.cue", Fixtures.album_cue)]
                         Posix.encoder_fails)
            (Fixtures.P "/music/album/album.cue")
            (Fixtures.P "/home/alice/opus/music/album")
            {| Cuesplit.state := Fixtures.lower_tree; Cuesplit.log := [] |}).
  vm_compute. reflexivity.
Defined.

(* ===================================================================== *)
(** * Further properties: file-name sanitizing                            *)
(* ===================================================================== *)

Section Sanitize.
Import Opusconv.

Local Abbreviation letters := list_ascii_of_string.

Lemma lstrip_fixed s : Py.starts_space s = false → Py.lstrip s = s.
Proof. apply lstrip_by_id. Qed.

Lemma rstrip_fixed s : Py.ends_space s = false → Py.rstrip s = s.
Proof.
  intros Hs. unfold Py.rstrip. rewrite lstrip_by_id by done. apply rev_rev.
Qed.

(** Stripping twice is stripping once. *)
Lemma strip_strip s : Py.strip (Py.strip s) = Py.strip s.
Proof.
  destruct (strip_split s) as (l & r & _ & _ & _ & Hh & Ht).
  unfold Py.strip at 1. rewrite (lstrip_fixed _ Hh). by apply rstrip_fixed.
Qed.

Lemma sub_class_letters cls repl s :
  letters (Py.sub_class cls repl s) = (λ c, if cls c then repl else c) <$> letters s.
Proof. induction s as [|c s IH]; simpl; [done|]. by rewrite IH. Qed.

(** Where no character is in the class the substitution changes
    nothing. *)
Lemma sub_class_clean cls repl s :
  Forall (λ c, cls c = false) (letters s) → Py.sub_class cls repl s = s.
Proof.
  induction s as [|c s IH]; simpl; [done|]. intros [Hc Hs]%Forall_cons.
  by rewrite Hc, IH.
Qed.

Lemma substituted_clean s :
  Forall (λ c, illegal c = false) (letters (Py.sub_class illegal "_" s)).
Proof.
  rewrite sub_class_letters. apply Forall_fmap, Forall_forall. intros c _. simpl.
  destruct (illegal c) eqn:Hc; [|done]. vm_compute. reflexivity.
Qed.

Lemma strip_letters s :
  ∃ l r, letters s = l ++ letters (Py.strip s) ++ r.
Proof.
  destruct (strip_split s) as (l & r & E & _).
  exists (letters l), (letters r). rewrite E at 1. by rewrite !chars_app.
Qed.

Lemma letters_length s : length (letters s) = String.length s.
Proof. induction s as [|c s IH]; simpl; [done|]. by rewrite IH. Qed.

(** A sanitized name holds no character of the class. *)
Lemma sanitized_letters name :
  Forall (λ c, illegal c = false) (letters (sanitize_filename name)).
Proof.
  unfold sanitize_filename.
  set (replaced := Py.sub_class illegal "_" name).
  destruct (strip_letters replaced) as (l & r & E).
  pose proof (substituted_clean name) as Hall. fold replaced in Hall.
  rewrite E in Hall. by apply Forall_app in Hall as [_ [? _]%Forall_app].
Qed.

(** X1.  A sanitized name holds none of the nine characters of the
    class (in particular no path separator), is never longer than the
    name it came from, and sanitizing it again changes nothing. *)
Theorem sanitize_filename_clean name :
  Forall (λ c, c ∉ illegal_chars) (letters (sanitize_filename name))
  ∧ (String.length (sanitize_filename name) ≤ String.length name)%nat
  ∧ sanitize_filename (sanitize_filename name) = sanitize_filename name.
Proof.
  pose proof (sanitized_letters name) as Hclean. unfold sanitize_filename in *.
  set (replaced := Py.sub_class illegal "_" name) in *.
  destruct (strip_letters replaced) as (l & r & E).
  split; [|split].
  - eapply Forall_impl; [exact Hclean|]. intros c Hc Hin. simpl in Hc.
    unfold illegal in Hc. by apply bool_decide_eq_false in Hc.
  - rewrite <-(sub_class_length illegal "_" name). fold replaced.
    rewrite <-!letters_length, E, !length_app. lia.
  - rewrite (sub_class_clean _ _ _ Hclean). apply strip_strip.
Qed.

End Sanitize.

(* ===================================================================== *)
(** * Further properties: paths                                           *)
(* ===================================================================== *)

Section PathFacts.

Local Abbreviation letters := list_ascii_of_string.

(** A string without path separator. *)
Local Abbreviation no_slash s := (Forall (λ c, c ≠ "/"%char) (list_ascii_of_string s)).

Lemma append_cons c s t : String c s +:+ t = String c (s +:+ t).
Proof. reflexivity. Qed.

Lemma append_nil_l t : EmptyString +:+ t = t.
Proof. reflexivity. Qed.

Lemma append_assoc s t u : (s +:+ t) +:+ u = s +:+ t +:+ u.
Proof. apply chars_inj. by rewrite !chars_app, app_assoc. Qed.

Lemma append_length s t : String.length (s +:+ t) = (String.length s + String.length t)%nat.
Proof. induction s as [|c s IH]; [done|]. rewrite append_cons. simpl. by rewrite IH. Qed.

Lemma rev_app_append b cur : String.rev (String.rev_app b cur) = String.rev cur +:+ b.
Proof.
  apply chars_inj. rewrite chars_rev, chars_rev_app, chars_app, chars_rev.
  by rewrite reverse_app, reverse_involutive.
Qed.

(** Splitting at separators a text without any gives the text. *)
Lemma split_slash_go_plain cur b :
  no_slash b → Py.split_slash_go cur b = [String.rev cur +:+ b].
Proof.
  revert cur. induction b as [|c b IH]; intros cur Hb; simpl.
  - f_equal. apply chars_inj. by rewrite chars_app, app_nil_r.
  - apply Forall_cons in Hb as [Hc Hb]. rewrite decide_False by done.
    rewrite (IH _ Hb). f_equal. apply chars_inj.
    rewrite !chars_app, !chars_rev. simpl. by rewrite reverse_cons, <-app_assoc.
Qed.

(** The last piece of a split text ends with the separator-free tail of
    the text. *)
Lemma split_slash_go_tail cur a b :
  no_slash b → ∃ init c, Py.split_slash_go cur (a +:+ b) = init ++ [c +:+ b].
Proof.
  intros Hb. revert cur. induction a as [|x a IH]; intros cur.
  - exists [], (String.rev cur). rewrite append_nil_l. by apply split_slash_go_plain.
  - rewrite append_cons. simpl. case_decide.
    + destruct (IH EmptyString) as (init & c & ->). by exists (String.rev cur :: init), c.
    + apply IH.
Qed.

Lemma split_slash_pieces cur s x :
  x ∈ Py.split_slash_go cur s → no_slash cur → no_slash x.
Proof.
  revert cur. induction s as [|c s IH]; intros cur Hx Hcur; simpl in Hx.
  - apply list_elem_of_singleton in Hx as ->. rewrite chars_rev.
    by apply Forall_reverse.
  - case_decide.
    + apply elem_of_cons in Hx as [->|Hx].
      * rewrite chars_rev. by apply Forall_reverse.
      * by apply (IH EmptyString).
    + apply (IH (String c cur)); [done|]. by constructor.
Qed.

(** The components of a parsed path hold no separator and are not
    empty. *)
Lemma of_str_parts s x :
  x ∈ parts (PathOps.of_str s) → no_slash x ∧ x ≠ EmptyString.
Proof.
  unfold PathOps.of_str. simpl. intros [[Hne _] Hx]%list_elem_of_filter.
  split; [|done]. by apply (split_slash_pieces EmptyString s).
Qed.

Lemma startswith_slash_false s :
  no_slash s → Py.startswith s "/" = false ∨ s = EmptyString.
Proof.
  destruct s as [|c s]; [by right|]. intros [Hc _]%Forall_cons. left. simpl.
  rewrite decide_False; [done|]. by intros <-.
Qed.

(** A text in one piece parses to the one-component relative path. *)
Lemma of_str_plain s :
  no_slash s → s ≠ EmptyString → s ≠ "." →
  PathOps.of_str s = {| root := false; parts := [s] |}.
Proof.
  intros Hs Hne Hdot. unfold PathOps.of_str, Py.split_slash.
  rewrite (split_slash_go_plain EmptyString s Hs).
  destruct (startswith_slash_false s Hs) as [-> | ->]; [|done].
  change (String.rev EmptyString +:+ s) with s.
  rewrite filter_cons_True by done. done.
Qed.

Lemma last_snoc {A} (l : list A) x d : List.last (l ++ [x]) d = x.
Proof. apply List.last_last. Qed.

(** The name of a joined path whose text ends in a separator-free tail
    of at least two characters ends in that tail. *)
Lemma name_joins_tail p a b :
  no_slash b → (2 ≤ String.length b)%nat →
  ∃ c, PathOps.name (p // (a +:+ b)) = c +:+ b.
Proof.
  intros Hb Hlen.
  destruct (split_slash_go_tail EmptyString a b Hb) as (init & c & Hsplit).
  exists c. unfold PathOps.joins, PathOps.join, PathOps.name, PathOps.of_str,
    Py.split_slash. rewrite Hsplit, filter_app, filter_cons_True, filter_nil.
  - destruct (Py.startswith _ _); simpl; by rewrite ?app_assoc, last_snoc.
  - split.
    + intros E. apply (f_equal String.length) in E. rewrite append_length in E.
      simpl in E. lia.
    + intros E. apply (f_equal String.length) in E. rewrite append_length in E.
      simpl in E. lia.
Qed.

Lemma name_joins_plain p s :
  no_slash s → (2 ≤ String.length s)%nat → PathOps.name (p // s) = s.
Proof.
  intros Hs Hlen. unfold PathOps.joins. rewrite of_str_plain; [|done|..].
  - unfold PathOps.join, PathOps.name. simpl. apply last_snoc.
  - intros ->. simpl in Hlen. lia.
  - intros ->. simpl in Hlen. lia.
Qed.

Lemma drop_append y e : Py.drop (String.length y) (y +:+ e) = e.
Proof. induction y as [|c y IH]; [by destruct e|]. by rewrite append_cons. Qed.

Lemma take_append y e : Py.take (String.length y) (y +:+ e) = y.
Proof.
  induction y as [|c y IH]; [by destruct e|]. rewrite append_cons. simpl.
  by rewrite IH.
Qed.

Lemma rfind_dot_tail y z :
  Py.rfind_dot z = None →
  Py.rfind_dot (y +:+ String "." z) = Some (String.length y).
Proof.
  intros Hz. induction y as [|c y IH].
  - rewrite append_nil_l. simpl. by rewrite Hz.
  - rewrite append_cons. simpl. by rewrite IH.
Qed.

(** The suffix of a path whose name is a non-empty stem, a dot and a
    non-empty dot-free extension is the dot and the extension. *)
Lemma suffix_of_name p y z :
  PathOps.name p = y +:+ String "." z →
  y ≠ EmptyString → z ≠ EmptyString → Py.rfind_dot z = None →
  PathOps.suffix p = String "." z ∧ PathOps.stem p = y.
Proof.
  intros Hname Hy Hz Hdot. unfold PathOps.suffix, PathOps.stem.
  rewrite Hname, (rfind_dot_tail y z Hdot), append_length.
  destruct y as [|c y]; [done|]. destruct z as [|d z]; [done|].
  assert ((0 <? String.length (String c y))%nat
          && (String.length (String c y)
              <? String.length (String c y) + String.length (String "." (String d z)) - 1)%nat
          = true) as ->.
  { simpl. apply Nat.ltb_lt. lia. }
  by rewrite drop_append, take_append.
Qed.

(** The stem of a parsed path holds no separator. *)
Lemma take_letters n s : letters (Py.take n s) = take n (letters s).
Proof.
  revert s. induction n as [|n IH]; intros [|c s]; simpl; try done. by rewrite IH.
Qed.

Lemma name_of_str_plain s : no_slash (PathOps.name (PathOps.of_str s)).
Proof.
  unfold PathOps.name.
  destruct (parts (PathOps.of_str s)) as [|x l] eqn:Hparts using rev_ind;
    [by constructor|].
  rewrite last_snoc. apply (of_str_parts s). rewrite Hparts.
  apply elem_of_app. right. by left.
Qed.

Lemma stem_of_str_plain s : no_slash (PathOps.stem (PathOps.of_str s)).
Proof.
  pose proof (name_of_str_plain s) as Hname. unfold PathOps.stem.
  destruct (Py.rfind_dot _) as [i|]; [|done].
  destruct (_ && _); [|done]. rewrite take_letters. by apply Forall_take.
Qed.

End PathFacts.

(* ===================================================================== *)
(** * Further properties: cue resolution                                  *)
(* ===================================================================== *)

Section CueResolutionMore.
Import Opusconv.

Lemma find_audio_loop_sound fs cue_dir ref_stem exts p :
  find_audio_loop fs cue_dir ref_stem exts = Some p →
  Os.exists_ fs p = true ∧ ∃ ext, ext ∈ exts ∧ p = cue_dir // (ref_stem +:+ ext).
Proof.
  induction exts as [|ext exts IH]; [done|]. simpl.
  destruct (Os.exists_ fs (cue_dir // (ref_stem +:+ ext))) eqn:Hex.
  - intros [= <-]. split; [done|]. exists ext. split; [by left|done].
  - intros Hp. destruct (IH Hp) as (? & ext' & ? & ?). split; [done|].
    exists ext'. split; [by right|done].
Qed.

Lemma find_audio_loop_complete fs cue_dir ref_stem exts :
  find_audio_loop fs cue_dir ref_stem exts = None →
  ∀ ext, ext ∈ exts → Os.exists_ fs (cue_dir // (ref_stem +:+ ext)) = false.
Proof.
  induction exts as [|ext exts IH]; intros Hnone e He; [by inversion He|].
  simpl in Hnone.
  destruct (Os.exists_ fs (cue_dir // (ref_stem +:+ ext))) eqn:Hex; [done|].
  apply elem_of_cons in He as [->|He]; [done|]. by apply IH.
Qed.

(** X3.  A source found by substituting an extension always has a
    bitrate class: when the referenced path itself does not exist and
    the referenced filename has a stem, the path resolution returns
    carries one of the six extensions as its suffix, the stem as its
    stem, and [get_bitrate] knows that suffix.  The splitter can thus
    meet an unknown format only on a literal match. *)
Theorem fallback_source_has_bitrate fs cue_dir ref_filename p
    (Hliteral : Os.exists_ fs (cue_dir // ref_filename) = false)
    (Hstem : PathOps.stem (PathOps.of_str ref_filename) ≠ EmptyString)
    (Hfound : find_audio_for_cue fs cue_dir ref_filename = Some p) :
  PathOps.suffix p ∈ cue_extensions
  ∧ PathOps.stem p = PathOps.stem (PathOps.of_str ref_filename)
  ∧ ∃ bitrate, get_bitrate (PathOps.suffix p) = Some bitrate.
Proof.
  unfold find_audio_for_cue in Hfound. rewrite Hliteral in Hfound.
  apply find_audio_loop_sound in Hfound as (_ & ext & Hext & ->).
  set (stem := PathOps.stem (PathOps.of_str ref_filename)) in *.
  pose proof (stem_of_str_plain ref_filename) as Hplain. fold stem in Hplain.
  assert (∃ z, ext = String "." z ∧ z ≠ EmptyString ∧ Py.rfind_dot z = None
               ∧ Forall (λ c, c ≠ "/"%char) (list_ascii_of_string z)
               ∧ ∃ b, get_bitrate ext = Some b) as (z & -> & Hz & Hdot & Hzs & Hb).
  { unfold cue_extensions in Hext.
    repeat (apply elem_of_cons in Hext as [->|Hext];
            [eexists; split; [reflexivity|];
             split; [done|]; split; [done|];
             split; [by repeat constructor|];
             eexists; vm_compute; reflexivity|]).
    by apply elem_of_nil in Hext. }
  assert (PathOps.name (cue_dir // (stem +:+ String "." z)) = stem +:+ String "." z)
    as Hname.
  { apply name_joins_plain.
    - rewrite chars_app. apply Forall_app. split; [done|]. by constructor.
    - rewrite append_length. simpl. destruct z; [done|]. simpl. lia. }
  destruct (suffix_of_name _ _ _ Hname Hstem Hz Hdot) as [-> ->].
  split; [done|]. split; [done|]. exact Hb.
Qed.

End CueResolutionMore.

(* ===================================================================== *)
(** * Further properties: the splitter and the walker                     *)
(* ===================================================================== *)

(** A sequence that returns has run both its parts. *)
Lemma bind_result {A B} (m : M A) (k : A → M B) w v w' :
  (m ≫= k) w = (Py.Ok v, w') → ∃ a w1, m w = (Py.Ok a, w1) ∧ k a w1 = (Py.Ok v, w').
Proof.
  unfold mbind, M_bind. destruct (m w) as [[a|e] w1]; [|done]. intros Hk.
  by exists a, w1.
Qed.

Section Logs.
Context {collab : Collaborators}.
Import Opusconv.

Variable Q : FS → list Event → FS → Prop.
Hypothesis Q_nil : ∀ fs0, Q fs0 [] fs0.
Hypothesis Q_app : ∀ fs0 l1 fs1 l2 fs2,
  Q fs0 l1 fs1 → Q fs1 l2 fs2 → Q fs0 (l1 ++ l2) fs2.

Lemma logs_ret {A} (v : A) w : logs Q (mret v) w.
Proof using Q_nil. exists (Py.Ok v), w, []. by rewrite app_nil_r. Qed.

Lemma logs_same {A} (m : M A) r w : m w = (r, w) → logs Q m w.
Proof using Q_nil. intros E. exists r, w, []. by rewrite app_nil_r. Qed.

Lemma logs_bind {A B} (m : M A) (k : A → M B) w :
  logs Q m w → (∀ v w', logs Q (k v) w') → logs Q (m ≫= k) w.
Proof using Q_app.
  intros (r & w1 & log & E & Ht & Hlog) Hk. unfold logs, mbind, M_bind.
  rewrite E. destruct r as [v|e].
  - destruct (Hk v w1) as (r' & w2 & log' & E' & Ht' & Hlog').
    exists r', w2, (log ++ log'). rewrite E', Ht', Ht, <-app_assoc.
    repeat split. by apply (Q_app _ _ (fs w1)).
  - by exists (Py.Raise e), w1, log.
Qed.

Lemma logs_for_each {A} (l : list A) (body : A → M unit) w :
  (∀ x w', x ∈ l → logs Q (body x) w') → logs Q (St.for_each l body) w.
Proof using Q_nil Q_app.
  revert w. induction l as [|x l IH]; intros w Hbody; simpl; [apply logs_ret|].
  apply logs_bind; [apply Hbody; by left|].
  intros _ w'. apply IH. intros y w'' Hy. apply Hbody. by right.
Qed.

Lemma logs_gets {A B} (f : FS → A) (k : A → M B) w :
  logs Q (k (f (fs w))) w → logs Q (St.gets f ≫= k) w.
Proof. intros Hk. exact Hk. Qed.

Lemma logs_lift {A B} (r : Py.result A) (k : A → M B) w :
  (∀ v, r = Py.Ok v → logs Q (k v) w) → logs Q (St.lift r ≫= k) w.
Proof using Q_nil.
  intros Hk. destruct r as [v|e]; [by apply Hk|].
  by apply logs_same with (r := Py.Raise e).
Qed.

(** A change of the file system, with what follows it. *)
Lemma logs_update_then {B} (f : FS → Py.result FS) (k : () → M B) w :
  (∀ fs1, f (fs w) = Py.Ok fs1 →
     Q (fs w) [] fs1 ∧ logs Q (k ()) {| fs := fs1; trace := trace w |}) →
  logs Q (St.update f ≫= k) w.
Proof using Q_nil Q_app.
  intros Hk. unfold logs. run_step. destruct (f (fs w)) as [fs1|e].
  - destruct (Hk fs1 eq_refl) as (Hmade & r & w' & log & E & Ht & Hlog).
    exists r, w', log. split; [done|]. split; [done|].
    by apply (Q_app _ [] fs1).
  - exists (Py.Raise e), w, []. by rewrite app_nil_r.
Qed.

Hypothesis Q_print : ∀ fs0 line, Q fs0 [Stdout line] fs0.

Lemma logs_print line w : logs Q (St.print line) w.
Proof using Q_print.
  by exists (Py.Ok ()), {| fs := fs w; trace := trace w ++ [Stdout line] |},
    [Stdout line].
Qed.

(** A printed line, with what follows it. *)
Lemma logs_print_then {B} line (k : () → M B) w :
  logs Q (k ()) {| fs := fs w; trace := trace w ++ [Stdout line] |} →
  logs Q (St.print line ≫= k) w.
Proof using Q_app Q_print.
  intros (r & w' & log & E & Ht & Hlog).
  exists r, w', (Stdout line :: log). split; [exact E|].
  simpl in Ht. rewrite Ht, <-app_assoc. split; [done|].
  by apply (Q_app _ [Stdout line] (fs w)).
Qed.

Section Walk.
(** What is known of a call where it is made. *)
Variable known : FS → EncodeCall → Prop.
Hypothesis Q_mkdir : ∀ fs0 p fs1, Os.makedirs p fs0 = Py.Ok fs1 → Q fs0 [] fs1.
Hypothesis Q_failed : ∀ c fs0,
  known fs0 c → opusencode_py c fs0 ≠ 0%Z → Q fs0 [Opusencode c] fs0.
Hypothesis Q_done : ∀ c fs0,
  known fs0 c → opusencode_py c fs0 = 0%Z →
  Q fs0 [Opusencode c; Covercp (enc_input c) (enc_output c); Coverfix (enc_output c)]
    (Os.create_file (enc_output c) fs0).

Hypothesis known_track : ∀ cue_data source_audio bitrate dest_subdir total track fs0,
  get_bitrate (PathOps.suffix source_audio) = Some bitrate →
  Os.exists_ fs0 (dest_subdir // out_name track) = false →
  known fs0 (track_call cue_data source_audio bitrate dest_subdir total track).

Hypothesis known_standalone : ∀ source_path relative opus bitrate fs0 fs1,
  get_bitrate (PathOps.suffix source_path) = Some bitrate →
  PathOps.with_suffix relative ".opus" = Py.Ok opus →
  root relative = false →
  Os.exists_ fs0 (PathOps.join DEST_DIR opus) = false →
  Os.makedirs (PathOps.parent (PathOps.join DEST_DIR opus)) fs0 = Py.Ok fs1 →
  known fs1 {| enc_input := source_path; enc_output := PathOps.join DEST_DIR opus;
               enc_bitrate := bitrate; enc_start := None; enc_duration := None;
               enc_meta := [] |}.

(** A transcode with its cover handling, as both the tracks loop and
    the standalone loop run it. *)
Lemma logs_transcode input output bitrate start duration metadata w :
  known (fs w)
    {| enc_input := input; enc_output := output; enc_bitrate := bitrate;
       enc_start := start; enc_duration := duration;
       enc_meta := filter (λ kv, kv.2 ≠ EmptyString) metadata |} →
  logs Q (ok ← run_opusencode input output bitrate start duration metadata;
          if (ok : bool) then run_covercp input output ;; run_coverfix output
          else mret ()) w.
Proof using Q_failed Q_done.
  intros Hknown. unfold logs, run_opusencode, run_covercp, run_coverfix.
  run_step. case_decide as Hrc; simpl.
  - eexists _, _, _. split; [done|]. simpl. rewrite <-!app_assoc. split; [done|].
    by apply (Q_done _ _ Hknown).
  - eexists _, _, _. split; [done|]. simpl. split; [done|]. by apply Q_failed.
Qed.

Lemma logs_process_track cue_data source_audio bitrate dest_subdir total track w :
  get_bitrate (PathOps.suffix source_audio) = Some bitrate →
  logs Q (process_track cue_data source_audio bitrate dest_subdir total track) w.
Proof using All.
  intros Hrate. unfold process_track.
  apply logs_gets. cbv beta zeta.
  destruct (Os.exists_ _ _) eqn:Hex; [apply logs_ret|].
  apply logs_print_then. apply logs_transcode.
  by apply (known_track cue_data source_audio bitrate dest_subdir total track).
Qed.

Lemma logs_process_cue cue_path dest_subdir w :
  logs Q (process_cue cue_path dest_subdir) w.
Proof using All.
  unfold process_cue.
  destruct (run_cueparse cue_path) as [cue_data|]; [|apply logs_ret].
  destruct (negb _ || negb _); [apply logs_ret|].
  destruct (Cue.tracks cue_data) as [[|t ts]|]; try apply logs_ret.
  destruct (Cue.files cue_data) as [[|file0 fl]|]; try apply logs_ret.
  apply logs_gets. cbv beta.
  destruct (find_audio_for_cue _ _ _) as [source_audio|].
  - destruct (get_bitrate _) as [bitrate|] eqn:Hrate; [|apply logs_ret].
    apply logs_update_then. intros fs1 Hmade. split; [by apply (Q_mkdir _ dest_subdir)|].
    apply logs_bind; [|intros; apply logs_ret].
    apply logs_for_each. intros track w2 _. by apply logs_process_track.
  - apply logs_bind; [by apply logs_print|]. intros. apply logs_ret.
Qed.

Lemma relative_to_root p base relative :
  PathOps.relative_to p base = Py.Ok relative → root relative = false.
Proof.
  unfold PathOps.relative_to. case_decide; [|done].
  destruct (PathOps.strip_prefix _ _); [|done]. by intros [= <-].
Qed.

Lemma logs_convert_cue source_dir root0 filename w :
  logs Q (convert_cue source_dir root0 filename) w.
Proof using All.
  unfold convert_cue.
  destruct (Py.endswith _ _); [|apply logs_ret].
  apply logs_lift. intros relative _.
  destruct (is_single_file _); [|apply logs_ret].
  apply logs_bind; [by apply logs_print|]. intros _ w6.
  apply logs_bind; [apply logs_process_cue|]. intros. apply logs_ret.
Qed.

Lemma logs_convert_standalone source_dir root0 cue_sources filename w :
  logs Q (convert_standalone source_dir root0 cue_sources filename) w.
Proof using All.
  unfold convert_standalone.
  destruct (get_bitrate _) as [bitrate|] eqn:Hrate; [|apply logs_ret].
  case_decide; [apply logs_ret|].
  apply logs_lift. intros relative Hrel. apply logs_lift. intros opus Hopus.
  apply logs_gets. cbv beta. destruct (Os.exists_ _ _) eqn:Hex; [apply logs_ret|].
  apply logs_print_then. apply logs_update_then. intros fs1 Hmade.
  split; [by apply (Q_mkdir _ _ _ Hmade)|].
  apply logs_transcode.
  by apply (known_standalone _ relative opus bitrate (fs w) fs1 Hrate Hopus
              (relative_to_root _ _ _ Hrel)).
Qed.

(** One directory of the walk: its cue files, then its audio files. *)
Lemma logs_convert_files source_dir root0 cue_sources files w :
  logs Q (St.for_each files (convert_cue source_dir root0) ;;
          St.for_each files (convert_standalone source_dir root0 cue_sources)) w.
Proof using All.
  apply logs_bind.
  - apply logs_for_each. intros. apply logs_convert_cue.
  - intros _ w5. apply logs_for_each. intros. apply logs_convert_standalone.
Qed.

Lemma logs_convert_directory source_dir w :
  logs Q (convert_directory source_dir) w.
Proof using All.
  unfold convert_directory. apply logs_gets. cbv beta.
  destruct (negb _); [by apply logs_print|].
  do 3 (apply logs_bind; [by apply logs_print|]; intros _ ?).
  apply logs_gets. apply logs_gets. cbv beta.
  apply logs_bind; [|intros; by apply logs_print].
  apply logs_for_each. intros [root0 files] w4 _. apply logs_convert_files.
Qed.

End Walk.
End Logs.

Section WalkerRuns.
Context {collab : Collaborators}.
Import Opusconv.

Lemma run_app fs0 l1 fs1 l2 fs2 :
  run fs0 l1 fs1 → run fs1 l2 fs2 → run fs0 (l1 ++ l2) fs2.
Proof.
  intros H1 H2. induction H1 as [| | | |]; simpl.
  - done.
  - apply run_print. by apply IHrun.
  - eapply run_mkdir; [done|]. by apply IHrun.
  - apply run_failed; [done..|]. by apply IHrun.
  - apply run_done; [done..|]. by apply IHrun.
Qed.

Lemma inits_length {A} (l x : list A) : x ∈ Os.inits l → (length x ≤ length l)%nat.
Proof.
  revert x. induction l as [|y l IH]; intros x; simpl.
  - intros ->%list_elem_of_singleton. done.
  - intros [->|Hx]%elem_of_cons; [simpl; lia|].
    apply list_elem_of_fmap in Hx as (x' & -> & Hx'). apply IH in Hx'. simpl. lia.
Qed.

(** Making the parent directory of a path does not make the path. *)
Lemma makedirs_parent_absent fs0 fs1 d :
  parts d ≠ [] →
  Os.exists_ fs0 d = false →
  Os.makedirs (PathOps.parent d) fs0 = Py.Ok fs1 →
  Os.exists_ fs1 d = false.
Proof.
  intros Hparts Hex. unfold Os.makedirs.
  destruct (Os.is_dir fs0 (PathOps.parent d)); [by intros [= <-]|].
  destruct (Os.is_file fs0 (PathOps.parent d)); [done|].
  destruct (existsb _ _); [done|]. intros [= <-].
  apply orb_false_iff in Hex as [Hfile Hdir]. unfold Os.exists_.
  apply orb_false_iff. split; [done|]. apply not_true_is_false.
  intros (q & Hq & Hd)%is_dir_elem. simpl in Hq.
  rewrite <-app_assoc in Hq. apply elem_of_app in Hq as [Hq|Hq].
  - apply not_true_iff_false in Hdir. apply Hdir, is_dir_elem. exists q.
    split; [|done]. apply elem_of_app. by left.
  - apply elem_of_app in Hq as [Hq|Hq].
    + apply list_elem_of_singleton in Hq as ->. unfold Os.ancestors in Hd.
      apply list_elem_of_fmap in Hd as (l & Hl & Hin). apply inits_length in Hin.
      destruct d as [rt ps]. simpl in *. injection Hl as <-.
      destruct ps as [|x ps] using rev_ind; [done|].
      rewrite removelast_last in Hin. rewrite length_app in Hin. simpl in Hin. lia.
    + apply not_true_iff_false in Hdir. apply Hdir, is_dir_elem. exists q.
      split; [|done]. apply elem_of_app. by right.
Qed.

(** What a run leaves: nothing that existed is gone. *)
Lemma run_written fs0 log fs' :
  run fs0 log fs' → ∀ d, Os.exists_ fs0 d = true → Os.exists_ fs' d = true.
Proof.
  induction 1 as [fs0|fs0 line log fs' Hrun IH|fs0 p fs1 log fs' Hmade Hrun IH
                 |fs0 c log fs' Hex Hrc Hrun IH|fs0 c log fs' Hex Hrc Hrun IH];
    intros d Hd; [done|by apply IH| |by apply IH|].
  - by apply IH, (exists_makedirs fs0 fs1 p).
  - by apply IH, exists_create_file.
Qed.

Lemma run_one_print fs0 line : run fs0 [Stdout line] fs0.
Proof. apply run_print, run_nil. Qed.

Lemma run_one_mkdir fs0 p fs1 : Os.makedirs p fs0 = Py.Ok fs1 → run fs0 [] fs1.
Proof. intros Hmade. eapply run_mkdir; [done|]. apply run_nil. Qed.

Lemma stem_nonempty p : PathOps.name p ≠ EmptyString → PathOps.stem p ≠ EmptyString.
Proof.
  unfold PathOps.stem. intros Hname. destruct (Py.rfind_dot _) as [i|]; [|done].
  destruct (_ && _) eqn:Hcond; [|done].
  apply andb_true_iff in Hcond as [Hpos%Nat.ltb_lt Hlen%Nat.ltb_lt].
  destruct (PathOps.name p) as [|c n]; [done|]. destruct i; [lia|]. done.
Qed.

Lemma strip_prefix_app b l : PathOps.strip_prefix b (b ++ l) = Some l.
Proof. induction b as [|x b IH]; simpl; [done|]. by rewrite decide_True. Qed.

Lemma opus_suffix y : y ≠ EmptyString → ∀ p, PathOps.name p = y +:+ ".opus" →
  PathOps.suffix p = ".opus".
Proof.
  intros Hy p Hname. by apply (suffix_of_name p y "opus").
Qed.

Lemma track_output_suffix dest_subdir track :
  PathOps.suffix (dest_subdir // out_name track) = ".opus".
Proof.
  unfold out_name.
  set (num := default "00" (Cue.number track)).
  set (safe := sanitize_filename _).
  destruct (name_joins_tail dest_subdir num (" - " +:+ safe +:+ ".opus")) as [c Hname].
  - rewrite !chars_app. apply Forall_app. split; [by repeat constructor|].
    apply Forall_app. split; [|by repeat constructor].
    eapply Forall_impl; [apply sanitized_letters|]. intros ch Hch ->. done.
  - rewrite !append_length. simpl. lia.
  - apply (opus_suffix (c +:+ " - " +:+ safe)).
    + intros E. apply (f_equal String.length) in E.
      rewrite !append_length in E. simpl in E. lia.
    + rewrite Hname. by rewrite !append_assoc.
Qed.

Lemma standalone_output relative opus :
  PathOps.with_suffix relative ".opus" = Py.Ok opus → root relative = false →
  PathOps.suffix (PathOps.join DEST_DIR opus) = ".opus"
  ∧ PathOps.is_under DEST_DIR (PathOps.join DEST_DIR opus) = true
  ∧ parts (PathOps.join DEST_DIR opus) ≠ [].
Proof.
  unfold PathOps.with_suffix. case_decide as Hname; [done|]. intros [= <-] Hroot.
  unfold PathOps.join. cbn [root parts]. rewrite Hroot. split; [|split].
  - apply (opus_suffix (PathOps.stem relative)); [by apply stem_nonempty|].
    unfold PathOps.name. cbn [parts]. by rewrite app_assoc, last_snoc.
  - unfold PathOps.is_under. cbn [root parts]. rewrite strip_prefix_app.
    rewrite bool_decide_eq_true_2 by done. by rewrite bool_decide_eq_true_2 by done.
  - cbn [parts]. rewrite app_assoc. by intros [_ ?]%app_eq_nil.
Qed.

(** The walker's computations are runs. *)
Lemma run_failed_one c fs0 :
  Os.exists_ fs0 (enc_output c) = false → opusencode_py c fs0 ≠ 0%Z →
  run fs0 [Opusencode c] fs0.
Proof. intros. apply run_failed; [done..|]. apply run_nil. Qed.

Lemma run_done_one c fs0 :
  Os.exists_ fs0 (enc_output c) = false → opusencode_py c fs0 = 0%Z →
  run fs0 [Opusencode c; Covercp (enc_input c) (enc_output c); Coverfix (enc_output c)]
    (Os.create_file (enc_output c) fs0).
Proof. intros. apply run_done; [done..|]. apply run_nil. Qed.

Lemma absent_track cue_data source_audio bitrate dest_subdir total track fs0 :
  get_bitrate (PathOps.suffix source_audio) = Some bitrate →
  Os.exists_ fs0 (dest_subdir // out_name track) = false →
  Os.exists_ fs0
    (enc_output (track_call cue_data source_audio bitrate dest_subdir total track))
  = false.
Proof. by intros. Qed.

Lemma absent_standalone (source_path : Path) relative opus (bitrate : string) fs0 fs1 :
  get_bitrate (PathOps.suffix source_path) = Some bitrate →
  PathOps.with_suffix relative ".opus" = Py.Ok opus →
  root relative = false →
  Os.exists_ fs0 (PathOps.join DEST_DIR opus) = false →
  Os.makedirs (PathOps.parent (PathOps.join DEST_DIR opus)) fs0 = Py.Ok fs1 →
  Os.exists_ fs1
    (enc_output {| enc_input := source_path; enc_output := PathOps.join DEST_DIR opus;
                   enc_bitrate := bitrate; enc_start := None; enc_duration := None;
                   enc_meta := [] |}) = false.
Proof.
  intros _ Hopus Hroot Hex Hmade. cbn [enc_output].
  destruct (standalone_output _ _ Hopus Hroot) as (_ & _ & Hparts).
  by apply (makedirs_parent_absent fs0 fs1).
Qed.

Lemma run_process_track cue_data source_audio bitrate dest_subdir total track w :
  get_bitrate (PathOps.suffix source_audio) = Some bitrate →
  logs run (process_track cue_data source_audio bitrate dest_subdir total track) w.
Proof.
  apply (logs_process_track run run_nil run_app run_one_print
           (λ fs0 c, Os.exists_ fs0 (enc_output c) = false) run_one_mkdir
           run_failed_one run_done_one absent_track absent_standalone).
Qed.

Lemma run_convert_cue source_dir root0 filename w :
  logs run (convert_cue source_dir root0 filename) w.
Proof.
  apply (logs_convert_cue run run_nil run_app run_one_print
           (λ fs0 c, Os.exists_ fs0 (enc_output c) = false) run_one_mkdir
           run_failed_one run_done_one absent_track absent_standalone).
Qed.

Lemma run_convert_standalone source_dir root0 cue_sources filename w :
  logs run (convert_standalone source_dir root0 cue_sources filename) w.
Proof.
  apply (logs_convert_standalone run run_nil run_app run_one_print
           (λ fs0 c, Os.exists_ fs0 (enc_output c) = false) run_one_mkdir
           run_failed_one run_done_one absent_track absent_standalone).
Qed.

Lemma run_convert_files source_dir root0 cue_sources files w :
  logs run (St.for_each files (convert_cue source_dir root0) ;;
            St.for_each files (convert_standalone source_dir root0 cue_sources)) w.
Proof.
  apply (logs_convert_files run run_nil run_app run_one_print
           (λ fs0 c, Os.exists_ fs0 (enc_output c) = false) run_one_mkdir
           run_failed_one run_done_one absent_track absent_standalone).
Qed.

Lemma run_convert_directory source_dir w :
  logs run (convert_directory source_dir) w.
Proof.
  apply (logs_convert_directory run run_nil run_app run_one_print
           (λ fs0 c, Os.exists_ fs0 (enc_output c) = false) run_one_mkdir
           run_failed_one run_done_one absent_track absent_standalone).
Qed.

(** X4.  A walk never overwrites.  Whatever the collaborators return,
    the events of [convert_directory] form a run: every transcode is
    started on an output that does not exist at that moment; one that
    fails is followed by no cover operation; one that returns 0 is
    followed by the cover copy from its input to its output and then
    the cover refresh of its output.  The moments are those of the
    model's file system, in which a transcode that returns 0 leaves
    its output and one that fails leaves nothing. *)
Theorem walk_never_overwrites source_dir w :
  ∃ r w' log,
    convert_directory source_dir w = (r, w')
    ∧ trace w' = trace w ++ log
    ∧ run (fs w) log (fs w').
Proof.
  destruct (run_convert_directory source_dir w) as (r & w' & log & Hrun & Htrace & Hlog).
  by exists r, w', log.
Qed.

Lemma call_ok_app (fs0 : FS) l1 (fs1 : FS) l2 (fs2 : FS) :
  Forall call_ok l1 → Forall call_ok l2 → Forall call_ok (l1 ++ l2).
Proof. intros. by apply Forall_app. Qed.

Lemma call_ok_print (fs0 : FS) line : Forall call_ok [Stdout line].
Proof. by repeat constructor. Qed.

(** X5.  Every transcode call of a walk is well formed: its bitrate is
    the class of its input's extension, its output has the suffix
    [.opus] (which has no bitrate class, so an output is never taken
    as a source), none of its metadata values is empty, and a call
    without start offset (a whole file) has no duration, no metadata
    and an output below the destination root. *)
Theorem walk_calls_well_formed source_dir w :
  ∃ r w' log,
    convert_directory source_dir w = (r, w')
    ∧ trace w' = trace w ++ log
    ∧ ∀ c, Opusencode c ∈ log →
        get_bitrate (PathOps.suffix (enc_input c)) = Some (enc_bitrate c)
        ∧ PathOps.suffix (enc_output c) = ".opus"
        ∧ get_bitrate (PathOps.suffix (enc_output c)) = None
        ∧ Forall (λ kv, kv.2 ≠ EmptyString) (enc_meta c)
        ∧ (enc_start c = None →
           enc_duration c = None ∧ enc_meta c = []
           ∧ PathOps.is_under DEST_DIR (enc_output c) = true).
Proof.
  assert (logs (λ _ log _, Forall call_ok log) (convert_directory source_dir) w)
    as (r & w' & log & Hrun & Htrace & Hlog).
  { apply (logs_convert_directory (λ _ log _, Forall call_ok log)
             (λ _, Forall_nil_2 _) call_ok_app call_ok_print
             (λ _ c, call_ok (Opusencode c))).
    - done.
    - intros c fs0 Hc _. apply Forall_cons. split; [exact Hc|]. apply Forall_nil_2.
    - intros c fs0 Hc _. apply Forall_cons. split; [exact Hc|].
      do 2 (apply Forall_cons; split; [exact I|]). apply Forall_nil_2.
    - intros cue_data source_audio bitrate dest_subdir total track fs0 Hrate _.
      unfold call_ok, track_call.
      cbn [enc_input enc_output enc_bitrate enc_start enc_duration enc_meta].
      split; [done|]. split; [apply track_output_suffix|]. split; [|by intros [=]].
      apply Forall_forall. by intros kv [Hkv _]%list_elem_of_filter.
    - intros source_path relative opus bitrate fs0 fs1 Hrate Hopus Hroot _ _.
      unfold call_ok.
      cbn [enc_input enc_output enc_bitrate enc_start enc_duration enc_meta].
      destruct (standalone_output _ _ Hopus Hroot) as (Hsuffix & Hunder & _).
      split; [done|]. split; [done|]. split; [constructor|]. done. }
  exists r, w', log. split; [done|]. split; [done|]. intros c Hc.
  rewrite Forall_forall in Hlog. specialize (Hlog _ Hc). simpl in Hlog.
  destruct Hlog as (Hrate & Hsuffix & Hmeta & Hwhole).
  split; [done|]. split; [done|]. split; [by rewrite Hsuffix|]. by split.
Qed.

End WalkerRuns.

Section WalkerPaths.
Context {collab : Collaborators}.
Import Opusconv.






End WalkerPaths.

(* ===================================================================== *)
(** * Further properties: what a walk covers                             *)
(* ===================================================================== *)

Section WalkerCoverage.
Context {collab : Collaborators}.
Import Opusconv.

(** What is handled stays handled through any run. *)
Lemma handled_mono {A} (m : M A) w r w' source d :
  logs run m w → m w = (r, w') → handled source d w → handled source d w'.
Proof.
  intros (r0 & w0 & log & E & Ht & Hrun) Hm Hd. rewrite E in Hm.
  injection Hm as <- <-. destruct Hd as [Hex | (c & Hc & Hin & Hout)].
  - left. by apply (run_written _ _ _ Hrun).
  - right. exists c. split; [|done]. rewrite Ht. apply elem_of_app. by left.
Qed.

(** A loop each of whose rounds establishes something that later
    rounds keep has established it for every element when it
    returns. *)
Lemma for_each_post {A} (l : list A) (body : A → M unit) (post : A → World → Prop) w w' :
  (∀ x w0 w1, x ∈ l → body x w0 = (Py.Ok (), w1) → post x w1) →
  (∀ x y w0 r w1, post x w0 → body y w0 = (r, w1) → post x w1) →
  St.for_each l body w = (Py.Ok (), w') →
  ∀ x, x ∈ l → post x w'.
Proof.
  revert w. induction l as [|y l IH]; intros w Hbody Hkeep Hloop x Hx;
    [by inversion Hx|].
  simpl in Hloop. apply bind_result in Hloop as ([] & w1 & Hy & Hloop).
  assert (∀ z, post z w1 → post z w') as Hrest.
  { clear -Hkeep Hloop. revert w1 Hloop. induction l as [|u l IHl]; intros w1 Hloop z Hz.
    - simpl in Hloop. by injection Hloop as <-.
    - simpl in Hloop. unfold mbind, M_bind in Hloop.
      destruct (body u w1) as [[[]|e] w2] eqn:Hu; [|done].
      apply (IHl w2 Hloop). by apply (Hkeep z u w1 (Py.Ok ()) w2). }
  apply elem_of_cons in Hx as [->|Hx].
  - apply Hrest. apply (Hbody y w w1); [by left|done].
  - apply (IH w1); [|done|done|done]. intros z w0 w2 Hz. apply Hbody. by right.
Qed.

(** One audio file of a directory: when the loop body returns, the
    file is handled for its destination. *)
Lemma convert_standalone_handles source_dir root0 cue_sources filename w w' d :
  convert_standalone source_dir root0 cue_sources filename w = (Py.Ok (), w') →
  d ∈ standalone_destinations source_dir root0 cue_sources filename →
  handled (root0 // filename) d w'.
Proof.
  unfold convert_standalone, standalone_destinations.
  destruct (get_bitrate _) as [bitrate|]; [|by intros _ ?%elem_of_nil].
  case_decide; [by intros _ ?%elem_of_nil|].
  destruct (PathOps.relative_to _ _) as [relative|]; [|by intros _ ?%elem_of_nil].
  simpl. destruct (PathOps.with_suffix relative ".opus") as [opus|] eqn:Hopus;
    [|by intros _ ?%elem_of_nil].
  intros Hrun ->%list_elem_of_singleton. revert Hrun. run_step. rewrite Hopus.
  destruct (Os.exists_ (fs w) (PathOps.join DEST_DIR opus)) eqn:Hex.
  - intros [= <-]. by left.
  - destruct (Os.makedirs _ _) as [fs1|]; [|done]. simpl.
    unfold run_opusencode, run_covercp, run_coverfix. run_step.
    case_decide; simpl; intros [= <-]; right;
      exists {| enc_input := root0 // filename;
                enc_output := PathOps.join DEST_DIR opus; enc_bitrate := bitrate;
                enc_start := None; enc_duration := None; enc_meta := [] |};
      (split; [|done]); simpl;
      repeat (apply elem_of_app; first [by right; left | left]).
Qed.

(** X21.  The walk passes over no audio file in silence.  When the
    source directory is a directory and [convert_directory] returns,
    for every listed file with a bitrate class that the first pass has
    not claimed, the destination exists afterwards or a transcode from
    that file to the destination has been run. *)
Theorem walk_handles_every_file source_dir w w'
    (Hvalid : Os.is_dir (fs w) (resolve (PathOps.of_str source_dir)) = true)
    (Hreturns : convert_directory source_dir w = (Py.Ok (), w')) :
  let top := resolve (PathOps.of_str source_dir) in
  ∀ root0 files filename d,
    (root0, files) ∈ Os.walk (fs w) top →
    filename ∈ files →
    d ∈ standalone_destinations top root0 (first_pass (fs w) top) filename →
    Os.exists_ (fs w') d = true
    ∨ ∃ c, Opusencode c ∈ trace w'
           ∧ enc_input c = root0 // filename ∧ enc_output c = d.
Proof.
  intros top root0 files filename d Hentry Hname Hd. subst top.
  unfold convert_directory in Hreturns.
  set (top := resolve (PathOps.of_str source_dir)) in *.
  apply bind_result in Hreturns as (valid & w0 & Hgets & Hreturns).
  injection Hgets as <- <-. unfold Os.exists_ in Hreturns.
  rewrite Hvalid, orb_true_r in Hreturns. simpl in Hreturns.
  do 3 (apply bind_result in Hreturns as ([] & ? & Hp & Hreturns);
        unfold St.print, St.emit in Hp; injection Hp as <-).
  apply bind_result in Hreturns as (cue_sources & w1 & Hgets & Hreturns).
  injection Hgets as <- <-.
  apply bind_result in Hreturns as (listing & w1 & Hgets & Hreturns).
  injection Hgets as <- <-. simpl in Hreturns.
  apply bind_result in Hreturns as ([] & w2 & Hloop & Hlast).
  unfold St.print, St.emit in Hlast. injection Hlast as <-.
  set (cue_sources := first_pass (fs w) top) in *.
  pose (post := λ (entry : Path * list string) (w0 : World),
          ∀ filename d, filename ∈ entry.2 →
            d ∈ standalone_destinations top entry.1 cue_sources filename →
            handled (entry.1 // filename) d w0).
  assert (post (root0, files) w2) as Hpost.
  { apply (for_each_post _ _ post _ _) with (x := (root0, files)) in Hloop; [done| | |done].
    - intros [r0 fl] wa wb _ Hbody. apply bind_result in Hbody as ([] & wm & _ & Hbody).
      intros fn dd Hfn Hdd. simpl in *.
      pose (inner := λ (fn : string) (w0 : World),
              ∀ dd, dd ∈ standalone_destinations top r0 cue_sources fn →
                    handled (r0 // fn) dd w0).
      apply (for_each_post _ _ inner _ _) with (x := fn) in Hbody; [by apply Hbody| | |done].
      + intros x wc wd _ Hx dd' Hdd'. by apply (convert_standalone_handles _ _ _ _ _ _ _ Hx).
      + intros x y wc r wd Hx Hy dd' Hdd'.
        apply (handled_mono (convert_standalone top r0 cue_sources y) wc r wd);
          [apply run_convert_standalone|done|by apply Hx].
    - intros [r0 fl] [r1 fl1] wa r wb Hx Hy fn dd Hfn Hdd.
      apply (handled_mono
               (St.for_each fl1 (convert_cue top r1) ;;
                St.for_each fl1 (convert_standalone top r1 cue_sources)) wa r wb);
        [apply run_convert_files|done|by apply Hx]. }
  destruct (Hpost filename d Hname Hd) as [Hex | (c & Hc & Hin & Hout)]; [by left|].
  right. exists c. split; [|done]. simpl. apply elem_of_app. by left.
Qed.

Lemma process_track_handles cue_data source_audio bitrate dest_subdir total track w w' :
  process_track cue_data source_audio bitrate dest_subdir total track w = (Py.Ok (), w') →
  handled source_audio (dest_subdir // out_name track) w'.
Proof.
  destruct (Os.exists_ (fs w) (dest_subdir // out_name track)) eqn:Hex.
  - rewrite process_track_present by done. intros [= <-]. by left.
  - rewrite process_track_absent by done. cbv zeta.
    case_decide; intros [= <-]; right;
      exists (track_call cue_data source_audio bitrate dest_subdir total track);
      (split; [|done]); simpl; apply elem_of_app; right; right; by left.
Qed.

(** X22.  The splitter passes over no track in silence.  When
    [process_cue] returns success, the first referenced filename has
    resolved to a source, and for every track of the sheet the track's
    output exists afterwards or a transcode from that source to the
    output has been run. *)
Theorem process_cue_handles_every_track cue_path dest_subdir w w' cue_data
    (Hparse : run_cueparse cue_path = Some cue_data)
    (Hreturns : process_cue cue_path dest_subdir w = (Py.Ok true, w')) :
  ∃ file0 source_audio,
    head (default [] (Cue.files cue_data)) = Some file0
    ∧ find_audio_for_cue (fs w) (PathOps.parent cue_path) file0 = Some source_audio
    ∧ ∀ track, track ∈ default [] (Cue.tracks cue_data) →
        Os.exists_ (fs w') (dest_subdir // out_name track) = true
        ∨ ∃ c, Opusencode c ∈ trace w'
               ∧ enc_input c = source_audio
               ∧ enc_output c = dest_subdir // out_name track.
Proof.
  unfold process_cue in Hreturns. rewrite Hparse in Hreturns.
  destruct (negb _ || negb _); [done|].
  destruct (Cue.tracks cue_data) as [[|t ts]|]; try done.
  destruct (Cue.files cue_data) as [[|file0 fl]|]; try done.
  apply bind_result in Hreturns as (found & w0 & Hgets & Hreturns).
  injection Hgets as <- <-.
  destruct (find_audio_for_cue _ _ _) as [source_audio|] eqn:Hfind.
  2:{ apply bind_result in Hreturns as (? & ? & _ & Hreturns). done. }
  destruct (get_bitrate _) as [bitrate|] eqn:Hrate; [|done].
  apply bind_result in Hreturns as ([] & w1 & _ & Hreturns).
  apply bind_result in Hreturns as ([] & w2 & Hloop & Hlast).
  injection Hlast as <-.
  exists file0, source_audio. split; [done|]. split; [done|]. simpl.
  intros track Htrack.
  apply (for_each_post _ _ (λ track w0,
           handled source_audio (dest_subdir // out_name track) w0) _ _)
    with (x := track) in Hloop; [done| | |done].
  - intros x wa wb _ Hx. by apply (process_track_handles _ _ _ _ _ _ _ _ Hx).
  - intros x y wa r wb Hx Hy.
    apply (handled_mono
             (process_track cue_data source_audio bitrate dest_subdir
                (length (t :: ts)) y) wa r wb);
      [by apply run_process_track|done|done].
Qed.

End WalkerCoverage.

(* ===================================================================== *)
(** * Further properties: the cover scripts                               *)
(* ===================================================================== *)

Section RefreshMore.
Import Mutagen Coverfix.
Context {codec : Codec}.

Local Abbreviation picture_field := "metadata_block_picture".

(** One undecodable value makes the whole loop raise, wherever it is
    in the list. *)
Lemma refresh_loop_raises b64_pictures v e new_pictures modified :
  v ∈ b64_pictures → decode_block v = Py.Raise e →
  ∃ e', refresh_loop b64_pictures new_pictures modified = Py.Raise e'.
Proof.
  revert new_pictures modified.
  induction b64_pictures as [|x vs IH]; intros acc m Hv He; [by inversion Hv|].
  simpl. unfold mbind, result_bind, Py.bind.
  destruct (decide (x = v)) as [->|Hne].
  - unfold decode_block, mbind, result_bind, Py.bind in He.
    destruct (b64decode v) as [raw|]; [|by eexists]. rewrite He. by eexists.
  - assert (v ∈ vs) as Hin by (by apply elem_of_cons in Hv as [?|?]).
    destruct (b64decode x) as [raw|]; [|by eexists].
    destruct (Picture_load raw) as [pic|]; [|by eexists].
    destruct (decide (type pic ≠ 3%N)); by apply IH.
Qed.

(** X7.  Refresh is all or nothing.  When one stored value of the
    picture field does not decode to a picture block, wherever it
    stands in the list, refresh returns an ["error: ..."] status and
    the disk is as before: no block was rewritten, earlier blocks with
    another role included. *)
Theorem refresh_cover_all_or_nothing disk filepath t b64_pictures v e
    (Hopen : disk !! filepath = Some t)
    (Hfield : t !! picture_field = Some b64_pictures)
    (Hin : v ∈ b64_pictures)
    (Hbad : decode_block v = Py.Raise e) :
  ∃ e', refresh_cover filepath disk = ("error: " +:+ e', disk).
Proof.
  unfold refresh_cover, refresh_cover_try, OggOpus. rewrite Hopen. simpl.
  rewrite Hfield.
  destruct (refresh_loop_raises b64_pictures v e [] false Hin Hbad) as [e' ->].
  by exists e'.
Qed.

Lemma vc_setitem_other key values (t : VComment) other :
  other ≠ key → vc_setitem key values (delete key t) !! other = t !! other.
Proof.
  intros Hne. unfold vc_setitem. destruct values.
  - by rewrite !lookup_delete_ne.
  - by rewrite lookup_insert_ne, lookup_delete_ne.
Qed.

(** What a refresh leaves of the disk, whatever it returns. *)
Lemma refresh_cover_disk disk filepath :
  (refresh_cover filepath disk).2 = disk
  ∨ ∃ t values, disk !! filepath = Some t
      ∧ (refresh_cover filepath disk).2
        = <[filepath := vc_setitem picture_field values (delete picture_field t)]> disk.
Proof.
  unfold refresh_cover, refresh_cover_try, OggOpus.
  destruct (disk !! filepath) as [t|] eqn:Hopen; [|by left]. simpl.
  destruct (t !! picture_field) as [vs|]; [|by left].
  destruct (refresh_loop vs [] false) as [[new_pictures modified]|]; [|by left].
  right. exists t, new_pictures. split; [done|]. simpl.
  unfold save, set_tag, del_tag. simpl. by rewrite insert_insert_eq.
Qed.

Lemma refresh_cover_other disk filepath other :
  other ≠ filepath → (refresh_cover filepath disk).2 !! other = disk !! other.
Proof.
  intros Hne.
  destruct (refresh_cover_disk disk filepath) as [-> | (t & vs & _ & ->)]; [done|].
  by rewrite lookup_insert_ne.
Qed.

(** X8.  Refresh touches one field of one file.  Whatever it returns,
    every other file is as before, a path that was no readable Opus
    file is none afterwards, and the file itself keeps every field
    other than the picture field. *)
Theorem refresh_cover_frame disk filepath :
  let disk' := (refresh_cover filepath disk).2 in
  (∀ other, other ≠ filepath → disk' !! other = disk !! other)
  ∧ (disk !! filepath = None → disk' !! filepath = None)
  ∧ (∀ t, disk !! filepath = Some t →
       ∃ t', disk' !! filepath = Some t'
             ∧ ∀ key, key ≠ picture_field → t' !! key = t !! key).
Proof.
  cbv zeta. destruct (refresh_cover_disk disk filepath) as [-> | (t & vs & Hopen & ->)].
  - split; [done|]. split; [done|]. intros t Ht. by exists t.
  - split; [|split].
    + intros other Hne. by rewrite lookup_insert_ne.
    + by rewrite Hopen.
    + intros t0 Ht0. simplify_eq. eexists. rewrite lookup_insert_eq. split; [done|].
      intros key Hkey. by apply vc_setitem_other.
Qed.

(** The outcome of a refresh is determined by what the disk holds for
    that one file. *)
Lemma refresh_cover_local disk1 disk2 filepath :
  disk1 !! filepath = disk2 !! filepath →
  (refresh_cover filepath disk1).1 = (refresh_cover filepath disk2).1
  ∧ (refresh_cover filepath disk1).2 !! filepath
    = (refresh_cover filepath disk2).2 !! filepath.
Proof.
  intros Hsame. unfold refresh_cover, refresh_cover_try, OggOpus. rewrite Hsame.
  destruct (disk2 !! filepath) as [t|] eqn:Hopen; [|simpl; split; [done|congruence]].
  simpl. destruct (t !! picture_field) as [vs|]; [|simpl; split; [done|congruence]].
  destruct (refresh_loop vs [] false) as [[new_pictures modified]|];
    [|simpl; split; [done|congruence]].
  simpl. split; [done|]. unfold save. simpl. by rewrite !lookup_insert_eq.
Qed.

(** X9.  Refresh is idempotent.  For a file whose picture field is
    not empty and decodes, where the codec reads back the blocks
    refresh writes: a second refresh returns ["refreshed"] and leaves
    the disk as the first one left it. *)
Theorem refresh_cover_twice disk filepath t b64_pictures ps
    (Hopen : disk !! filepath = Some t)
    (Hfield : t !! picture_field = Some b64_pictures)
    (Hsome : b64_pictures ≠ [])
    (Hdecode : mapM decode_block b64_pictures = Py.Ok ps)
    (Hround : ∀ p, p ∈ ps →
       decode_block (b64encode (Picture_write (corrected p))) = Py.Ok (corrected p)) :
  let disk' := (refresh_cover filepath disk).2 in
  refresh_cover filepath disk' = ("refreshed", disk').
Proof.
  cbv zeta.
  set (blocks := (λ p, b64encode (Picture_write (corrected p))) <$> ps).
  assert (ps ≠ []) as Hps.
  { intros ->. destruct b64_pictures as [|v vs]; [done|].
    by apply mapM_cons_ok in Hdecode as (? & ? & _ & _ & ?). }
  assert (blocks ≠ []) as Hblocks by (by destruct ps).
  assert ((refresh_cover filepath disk).2
          = <[filepath := <[picture_field := blocks]> t]> disk) as ->.
  { unfold refresh_cover, refresh_cover_try, OggOpus. rewrite Hopen. simpl.
    rewrite Hfield, (refresh_loop_decoded _ _ [] false Hdecode). simpl.
    unfold save, set_tag, del_tag. simpl. rewrite insert_insert_eq. f_equal.
    fold blocks. unfold vc_setitem. destruct blocks; [done|].
    by rewrite insert_delete_eq. }
  assert (mapM decode_block blocks = Py.Ok (corrected <$> ps)) as Hagain.
  { replace blocks with ((λ q, b64encode (Picture_write q)) <$> (corrected <$> ps))
      by (by rewrite <-list_fmap_compose).
    apply mapM_decoded. intros q (p & -> & Hp)%list_elem_of_fmap. by apply Hround. }
  unfold refresh_cover, refresh_cover_try, OggOpus. rewrite lookup_insert_eq. simpl.
  rewrite lookup_insert_eq, (refresh_loop_decoded _ _ [] false Hagain). simpl.
  assert (existsb (λ p, bool_decide (type p ≠ 3%N)) (corrected <$> ps) = false) as ->.
  { apply not_true_is_false. intros (q & Hq & Hne)%existsb_exists.
    apply bool_decide_eq_true in Hne. apply list_elem_of_In in Hq.
    apply list_elem_of_fmap in Hq as (p & -> & _). by rewrite corrected_type in Hne. }
  f_equal. unfold save, set_tag, del_tag. simpl. rewrite !insert_insert_eq. f_equal.
  assert ((λ p, b64encode (Picture_write (corrected p))) <$> (corrected <$> ps) = blocks)
    as ->.
  { unfold blocks. rewrite <-list_fmap_compose. apply Forall_fmap_ext_1, Forall_forall.
    intros p _. simpl. f_equal. f_equal. unfold corrected at 1.
    rewrite decide_False; [done|]. rewrite corrected_type. by intros ?. }
  unfold vc_setitem. destruct blocks; [done|].
  by rewrite insert_delete_eq, insert_insert_eq.
Qed.

End RefreshMore.

Section ExtractMore.
Import Mutagen Covercp.
Variable File : string → Py.result (option Audio).

Lemma getitem_elem t key v : getitem t key = Py.Ok v → (key, v) ∈ t.
Proof.
  induction t as [|[k x] t IH]; [done|]. simpl. case_decide as Hk.
  - intros [= <-]. subst. by left.
  - intros Hv. right. by apply IH.
Qed.

Lemma apic_loop_elem t keys b :
  apic_loop t keys = Some (Py.Ok b) →
  ∃ key, key ∈ keys ∧ Py.startswith key "APIC:" = true ∧ (key, Frame (Some b)) ∈ t.
Proof.
  induction keys as [|key rest IH]; [done|]. simpl.
  destruct (Py.startswith key "APIC:") eqn:Hkey.
  - intros [= Hv]. exists key. split; [by left|]. split; [done|].
    unfold mbind, result_bind, Py.bind in Hv.
    destruct (getitem t key) as [v|] eqn:Hget; [|done].
    apply getitem_elem in Hget. by destruct v as [[d|]|]; simplify_eq/=.
  - intros (k & Hk & Hrest)%IH. exists k. split; [by right|done].
Qed.

(** X10.  Extraction invents nothing.  When [extract_cover] returns
    bytes, no warning was written, the file opened, and the bytes are
    the data of its first picture, or the data of a tag whose key
    starts with [APIC:], or the first value of its [covr] tag. *)
Theorem extract_cover_provenance source_path cover_data warnings
    (Hfound : extract_cover File source_path = (Some cover_data, warnings)) :
  warnings = []
  ∧ ∃ audio, File source_path = Py.Ok (Some audio)
      ∧ ((∃ pic rest, pictures audio = Some (pic :: rest) ∧ cover_data = data pic)
         ∨ (∃ t key, tags audio = Some (Some t)
               ∧ Py.startswith key "APIC:" = true
               ∧ (key, Frame (Some cover_data)) ∈ t)
         ∨ (∃ t rest, tags audio = Some (Some t)
               ∧ ("covr", Values (Cover cover_data :: rest)) ∈ t)).
Proof.
  unfold extract_cover in Hfound.
  destruct (extract_cover_try File source_path) as [r|] eqn:Htry; [|done].
  injection Hfound as -> <-. split; [done|].
  unfold extract_cover_try, mbind, result_bind, Py.bind in Htry.
  destruct (File source_path) as [[audio|]|]; [|done..]. exists audio. split; [done|].
  assert (∀ t, tags audio = Some (Some t) →
            match apic_loop t t.*1 with
            | Some r => Some <$> r
            | None =>
                if bool_decide ("covr" ∈ t.*1)
                then Py.bind (getitem t "covr")
                       (λ v, if truthy v then Some <$> first_bytes v else Py.Ok None)
                else Py.Ok None
            end = Py.Ok (Some cover_data) →
            (∃ t key, tags audio = Some (Some t)
               ∧ Py.startswith key "APIC:" = true
               ∧ (key, Frame (Some cover_data)) ∈ t)
            ∨ (∃ t rest, tags audio = Some (Some t)
               ∧ ("covr", Values (Cover cover_data :: rest)) ∈ t)) as Htags.
  { intros t Ht Hr. destruct (apic_loop t t.*1) as [[b|]|] eqn:Hloop; [|done|].
    - injection Hr as ->. left.
      apply apic_loop_elem in Hloop as (key & _ & Hkey & Hin). by exists t, key.
    - right. case_bool_decide; [|done].
      destruct (getitem t "covr") as [v|] eqn:Hget; [|done]. simpl in Hr.
      apply getitem_elem in Hget.
      destruct v as [|[|[b|] rest]]; simpl in Hr; try done.
      injection Hr as ->. by exists t, rest. }
  destruct (pictures audio) as [[|pic rest]|].
  - right. destruct (tags audio) as [[t|]|]; [|done..]. by apply (Htags t).
  - left. injection Htry as <-. by exists pic, rest.
  - right. destruct (tags audio) as [[t|]|]; [|done..]. by apply (Htags t).
Qed.

End ExtractMore.

Section EmbedMore.
Import Mutagen Coverfix Covercp CovercpScript.
Context {codec : Codec}.

Local Abbreviation picture_field := "metadata_block_picture".

Lemma guess_mime_cases image_data :
  guess_mime image_data ∈ ["image/jpeg"; "image/png"].
Proof. unfold guess_mime. repeat case_decide; set_solver. Qed.

(** What an embedding into a file that opens does. *)
Lemma embed_cover_opened disk dest_path image_data t :
  disk !! dest_path = Some t →
  embed_cover dest_path image_data disk
  = (true,
     <[dest_path :=
         <[picture_field :=
             [b64encode (Picture_write (front_cover (guess_mime image_data) image_data))]]> t]>
       disk,
     []).
Proof.
  intros Hopen. unfold embed_cover, OggOpus, guess_mime. rewrite Hopen. simpl.
  by repeat case_decide.
Qed.

Lemma embed_cover_unread disk dest_path image_data :
  disk !! dest_path = None →
  embed_cover dest_path image_data disk
  = (false, disk, ["Warning: Could not embed cover: unable to read " +:+ dest_path]).
Proof. intros Hnone. unfold embed_cover, OggOpus. by rewrite Hnone. Qed.

(** X11.  What embedding leaves.  When the destination does not open,
    embedding fails with one warning and the disk is as before.
    Whatever it returns, every other file is as before.  When it
    succeeds there is no warning, the destination did open, its
    picture field holds one block, whatever it held before, and its
    other fields are as before; an embedding of the same bytes that
    succeeds once more changes nothing. *)
Theorem embed_cover_frame disk dest_path image_data :
  let '(ok, disk', warnings) := embed_cover dest_path image_data disk in
  (disk !! dest_path = None →
     ok = false ∧ disk' = disk ∧ ∃ warning, warnings = [warning])
  ∧ (∀ other, other ≠ dest_path → disk' !! other = disk !! other)
  ∧ (ok = true →
       warnings = []
       ∧ (∃ t t', disk !! dest_path = Some t
            ∧ disk' !! dest_path = Some t'
            ∧ (∃ block, t' !! picture_field = Some [block])
            ∧ ∀ key, key ≠ picture_field → t' !! key = t !! key)
       ∧ (∀ disk'' warnings',
            embed_cover dest_path image_data disk' = (true, disk'', warnings') →
            disk'' = disk')).
Proof.
  destruct (disk !! dest_path) as [t|] eqn:Hopen.
  - rewrite (embed_cover_opened disk dest_path image_data t Hopen).
    split; [done|]. split.
    + intros other Hne. by rewrite lookup_insert_ne.
    + intros _. split; [done|]. split.
      * exists t. eexists. split; [done|]. rewrite lookup_insert_eq. split; [done|].
        split.
        -- eexists. by rewrite lookup_insert_eq.
        -- intros key Hkey. by rewrite lookup_insert_ne.
      * intros disk'' warnings'.
        erewrite embed_cover_opened by apply lookup_insert_eq.
        intros [= <- _]. by rewrite !insert_insert_eq.
  - rewrite (embed_cover_unread _ _ _ Hopen). split.
    + intros _. split; [done|]. split; [done|]. by eexists.
    + by split.
Qed.

(** A file that holds the one block an embedding leaves is refreshed
    without change. *)
Lemma embedded_refresh (disk : Disk) dest_path image_data (t : VComment) :
  let pic := front_cover (guess_mime image_data) image_data in
  let disk' :=
    <[dest_path := <[picture_field := [b64encode (Picture_write pic)]]> t]> disk in
  decode_block (b64encode (Picture_write pic)) = Py.Ok pic →
  stored_pictures disk' dest_path = Some [pic]
  ∧ refresh_cover dest_path disk' = ("refreshed", disk').
Proof.
  intros pic disk' Hround.
  assert (mapM decode_block [b64encode (Picture_write pic)] = Py.Ok [pic]) as Hdecode.
  { simpl. by rewrite Hround. }
  unfold disk'. split.
  - unfold stored_pictures. rewrite lookup_insert_eq. simpl.
    rewrite lookup_insert_eq. simpl in *. by rewrite Hround.
  - unfold refresh_cover, refresh_cover_try, OggOpus. rewrite lookup_insert_eq. simpl.
    rewrite lookup_insert_eq, (refresh_loop_decoded _ _ [] false Hdecode). simpl.
    unfold corrected. simpl. f_equal.
    unfold save, set_tag, del_tag, vc_setitem. simpl.
    rewrite !insert_insert_eq, insert_delete_eq. by rewrite ?insert_insert_eq.
Qed.

(** X12.  A refresh after an embedding finds nothing to correct.
    Where the codec reads back the block built for the image bytes,
    the destination stores that one block after [embed_cover], and
    [refresh_cover] on it returns ["refreshed"] and leaves the disk as
    it is. *)
Theorem embed_then_refresh disk dest_path image_data t
    (Hopen : disk !! dest_path = Some t)
    (Hround : ∀ mime_type, mime_type ∈ ["image/jpeg"; "image/png"] →
       decode_block (b64encode (Picture_write (front_cover mime_type image_data)))
       = Py.Ok (front_cover mime_type image_data)) :
  let disk' := (embed_cover dest_path image_data disk).1.2 in
  (∃ mime_type, stored_pictures disk' dest_path = Some [front_cover mime_type image_data])
  ∧ refresh_cover dest_path disk' = ("refreshed", disk').
Proof.
  cbv zeta.
  rewrite (embed_cover_opened disk dest_path image_data t Hopen). simpl.
  destruct (embedded_refresh disk dest_path image_data t
              (Hround _ (guess_mime_cases image_data))) as [Hstored Hfix].
  split; [by eexists|done].
Qed.

End EmbedMore.

(* ===================================================================== *)
(** * Further properties: the entry points                               *)
(* ===================================================================== *)

Section CovercpMain.
Import Mutagen Covercp CovercpScript.
Context {codec : Codec}.
Variable File : string → Py.result (option Audio).

Local Abbreviation picture_field := "metadata_block_picture".

(** X13.  The outcomes of [covercp.py].  The exit status is 0 or 1.
    With an argument count other than two it is 1, the usage goes to
    standard error and the disk is as before.  When no cover is found
    it is 0 and the disk is as before.  When a cover is found and the
    destination does not open it is 1 and the disk is as before.
    Standard output gets nothing but the report of the copy, and only
    with status 0: then a cover was found, the destination did open,
    and its picture field holds the one front-cover block built from
    the extracted bytes. *)
Theorem covercp_main_outcome prog args disk :
  let '(status, lines, disk') := main File prog args disk in
  (status = 0 ∨ status = 1)%Z
  ∧ (length args ≠ 2 →
       status = 1%Z ∧ disk' = disk
       ∧ lines = [(ToStderr, "Usage: " +:+ prog +:+ " <source> <dest.opus>")])
  ∧ (∀ source dest, args = [source; dest] →
       (extract_cover File source).1 = None →
       status = 0%Z ∧ disk' = disk ∧ ∀ line, (ToStdout, line) ∉ lines)
  ∧ (∀ source dest cover_data, args = [source; dest] →
       (extract_cover File source).1 = Some cover_data →
       disk !! dest = None →
       status = 1%Z ∧ disk' = disk ∧ ∀ line, (ToStdout, line) ∉ lines)
  ∧ (∀ line, (ToStdout, line) ∈ lines →
       status = 0%Z
       ∧ ∃ source dest cover_data t,
           args = [source; dest]
           ∧ (extract_cover File source).1 = Some cover_data
           ∧ disk !! dest = Some t
           ∧ line = "Cover copied: " +:+ source +:+ " -> " +:+ dest
           ∧ disk' = <[dest :=
                        <[picture_field :=
                            [b64encode (Picture_write
                               (front_cover (guess_mime cover_data) cover_data))]]> t]>
                       disk).
Proof.
  unfold main.
  assert (∀ warnings line,
            (ToStdout, line) ∉ ((ToStderr,.) <$> warnings : list (Stream * string)))
    as Hquiet.
  { intros warnings line Hline. by apply list_elem_of_fmap in Hline as (? & [=] & _). }
  destruct args as [|source [|dest [|extra args]]].
  - split; [by right|]. split; [done|]. split; [done|]. split; [done|].
    by intros line Hline%list_elem_of_singleton.
  - split; [by right|]. split; [done|]. split; [done|]. split; [done|].
    by intros line Hline%list_elem_of_singleton.
  - destruct (extract_cover File source) as [[cover_data|] warnings] eqn:Hextract.
    + destruct (disk !! dest) as [t|] eqn:Hopen.
      * rewrite (embed_cover_opened disk dest cover_data t Hopen).
        split; [by left|]. split; [done|].
        split; [by intros s d [= <- <-]; rewrite Hextract|].
        split; [intros s d b [= <- <-] _; congruence|].
        intros line Hline. split; [done|]. exists source, dest, cover_data, t.
        rewrite Hextract. split; [done|]. split; [done|]. split; [done|].
        split; [|done].
        apply elem_of_app in Hline as [Hline|Hline].
        -- apply elem_of_app in Hline as [Hline|Hline]; [by apply Hquiet in Hline|].
           by apply (Hquiet []) in Hline.
        -- apply list_elem_of_singleton in Hline. by injection Hline.
      * rewrite (embed_cover_unread disk dest cover_data Hopen).
        assert (∀ line, (ToStdout, line)
                  ∉ ((ToStderr,.) <$> warnings)
                    ++ ((ToStderr,.) <$>
                          ["Warning: Could not embed cover: unable to read " +:+ dest]))
          as Hnone.
        { intros line Hline. apply elem_of_app in Hline as [Hline|Hline];
            by apply Hquiet in Hline. }
        split; [by right|]. split; [done|].
        split; [by intros s d [= <- <-]; rewrite Hextract|].
        split; [by intros s d b [= <- <-] _ _|].
        intros line Hline. by apply Hnone in Hline.
    + assert (∀ line, (ToStdout, line)
                ∉ ((ToStderr,.) <$> warnings)
                  ++ [(ToStderr, "No cover found in: " +:+ source)]) as Hnone.
      { intros line Hline. apply elem_of_app in Hline as [Hline|Hline];
          [by apply Hquiet in Hline|by apply list_elem_of_singleton in Hline]. }
      split; [by left|]. split; [done|].
      split; [by intros s d [= <- <-] _|].
      split; [by intros s d b [= <- <-]; rewrite Hextract|].
      intros line Hline. by apply Hnone in Hline.
  - split; [by right|]. split; [done|]. split; [done|]. split; [done|].
    by intros line Hline%list_elem_of_singleton.
Qed.

End CovercpMain.

Section CoverfixMain.
Import Mutagen Coverfix CoverfixScript.
Context {codec : Codec}.
Variable isdir : string → bool.
Variable glob : string → list string.
Variable rglob : string → list string.

Local Abbreviation listed := (CoverfixScript.listed isdir glob rglob).
Local Abbreviation expand := (CoverfixScript.expand isdir glob rglob).
Local Abbreviation visit := (CoverfixScript.visit isdir).
Local Abbreviation main := (CoverfixScript.main isdir glob rglob).

Lemma str_le_total : Total str_le.
Proof. intros s1 s2. apply String.leb_total. Qed.

Lemma listed_nodup args : NoDup (listed args).
Proof.
  unfold CoverfixScript.listed. rewrite merge_sort_Permutation.
  apply NoDup_remove_dups.
Qed.

(** X14.  The files [coverfix.py] goes through: in ascending order,
    none of them twice, and exactly the expansions of the targets
    (of [.] when no argument is given).  A target that is no directory
    and matches nothing as a pattern is itself among them. *)
Theorem coverfix_listed args :
  let targets := match args with [] => ["."] | _ => args end in
  Sorted str_le (listed args)
  ∧ NoDup (listed args)
  ∧ (∀ filepath, filepath ∈ listed args ↔
       ∃ target, target ∈ targets ∧ filepath ∈ expand target)
  ∧ (∀ target, target ∈ targets → isdir target = false → glob target = [] →
       target ∈ listed args).
Proof.
  cbv zeta. unfold CoverfixScript.listed.
  set (targets := match args with [] => ["."] | _ => args end).
  assert (∀ filepath, filepath ∈ merge_sort str_le (remove_dups (targets ≫= expand))
            ↔ ∃ target, target ∈ targets ∧ filepath ∈ expand target) as Hmem.
  { intros filepath. rewrite merge_sort_Permutation, elem_of_remove_dups.
    rewrite list_elem_of_bind. split; intros (target & ? & ?); by exists target. }
  split; [apply (@Sorted_merge_sort _ str_le _ str_le_total)|].
  split; [apply listed_nodup|]. split; [done|].
  intros target Htarget Hdir Hglob. apply Hmem. exists target. split; [done|].
  unfold CoverfixScript.expand. rewrite Hdir, Hglob. by left.
Qed.



End CoverfixMain.

Section OpusconvMain.
Import Opusconv OpusconvScript.
Context {collab : Collaborators}.
Variable glob : FS → string → list string.

Local Abbreviation expand := (OpusconvScript.expand glob).
Local Abbreviation source_dirs := (OpusconvScript.source_dirs glob).
Local Abbreviation main := (OpusconvScript.main glob).

(** The deduplicating loop, from any point it has reached. *)
Lemma select_loop paths dirs (seen : gset string) :
  NoDup (resolved <$> dirs) →
  (∀ key, key ∈ seen ↔ key ∈ resolved <$> dirs) →
  ∃ added,
    (foldl select (dirs, seen) paths).1 = dirs ++ added
    ∧ NoDup (resolved <$> dirs ++ added)
    ∧ added `sublist_of` paths
    ∧ (∀ path, path ∈ paths → resolved path ∈ resolved <$> dirs ++ added)
    ∧ (∀ before path after, paths = before ++ path :: after →
         resolved path ∉ resolved <$> dirs ++ before → path ∈ added).
Proof.
  revert dirs seen. induction paths as [|x paths IH]; intros dirs seen Hnodup Hseen.
  - exists []. rewrite app_nil_r. split; [done|]. split; [done|]. split; [done|].
    split; [by intros ? ?%elem_of_nil|]. by intros [|??] ?? ?.
  - change (foldl select (dirs, seen) (x :: paths))
      with (foldl select (select (dirs, seen) x) paths).
    unfold select at 2. case_decide as Hx.
    + destruct (IH dirs seen Hnodup Hseen) as (added & -> & Hnd & Hsub & Hall & Hfirst).
      exists added. split; [done|]. split; [done|]. split; [by apply sublist_cons|].
      split.
      * intros path [->|Hpath]%elem_of_cons; [|by apply Hall].
        rewrite fmap_app. apply elem_of_app. left. by apply Hseen.
      * intros [|y before] path after Heq Hnew; simplify_eq/=.
        -- destruct Hnew. rewrite app_nil_r. by apply Hseen.
        -- apply (Hfirst before path after); [done|]. intros Hin. apply Hnew.
           rewrite fmap_app in *. apply elem_of_app in Hin as [?|?].
           ++ apply elem_of_app. by left.
           ++ apply elem_of_app. right. rewrite fmap_cons. by right.
    + destruct (IH (dirs ++ [x]) ({[ resolved x ]} ∪ seen))
        as (added & Hrun & Hnd & Hsub & Hall & Hfirst).
      * rewrite fmap_app. apply NoDup_app. split; [done|]. split.
        -- intros key Hkey [->|[]%elem_of_nil]%elem_of_cons. by apply Hx, Hseen.
        -- apply NoDup_singleton.
      * intros key. rewrite fmap_app, elem_of_app, elem_of_union, elem_of_singleton.
        rewrite Hseen. simpl. rewrite list_elem_of_singleton. tauto.
      * exists (x :: added). rewrite Hrun, <-app_assoc. simpl. split; [done|].
        rewrite <-app_assoc in Hnd. split; [done|]. split; [by apply sublist_skip|].
        split.
        -- intros path [->|Hpath]%elem_of_cons.
           ++ rewrite fmap_app. apply elem_of_app. right. rewrite fmap_cons. by left.
           ++ specialize (Hall path Hpath). by rewrite <-app_assoc in Hall.
        -- intros [|y before] path after Heq Hnew; simplify_eq/=; [by left|].
           right. apply (Hfirst before path after); [done|].
           by rewrite <-app_assoc.
Qed.

(** X16.  The directories [opusconv.py] walks.  No two of them resolve
    to the same path; they are expanded arguments, in their order;
    every expanded argument resolves to the path of one of them; and
    of several that resolve to the same path the first is the one
    walked. *)
Theorem source_dirs_deduplicated fs args :
  let paths := expand fs args in
  let dirs := source_dirs fs args in
  NoDup (resolved <$> dirs)
  ∧ dirs `sublist_of` paths
  ∧ (∀ path, path ∈ paths → resolved path ∈ resolved <$> dirs)
  ∧ (∀ before path after, paths = before ++ path :: after →
       resolved path ∉ resolved <$> before → path ∈ dirs).
Proof.
  cbv zeta. unfold OpusconvScript.source_dirs.
  destruct (select_loop (expand fs args) [] ∅) as (added & -> & Hnd & Hsub & Hall & Hfirst).
  - constructor.
  - intros key. split; [by intros ?%elem_of_empty|by intros ?%elem_of_nil].
  - done.
Qed.

Lemma run_prints fs0 lines : run fs0 (Stdout <$> lines) fs0.
Proof.
  induction lines as [|line lines IH]; [apply run_nil|]. by apply run_print.
Qed.

(** X17.  A whole invocation of [opusconv.py] is a run in the sense of
    X4: no transcode is started on an existing output, and cover
    operations follow successful transcodes only.  Without argument it
    exits with status 1 after printing the usage, with the file system
    as before; with arguments, when it returns, the status is 0. *)
Theorem opusconv_main_run prog args w :
  ∃ r w' log,
    main prog args w = (r, w')
    ∧ trace w' = trace w ++ log
    ∧ run (fs w) log (fs w')
    ∧ (args = [] → r = Py.Ok 1%Z ∧ fs w' = fs w ∧ Forall (λ e, is_print e = true) log)
    ∧ (args ≠ [] → ∀ status, r = Py.Ok status → status = 0%Z).
Proof.
  destruct args as [|arg args].
  - eexists _, _, _. split; [reflexivity|]. simpl. rewrite <-!app_assoc. simpl.
    split; [done|]. split; [apply (run_prints _ [_; _; _; _; _; _; _; _; _])|].
    split; [|done]. intros _. split; [done|]. split; [done|]. by repeat constructor.
  - assert (logs run (main prog (arg :: args)) w) as (r & w' & log & Hrun & Htrace & Hlog).
    { unfold OpusconvScript.main.
      apply (logs_gets run). cbv beta.
      do 2 (apply (logs_print_then run run_app run_one_print)).
      apply (logs_bind run run_app).
      - apply (logs_for_each run run_nil run_app). intros source_dir w1 _.
        apply (logs_bind run run_app); [apply run_convert_directory|]. intros _ w2.
        apply (logs_print run run_one_print).
      - intros _ w1.
        do 2 (apply (logs_print_then run run_app run_one_print)).
        apply (logs_ret run run_nil). }
    exists r, w', log. split; [done|]. split; [done|]. split; [done|].
    split; [done|]. intros _ status ->.
    unfold OpusconvScript.main in Hrun.
    do 6 (apply bind_result in Hrun as (? & ? & _ & Hrun)).
    by injection Hrun as <-.
Qed.

End OpusconvMain.

Section CoverPipeline.
Import Mutagen Coverfix Covercp.
Context {codec : Codec}.
Variable File : string → Py.result (option Audio).
Variable isdir : string → bool.
Variable glob : string → list string.
Variable rglob : string → list string.

(** X18.  The cover handling of a fresh output, end to end.  When the
    source holds a cover, the destination opens, is no directory and
    matches at most itself as a pattern, and the codec reads back the
    block built for the cover: [covercp.py source dest] followed by
    [coverfix.py dest] both exit with status 0, the second reports
    [[OK] Refreshed] and changes nothing, the destination stores the
    one front-cover block with the source's bytes, and every other
    file is as before. *)
Theorem cover_copy_then_refresh prog source dest disk cover_data t
    (Hcover : (extract_cover File source).1 = Some cover_data)
    (Hopen : disk !! dest = Some t)
    (Hfile : isdir dest = false)
    (Hglob : glob dest = [] ∨ glob dest = [dest])
    (Hround : ∀ mime_type, mime_type ∈ ["image/jpeg"; "image/png"] →
       decode_block (b64encode (Picture_write
                       (CovercpScript.front_cover mime_type cover_data)))
       = Py.Ok (CovercpScript.front_cover mime_type cover_data)) :
  let '(copy_status, copy_lines, disk1) :=
    CovercpScript.main File prog [source; dest] disk in
  let '(fix_status, fix_lines, disk2) :=
    CoverfixScript.main isdir glob rglob [dest] disk1 in
  copy_status = 0%Z
  ∧ fix_status = 0%Z
  ∧ fix_lines = ["[OK] Refreshed: " +:+ dest]
  ∧ disk2 = disk1
  ∧ stored_pictures disk2 dest
    = Some [CovercpScript.front_cover (CovercpScript.guess_mime cover_data) cover_data]
  ∧ ∀ other, other ≠ dest → disk2 !! other = disk !! other.
Proof.
  assert (CoverfixScript.listed isdir glob rglob [dest] = [dest]) as Hlisted.
  { unfold CoverfixScript.listed, CoverfixScript.expand. simpl. rewrite Hfile.
    by destruct Hglob as [-> | ->]. }
  destruct (embedded_refresh disk dest cover_data t
              (Hround _ (guess_mime_cases cover_data))) as [Hstored Hfix].
  unfold CovercpScript.main.
  destruct (extract_cover File source) as [found warnings]. simpl in Hcover. subst found.
  rewrite (embed_cover_opened disk dest cover_data t Hopen).
  unfold CoverfixScript.main. rewrite Hlisted. simpl. rewrite Hfile, Hfix.
  split; [done|]. split; [done|]. split; [done|]. split; [done|]. split; [done|].
  intros other Hne. by rewrite lookup_insert_ne.
Qed.

End CoverPipeline.

(* ===================================================================== *)
(** * Further sample runs                                                 *)
(* ===================================================================== *)

Lemma fallback_source_has_bitrate_witness :
  PathOps.suffix (Fixtures.P "/music/live" // "track.flac") ∈ Opusconv.cue_extensions
  ∧ PathOps.stem (Fixtures.P "/music/live" // "track.flac")
    = PathOps.stem (PathOps.of_str "track.wav")
  ∧ ∃ bitrate,
      Opusconv.get_bitrate (PathOps.suffix (Fixtures.P "/music/live" // "track.flac"))
      = Some bitrate.
Proof.
  apply (fallback_source_has_bitrate Fixtures.flac_only_tree (Fixtures.P "/music/live")
           "track.wav").
  - vm_compute. reflexivity.
  - vm_compute. discriminate.
  - vm_compute. reflexivity.
Defined.

Lemma refresh_cover_all_or_nothing_witness :
  ∃ e, Coverfix.refresh_cover (codec := Wire.codec) "bad.opus" Samples.broken_disk
       = ("error: " +:+ e, Samples.broken_disk).
Proof.
  apply (refresh_cover_all_or_nothing (codec := Wire.codec) Samples.broken_disk "bad.opus"
           Samples.broken_cover [Fixtures.front_scan_b64; "!!!"] "!!!"
           "unpack requires a buffer of 4 bytes").
  - vm_compute. reflexivity.
  - vm_compute. reflexivity.
  - right. left.
  - vm_compute. reflexivity.
Defined.

Lemma refresh_cover_twice_witness :
  Coverfix.refresh_cover (codec := Wire.codec) "two.opus"
    (Coverfix.refresh_cover (codec := Wire.codec) "two.opus" Fixtures.disk).2
  = ("refreshed", (Coverfix.refresh_cover (codec := Wire.codec) "two.opus" Fixtures.disk).2).
Proof.
  apply (refresh_cover_twice (codec := Wire.codec) Fixtures.disk "two.opus"
           Fixtures.two_covers [Fixtures.front_scan_b64; Fixtures.back_cover_b64]
           [Fixtures.front_scan; Fixtures.back_cover]).
  - vm_compute. reflexivity.
  - vm_compute. reflexivity.
  - discriminate.
  - vm_compute. reflexivity.
  - intros p Hp.
    repeat (apply elem_of_cons in Hp as [->|Hp]; [vm_compute; reflexivity|]).
    by apply elem_of_nil in Hp.
Defined.

Lemma extract_cover_provenance_witness :
  ([] : list string) = []
  ∧ ∃ audio, Fixtures.File "a.m4a" = Py.Ok (Some audio)
      ∧ ((∃ pic rest, Covercp.pictures audio = Some (pic :: rest)
            ∧ Fixtures.png_magic = Mutagen.data pic)
         ∨ (∃ t key, Covercp.tags audio = Some (Some t)
               ∧ Py.startswith key "APIC:" = true
               ∧ (key, Covercp.Frame (Some Fixtures.png_magic)) ∈ t)
         ∨ (∃ t rest, Covercp.tags audio = Some (Some t)
               ∧ ("covr", Covercp.Values (Covercp.Cover Fixtures.png_magic :: rest)) ∈ t)).
Proof.
  apply (extract_cover_provenance Fixtures.File "a.m4a" Fixtures.png_magic []).
  vm_compute. reflexivity.
Defined.

Lemma embed_then_refresh_witness :
  let disk' :=
    (Covercp.embed_cover (codec := Wire.codec) "none.opus" Fixtures.png_magic
       Fixtures.disk).1.2 in
  (∃ mime_type,
     Coverfix.stored_pictures (codec := Wire.codec) disk' "none.opus"
     = Some [CovercpScript.front_cover mime_type Fixtures.png_magic])
  ∧ Coverfix.refresh_cover (codec := Wire.codec) "none.opus" disk' = ("refreshed", disk').
Proof.
  apply (embed_then_refresh (codec := Wire.codec) Fixtures.disk "none.opus"
           Fixtures.png_magic Fixtures.no_cover).
  - vm_compute. reflexivity.
  - intros mime_type Hm.
    repeat (apply elem_of_cons in Hm as [->|Hm]; [vm_compute; reflexivity|]).
    by apply elem_of_nil in Hm.
Defined.

Lemma claimed_source_not_transcoded_witness :
  ∃ r w' log,
    Opusconv.convert_directory (collab := Fixtures.lower_world) "/music"
      {| fs := Fixtures.lower_tree; trace := [] |} = (r, w')
    ∧ trace w' = [] ++ log
    ∧ ∀ c, Opusencode c ∈ log →
           enc_input c = Fixtures.P "/music/album/album.flac" →
           is_Some (enc_start c).
Proof.
  apply (claimed_source_not_transcoded (collab := Fixtures.lower_world) "/music"
           {| fs := Fixtures.lower_tree; trace := [] |}
           (Fixtures.P "/music/album/album.cue") "album.flac"
           (Fixtures.P "/music/album/album.flac")).
  - apply list_elem_of_In. vm_compute. tauto.
  - vm_compute. reflexivity.
  - apply list_elem_of_In. vm_compute. tauto.
  - vm_compute. reflexivity.
Defined.

Lemma cover_copy_then_refresh_witness :
  let '(copy_status, copy_lines, disk1) :=
    CovercpScript.main (codec := Wire.codec) Fixtures.File "covercp.py"
      ["a.m4a"; "none.opus"] Fixtures.disk in
  let '(fix_status, fix_lines, disk2) :=
    CoverfixScript.main (codec := Wire.codec) (λ _, false) (λ _, []) (λ _, [])
      ["none.opus"] disk1 in
  copy_status = 0%Z
  ∧ fix_status = 0%Z
  ∧ fix_lines = ["[OK] Refreshed: " +:+ "none.opus"]
  ∧ disk2 = disk1
  ∧ Coverfix.stored_pictures (codec := Wire.codec) disk2 "none.opus"
    = Some [CovercpScript.front_cover (CovercpScript.guess_mime Fixtures.png_magic)
              Fixtures.png_magic]
  ∧ ∀ other, other ≠ "none.opus" → disk2 !! other = Fixtures.disk !! other.
Proof.
  apply (cover_copy_then_refresh (codec := Wire.codec) Fixtures.File
           (λ _, false) (λ _, []) (λ _, []) "covercp.py" "a.m4a" "none.opus"
           Fixtures.disk Fixtures.png_magic Fixtures.no_cover).
  - vm_compute. reflexivity.
  - vm_compute. reflexivity.
  - reflexivity.
  - left. reflexivity.
  - intros mime_type Hm.
    repeat (apply elem_of_cons in Hm as [->|Hm]; [vm_compute; reflexivity|]).
    by apply elem_of_nil in Hm.
Defined.


Lemma walk_handles_every_file_witness :
  let w := {| fs := Fixtures.lower_tree; trace := [] |} in
  let w' := (Opusconv.convert_directory (collab := Fixtures.lower_world) "/music" w).2 in
  let d := Fixtures.P "/home/alice/opus/music/album/x.opus" in
  Os.exists_ (fs w') d = true
  ∨ ∃ c, Opusencode c ∈ trace w'
         ∧ enc_input c = Fixtures.P "/music/album" // "x.mp3" ∧ enc_output c = d.
Proof.
  intros w w' d.
  apply (walk_handles_every_file (collab := Fixtures.lower_world) "/music" w w'
           ltac:(vm_compute; reflexivity) ltac:(vm_compute; reflexivity)
           (Fixtures.P "/music/album") ["album.cue"; "album.flac"; "x.mp3"] "x.mp3" d).
  - apply list_elem_of_In. vm_compute. tauto.
  - apply list_elem_of_In. vm_compute. tauto.
  - apply list_elem_of_In. vm_compute. tauto.
Defined.

Lemma process_cue_handles_every_track_witness :
  let w := {| fs := Fixtures.lower_tree; trace := [] |} in
  let dest := Fixtures.P "/home/alice/opus/music/album" in
  let w' :=
    (Opusconv.process_cue (collab := Fixtures.lower_world)
       (Fixtures.P "/music/album/album.cue") dest w).2 in
  ∃ file0 source_audio,
    head (default [] (Cue.files Fixtures.album_cue)) = Some file0
    ∧ Opusconv.find_audio_for_cue (fs w) (PathOps.parent (Fixtures.P "/music/album/album.cue"))
        file0 = Some source_audio
    ∧ ∀ track, track ∈ default [] (Cue.tracks Fixtures.album_cue) →
        Os.exists_ (fs w') (dest // Opusconv.out_name track) = true
        ∨ ∃ c, Opusencode c ∈ trace w'
               ∧ enc_input c = source_audio
               ∧ enc_output c = dest // Opusconv.out_name track.
Proof.
  intros w dest w'.
  apply (process_cue_handles_every_track (collab := Fixtures.lower_world)
           (Fixtures.P "/music/album/album.cue") dest w w' Fixtures.album_cue).
  - vm_compute. reflexivity.
  - vm_compute. reflexivity.
Defined.
